(** * sim-prag: a recursive speaker/listener model of pragmatic learning

    Shallow embedding of [level_prag_learn.py] (the learner over hypotheses
    that carry a pragmatic level) and of the parts of [learn_pragmatics.py]
    that differ from it (the inline lexicon enumeration, the literal
    listener's usability test, the single-level posterior update).

    Conventions of the embedding.
    - Python floats are read as real numbers: [+], [-], [*], [/], [log] and
      [exp] are the exact operations of [R].  Rounding, infinities and NaN
      are outside the model.
    - Python exceptions are values of [exn]; a function that may raise
      returns in the error monad [py].
    - The module-level parameters ([noise], [alpha], [signals], [meanings])
      are the constants the scripts assign; the hypothesis list, which the
      script receives from [hypotheses.generate_hypotheses], is an explicit
      argument. *)

From Stdlib Require Import Reals Lra Lia ZArith Ascii String List.
From stdpp Require Import base list gmap.

Local Open Scope R_scope.

(** ** Exceptions and the error monad *)

Inductive exn : Type :=
| ValueError
| ZeroDivisionError
| IndexError
| UnboundLocalError.

Definition py (A : Type) : Type := (exn + A)%type.

Definition ret {A : Type} (x : A) : py A := inr x.
Definition raise {A : Type} (e : exn) : py A := inl e.

Definition bind {A B : Type} (m : py A) (k : A -> py B) : py B :=
  match m with
  | inl e => inl e
  | inr x => k x
  end.

Notation "x <- m ;; k" := (bind m (fun x => k))
  (at level 100, m at next level, right associativity,
   format "'[v' x  <-  m  ;;  '/' k ']'").

(** [for x in xs: s = body(x, s)]: a loop that threads the objects it
    mutates. *)
Fixpoint for_each {A S : Type} (xs : list A) (body : A -> S -> py S) (s : S)
  : py S :=
  match xs with
  | [] => ret s
  | x :: xs' => s' <- body x s ;; for_each xs' body s'
  end.

(** A list comprehension [[f(x) for x in xs]] whose element may raise. *)
Fixpoint map_py {A B : Type} (f : A -> py B) (xs : list A) : py (list B) :=
  match xs with
  | [] => ret []
  | x :: xs' => y <- f x ;; ys <- map_py f xs' ;; ret (y :: ys)
  end.

(** ** Python and NumPy primitives *)

(** [math.log]: raises [ValueError] outside the positive reals. *)
Definition log (x : R) : py R :=
  if Rlt_dec 0 x then ret (ln x) else raise ValueError.

(** [x / y] on numbers. *)
Definition div (x y : R) : py R :=
  if Req_dec_T y 0 then raise ZeroDivisionError else ret (x / y).

(** [l[i]] for a non-negative index. *)
Definition getitem {A : Type} (l : list A) (i : nat) : py A :=
  match l !! i with
  | Some x => ret x
  | None => raise IndexError
  end.

(** [l[i] = x] for a non-negative index. *)
Definition setitem {A : Type} (l : list A) (i : nat) (x : A) : py (list A) :=
  if decide (i < length l)%nat then ret (<[i:=x]> l) else raise IndexError.

(** [np.zeros(n)]. *)
Definition zeros (n : nat) : list R := replicate n 0.

(** [range(n)]. *)
Definition range (n : nat) : list nat := seq 0 n.

(** Sum of the exponentials of a vector. *)
Definition sum_exp (v : list R) : R := foldr (fun x acc => exp x + acc) 0 v.

(** [scipy.special.logsumexp] on a vector, by its mathematical definition. *)
Definition logsumexp (v : list R) : R := ln (sum_exp v).

(** [scipy.special.softmax] on a vector, by its mathematical definition. *)
Definition softmax (v : list R) : list R :=
  map (fun x => exp x / sum_exp v) v.

(** Modelled from the spec: [utilities.normalize_logprobs], which is not
    among the sources.  The spec (4.1) gives it as [v_i - logsumexp(v)] for
    each entry. *)
Definition normalize_logprobs (v : list R) : list R :=
  map (fun x => x - logsumexp v) v.

(** ** Parameters of the scripts *)

Definition noise : R := 0.05.
Definition alpha : R := 3.
Definition meanings : list nat := [0; 1; 2]%nat.
Definition signals : list ascii := ["a"; "b"; "c"]%char.

(** ** Mental-state model *)

(** [calc_mental_state] (level_prag_learn.py, lines 18-26). *)
Definition calc_mental_state (perspective : R) (context : list R)
  : py (list R) :=
  distribution <-
    for_each (range (length context))
      (fun o distribution =>
         c <- getitem context o ;;
         w <- log (1 - Rabs (perspective - c)) ;;
         setitem distribution o w)
      (zeros (length context)) ;;
  ret (normalize_logprobs distribution).

(** ** Lexicons and hypotheses *)

(** A lexicon is a matrix of the characters ['0'] and ['1']: one row per
    meaning, one column per signal. *)
Definition lexicon : Type := list (list ascii).

(** A hypothesis is the triple [[language, perspective, pragmatic_lvl]]. *)
Record hypothesis : Type := mk_hypothesis {
  h_language : lexicon;
  h_perspective : R;
  h_pragmatic_lvl : Z
}.

(** [np.where(cond(a))[0]]: the indices, in order, of the entries that
    satisfy [cond]. *)
Fixpoint np_where_from {A : Type} (cond : A -> bool) (i : nat) (a : list A)
  : list nat :=
  match a with
  | [] => []
  | x :: a' =>
      if cond x then i :: np_where_from cond (S i) a'
      else np_where_from cond (S i) a'
  end.

Definition np_where {A : Type} (cond : A -> bool) (a : list A) : list nat :=
  np_where_from cond 0 a.

(** [a[idx]] for an index array [idx]. *)
Definition take_indices {A : Type} (a : list A) (idx : list nat) : py (list A) :=
  map_py (getitem a) idx.

(** [x in a]. *)
Definition elem (x : ascii) (a : list ascii) : bool :=
  existsb (Ascii.eqb x) a.

(** ** Literal listener *)

(** [list1_lit_spkr] (level_prag_learn.py, lines 29-46).  The rows of a
    lexicon are NumPy arrays of characters, as the elementwise comparison
    with ['0'] requires. *)
Definition list1_lit_spkr (signal : ascii) (meaning : nat) (language : lexicon)
    (ref_distribution : list R) : py R :=
  row <- getitem language meaning ;;
  signals_for_r <-
    take_indices signals (np_where (fun c => negb (Ascii.eqb c "0")) row) ;;
  let num_signals_for_r := length signals_for_r in
  if elem signal signals_for_r then
    in_language <-
      (if Nat.eqb num_signals_for_r (length signals)
       then q <- div 1 (INR num_signals_for_r) ;; log q
       else q <- div (1 - noise) (INR num_signals_for_r) ;; log q) ;;
    r <- getitem ref_distribution meaning ;;
    ret (r + in_language)
  else
    q <- div noise
           (IZR (Z.of_nat (length signals) - Z.of_nat num_signals_for_r)) ;;
    out_of_language <- log q ;;
    r <- getitem ref_distribution meaning ;;
    ret (r + out_of_language).

(** [list1_perception_matrix] (level_prag_learn.py, lines 49-58). *)
Definition list1_perception_matrix (language : lexicon)
    (ref_distribution : list R) : py (list (list R)) :=
  for_each (range (length signals))
    (fun s mat =>
       row <-
         for_each meanings
           (fun m row =>
              sig <- getitem signals s ;;
              v <- list1_lit_spkr sig m language ref_distribution ;;
              setitem row m v)
           (zeros (length meanings)) ;;
       setitem mat s (normalize_logprobs row))
    (replicate (length signals) (zeros (length meanings))).

(** ** Pragmatic speaker *)

(** [spkr1_production_probs] (level_prag_learn.py, lines 99-108).  The
    perception matrix is rebuilt for every signal, as in the comprehension.
    [np.log] is applied to the entries of a softmax, which are positive. *)
Definition spkr1_production_probs (meaning : nat) (language : lexicon)
    (mental_state : list R) : py (list R) :=
  signal_utility <-
    map_py
      (fun s =>
         mat <- list1_perception_matrix language mental_state ;;
         row <- getitem mat s ;;
         x <- getitem row meaning ;;
         ret (alpha * x))
      (range (length signals)) ;;
  ret (map ln (softmax signal_utility)).

(** ** Pragmatic listener *)

(** One iteration of the noise loop of [list2_spkr1] on the array it
    updates in place (lines 68-70). *)
Definition noise_iteration (s : nat) (noisy_speaker_probs : list R)
  : py (list R) :=
  x <- getitem noisy_speaker_probs s ;;
  l1 <- log (1 - noise) ;;
  noisy_speaker_probs <- setitem noisy_speaker_probs s (x + l1) ;;
  other_signals <-
    map_py (getitem noisy_speaker_probs)
      (List.filter (fun os => negb (Nat.eqb os s))
         (range (length noisy_speaker_probs))) ;;
  x' <- getitem noisy_speaker_probs s ;;
  ln_noise <- log noise ;;
  l2 <- log (INR (length signals) - 1) ;;
  setitem noisy_speaker_probs s
    (logsumexp [x'; (ln_noise + logsumexp other_signals) - l2]).

(** [list2_spkr1] (level_prag_learn.py, lines 61-72).  [s_index] is the
    index array of [np.where], so the value returned is an array: it has one
    entry when the signal is in the alphabet and none otherwise. *)
Definition list2_spkr1 (signal : ascii) (meaning : nat) (language : lexicon)
    (ref_distribution : list R) : py (list R) :=
  let s_index := np_where (Ascii.eqb signal) signals in
  speaker_probs <- spkr1_production_probs meaning language ref_distribution ;;
  noisy_speaker_probs <-
    for_each (range (length speaker_probs)) noise_iteration speaker_probs ;;
  r <- getitem ref_distribution meaning ;;
  picked <- take_indices noisy_speaker_probs s_index ;;
  ret (map (fun x => r + x) picked).

(** ** Posterior update *)

(** [a[m] = v] where [v] is an array and [a[m]] a scalar slot: NumPy accepts
    an array of exactly one element and raises [ValueError] otherwise. *)
Definition setitem_array (a : list R) (m : nat) (v : list R) : py (list R) :=
  match v with
  | [x] => setitem a m x
  | _ => raise ValueError
  end.

(** The body of the loop of [update_posterior] up to the marginalisation
    (lines 81-95): the log-likelihood [logsumexp(marginalize)] of the
    observation under hypothesis [i]. *)
Definition hypothesis_evidence (hypotheses : list hypothesis) (i : nat)
    (signal : ascii) (context : list R) : py R :=
  h <- getitem hypotheses i ;;
  let language := h_language h in
  let perspective := h_perspective h in
  let pragmatic_lvl := h_pragmatic_lvl h in
  ref_distribution <- calc_mental_state perspective context ;;
  marginalize <-
    (if Z.eqb pragmatic_lvl 0 then
       for_each meanings
         (fun m marginalize =>
            v <- list1_lit_spkr signal m language ref_distribution ;;
            setitem marginalize m v)
         (zeros (length meanings))
     else if Z.eqb pragmatic_lvl 1 then
       for_each meanings
         (fun m marginalize =>
            v <- list2_spkr1 signal m language ref_distribution ;;
            setitem_array marginalize m v)
         (zeros (length meanings))
     else ret (zeros (length meanings))) ;;
  ret (logsumexp marginalize).

(** [update_posterior] (level_prag_learn.py, lines 75-96). *)
Definition update_posterior (hypotheses : list hypothesis) (posterior : list R)
    (signal : ascii) (context : list R) : py (list R) :=
  new_posterior <-
    for_each (range (length posterior))
      (fun i new_posterior =>
         e <- hypothesis_evidence hypotheses i signal context ;;
         p <- getitem posterior i ;;
         setitem new_posterior i (p + e))
      (zeros (length posterior)) ;;
  ret (normalize_logprobs new_posterior).

(** ** Posterior update on the store

    The same function with its arrays as objects of a store, to account
    for what the call does to the objects the caller holds.  References
    are natural numbers; the store maps a reference to the array it holds. *)

Abbreviation heap := (gmap nat (list R)).

(** Computations that read and write the store and may raise. *)
Definition st (A : Type) : Type := heap -> (exn + A) * heap.

Definition st_ret {A : Type} (x : A) : st A := fun h => (inr x, h).

Definition st_bind {A B : Type} (m : st A) (k : A -> st B) : st B :=
  fun h =>
    match m h with
    | (inl e, h') => (inl e, h')
    | (inr x, h') => k x h'
    end.

Notation "x <~ m ;; k" := (st_bind m (fun x => k))
  (at level 100, m at next level, right associativity,
   format "'[v' x  <~  m  ;;  '/' k ']'").

(** A computation that does not touch the store. *)
Definition lift {A : Type} (m : py A) : st A := fun h => (m, h).

(** A new array object. *)
Definition alloc (v : list R) : st nat :=
  fun h => let l := fresh (dom h) in (inr l, <[l:=v]> h).

(** The array behind a reference.  A reference the program holds is always
    in the store; outside it the read is modelled as an empty array. *)
Definition deref (l : nat) : st (list R) :=
  fun h => (inr (default [] (h !! l)), h).

(** [len(a)], [a[i]] and [a[i] = x] through a reference. *)
Definition len_ref (l : nat) : st nat :=
  v <~ deref l ;; st_ret (length v).

Definition getitem_ref (l : nat) (i : nat) : st R :=
  v <~ deref l ;; lift (getitem v i).

Definition setitem_ref (l : nat) (i : nat) (x : R) : st unit :=
  v <~ deref l ;;
  v' <~ lift (setitem v i x) ;;
  fun h => (inr tt, <[l:=v']> h).

Fixpoint for_each_st {A : Type} (xs : list A) (body : A -> st unit) : st unit :=
  match xs with
  | [] => st_ret tt
  | x :: xs' => _ <~ body x ;; for_each_st xs' body
  end.

(** Modelled from the spec: [utilities.normalize_logprobs] on the store.
    The spec (4.1) has it return a sequence of log-probabilities; it is
    modelled as returning a new array and leaving its argument as it is. *)
Definition normalize_logprobs_ref (l : nat) : st nat :=
  v <~ deref l ;; alloc (normalize_logprobs v).

(** [update_posterior] (level_prag_learn.py, lines 75-96) on the store:
    [posterior] is the reference the caller passes, [new_posterior] the
    array the function allocates. *)
Definition update_body_heap (hypotheses : list hypothesis)
    (posterior new_posterior : nat) (signal : ascii) (context : list R)
    (i : nat) : st unit :=
  e <~ lift (hypothesis_evidence hypotheses i signal context) ;;
  p <~ getitem_ref posterior i ;;
  setitem_ref new_posterior i (p + e).

Definition update_posterior_heap (hypotheses : list hypothesis)
    (posterior : nat) (signal : ascii) (context : list R) : st nat :=
  n <~ len_ref posterior ;;
  new_posterior <~ alloc (zeros n) ;;
  _ <~ for_each_st (range n)
         (update_body_heap hypotheses posterior new_posterior signal context) ;;
  normalize_logprobs_ref new_posterior.

(** ** Production *)

(** The random draws of one call of [produce].  A draw is a natural number
    that the drawing function reduces modulo the number of alternatives; a
    uniform draw of the library is a uniform residue. *)
Record draws : Type := mk_draws {
  d_meaning : nat;   (* the draw of [sample(mental_state)] *)
  d_wta : nat;       (* the draw of [utilities.wta] among tied maxima *)
  d_pragmatic : nat; (* the draw of the pragmatic speaker's signal *)
  d_uniform : R;     (* the value of [random.random()] *)
  d_choice : nat     (* the draw of [np.random.choice(other_signals)] *)
}.

(** [np.random.choice(a)]: an entry of [a], [ValueError] on an empty
    array. *)
Definition np_random_choice {A : Type} (a : list A) (draw : nat) : py A :=
  match a with
  | [] => raise ValueError
  | _ => getitem a (draw mod length a)
  end.

(** [sample] (level_prag_learn.py, lines 13-15).  Every index has the
    positive probability [exp(posterior[i])], so every index can be
    drawn. *)
Definition sample (posterior : list R) (draw : nat) : py nat :=
  np_random_choice (range (length posterior)) draw.

(** [max] of two one-character strings. *)
Definition ascii_max (a b : ascii) : ascii :=
  if N.ltb (N_of_ascii a) (N_of_ascii b) then b else a.

(** Modelled from the spec: [utilities.wta], which is not among the
    sources.  The spec (4.6) has it pick the signal with the highest
    lexicon weight of the row; among tied maxima the draw decides. *)
Definition wta (items : list ascii) (draw : nat) : py nat :=
  match items with
  | [] => raise ValueError
  | x :: items' =>
      let maxweight := foldr ascii_max x items' in
      np_random_choice (np_where (Ascii.eqb maxweight) items) draw
  end.

(** The comprehension
    [[signals[s] for s in range(len(meanings)) if language[meaning][s] == '1']]. *)
Fixpoint signals_marked (language : lexicon) (meaning : nat) (ss : list nat)
  : py (list ascii) :=
  match ss with
  | [] => ret []
  | s :: ss' =>
      row <- getitem language meaning ;;
      c <- getitem row s ;;
      if Ascii.eqb c "1" then
        sig <- getitem signals s ;;
        rest <- signals_marked language meaning ss' ;;
        ret (sig :: rest)
      else signals_marked language meaning ss'
  end.

(** The loop that builds [other_signals] (lines 128-130): every iteration
    assigns the alphabet without the current signal [s]. *)
Definition other_signals_loop (signals_for_r : list ascii) : py (list ascii) :=
  for_each signals_for_r
    (fun s other_signals =>
       take_indices signals (np_where (fun x => negb (Ascii.eqb x s)) signals))
    signals.

(** [produce] (level_prag_learn.py, lines 111-141). *)
Definition produce (system : hypothesis) (context : list R) (d : draws)
  : py (ascii * list R) :=
  let language := h_language system in
  let perspective := h_perspective system in
  let pragmatic_lvl := h_pragmatic_lvl system in
  mental_state <- calc_mental_state perspective context ;;
  meaning <- sample mental_state (d_meaning d) ;;
  if Z.eqb pragmatic_lvl 0 then
    row <- getitem language meaning ;;
    w <- wta row (d_wta d) ;;
    signal <- getitem signals w ;;
    signals_for_r <- signals_marked language meaning (range (length meanings)) ;;
    let num_signals_for_r := length signals_for_r in
    if Rlt_dec (d_uniform d) noise then
      if negb (Nat.eqb num_signals_for_r 3) then
        other_signals <- other_signals_loop signals_for_r ;;
        signal <- np_random_choice other_signals (d_choice d) ;;
        ret (signal, context)
      else ret (signal, context)
    else ret (signal, context)
  else if Z.eqb pragmatic_lvl 1 then
    probs <- spkr1_production_probs meaning language mental_state ;;
    s <- np_random_choice (range (length signals)) (d_pragmatic d) ;;
    signal <- getitem signals s ;;
    if Rlt_dec (d_uniform d) noise then
      other_signals <-
        take_indices signals
          (np_where (fun x => negb (Ascii.eqb x signal)) signals) ;;
      signal <- np_random_choice other_signals (d_choice d) ;;
      ret (signal, context)
    else ret (signal, context)
  else raise UnboundLocalError.

(** ** Notions of the specification *)

(** A lexicon row is binary when its entries are ['0'] or ['1']. *)
Definition binary_row (row : list ascii) : Prop :=
  Forall (fun c => c = "0"%char \/ c = "1"%char) row.

(** A signal is usable for a meaning when the row of the meaning has a
    ['1'] in the column of the signal. *)
Definition usable (row : list ascii) (signal : ascii) : Prop :=
  exists s, signals !! s = Some signal /\ row !! s = Some "1"%char.

(** The number [k] of usable signals of a row. *)
Definition usable_count (row : list ascii) : nat :=
  count_occ ascii_dec row "1"%char.

(** Sum of a vector of reals. *)
Definition Rsum (v : list R) : R := foldr Rplus 0 v.

(** A lexicon of the model has one row per meaning and one column per
    signal. *)
Definition valid_lexicon (language : lexicon) : Prop :=
  length language = length meanings
  /\ Forall (fun row => length row = length signals) language.

(** A binary lexicon: a 3x3 matrix whose entries are ['0'] or ['1']. *)
Definition binary_lexicon (language : lexicon) : Prop :=
  valid_lexicon language /\ Forall binary_row language.

(** A hypothesis is well formed for a context when its lexicon is a 3x3
    matrix and every context entry is at distance less than 1 from its
    perspective (the domain of [calc_mental_state]). *)
Definition valid_hypothesis (context : list R) (h : hypothesis) : Prop :=
  valid_lexicon (h_language h)
  /\ Forall (fun c => Rabs (h_perspective h - c) < 1) context.

(** The number held by a one-element array. *)
Definition scalar (v : list R) : py R :=
  match v with
  | [x] => ret x
  | _ => raise ValueError
  end.

(** The listener log-probability by pragmatic level, in the words of the
    specification (4.7): the literal listener at level 0, the pragmatic
    listener at level 1. *)
Definition listener_logprob (pragmatic_lvl : Z) (signal : ascii) (meaning : nat)
    (language : lexicon) (ref_distribution : list R) : py R :=
  if Z.eqb pragmatic_lvl 0
  then list1_lit_spkr signal meaning language ref_distribution
  else v <- list2_spkr1 signal meaning language ref_distribution ;; scalar v.

(** The posterior update in the words of the specification (4.7): for
    every hypothesis the reference distribution, the listener
    log-probability of every meaning, their [logsumexp] added to
    [posterior[i]], and a final renormalisation. *)
Definition update_posterior_spec (hypotheses : list hypothesis)
    (posterior : list R) (signal : ascii) (context : list R) : py (list R) :=
  new_posterior <-
    map_py
      (fun i =>
         h <- getitem hypotheses i ;;
         ref_distribution <- calc_mental_state (h_perspective h) context ;;
         logprobs <-
           map_py
             (fun m =>
                listener_logprob (h_pragmatic_lvl h) signal m (h_language h)
                  ref_distribution)
             meanings ;;
         p <- getitem posterior i ;;
         ret (p + logsumexp logprobs))
      (range (length posterior)) ;;
  ret (normalize_logprobs new_posterior).

(** The log marginal likelihood of an observation under a hypothesis, in
    the words of the specification (4.7, 8): the [logsumexp] over the
    meanings of the listener log-probability, the listener being the one of
    the hypothesis's pragmatic level and the reference distribution the
    mental state of its perspective. *)
Definition log_marginal_likelihood (h : hypothesis) (signal : ascii)
    (context : list R) : py R :=
  ref_distribution <- calc_mental_state (h_perspective h) context ;;
  logprobs <-
    map_py
      (fun m =>
         listener_logprob (h_pragmatic_lvl h) signal m (h_language h)
           ref_distribution)
      meanings ;;
  ret (logsumexp logprobs).

(** The noisy production log-probability of the signal of index [s] in the
    words of the specification (4.5), every term read from the raw output
    [p] of [spkr1_production_probs]. *)
Definition noisy_spec (p : list R) (s : nat) : R :=
  logsumexp
    [ln (1 - noise) + nth s p 0;
     (ln noise
      + logsumexp
          (map (fun os => nth os p 0)
             (List.filter (fun os => negb (Nat.eqb os s)) (range (length p)))))
     - ln (INR (length signals) - 1)].

(** The behaviour of [produce] at pragmatic level 0 in the words of the
    specification (4.6): the winner-take-all signal [selected] is returned
    unless the noise draw fires on a row whose usable-signal count differs
    from the alphabet size, in which case the signal returned is another
    signal of the alphabet. *)
Definition produce_level0_claim (system : hypothesis) (context : list R)
    (d : draws) : Prop :=
  forall mental_state meaning row w selected out,
    calc_mental_state (h_perspective system) context = inr mental_state ->
    sample mental_state (d_meaning d) = inr meaning ->
    h_language system !! meaning = Some row ->
    wta row (d_wta d) = inr w ->
    signals !! w = Some selected ->
    produce system context d = inr (out, context) ->
    (usable_count row <> length signals /\ d_uniform d < noise ->
     In out signals /\ out <> selected)
    /\ (~ (usable_count row <> length signals /\ d_uniform d < noise) ->
        out = selected).

(** ** Closed forms

    The values the functions above return on well-formed inputs, written
    without the error monad.  They are the right-hand sides of the
    evaluation lemmas below. *)

(** The signals a lexicon row marks as usable (entry different from ['0']). *)
Definition signals_for (row : list ascii) : list ascii :=
  map fst (List.filter (fun p => negb (Ascii.eqb (snd p) "0")) (zip signals row)).

(** The logarithmic term the literal listener adds to
    [ref_distribution[meaning]]. *)
Definition lit_term (in_row : bool) (k : nat) : R :=
  if in_row then
    if Nat.eqb k (length signals) then ln (1 / INR k)
    else ln ((1 - noise) / INR k)
  else ln (noise / (INR (length signals) - INR k)).

(** Value of the literal listener. *)
Definition lit (language : lexicon) (ref_distribution : list R)
    (signal : ascii) (meaning : nat) : R :=
  nth meaning ref_distribution 0
  + lit_term (elem signal (signals_for (nth meaning language [])))
             (length (signals_for (nth meaning language []))).

(** Value of [list1_perception_matrix]. *)
Definition perception (language : lexicon) (ref_distribution : list R)
  : list (list R) :=
  map (fun sig =>
         normalize_logprobs (map (lit language ref_distribution sig) meanings))
      signals.

(** Value of [spkr1_production_probs]. *)
Definition production (meaning : nat) (language : lexicon)
    (mental_state : list R) : list R :=
  map ln
    (softmax
       (map (fun s =>
               alpha * nth meaning (nth s (perception language mental_state) []) 0)
            (range (length signals)))).

(** Value of one iteration of the noise loop: the array after the two
    in-place assignments to slot [s]. *)
Definition noise_step (s : nat) (v : list R) : list R :=
  let v1 := <[s := nth s v 0 + ln (1 - noise)]> v in
  let other_signals :=
    map (fun os => nth os v1 0)
      (List.filter (fun os => negb (Nat.eqb os s)) (range (length v1))) in
  <[s := logsumexp [nth s v1 0;
                    (ln noise + logsumexp other_signals)
                    - ln (INR (length signals) - 1)]]> v1.

(** Value of the whole noise loop. *)
Definition noisy (speaker_probs : list R) : list R :=
  fold_left (fun v s => noise_step s v) (range (length speaker_probs))
    speaker_probs.

(** Value of [calc_mental_state]. *)
Definition mental_state (perspective : R) (context : list R) : list R :=
  normalize_logprobs (map (fun c => ln (1 - Rabs (perspective - c))) context).

(** Value of [hypothesis_evidence] for the signal of index [s]. *)
Definition evidence_value (h : hypothesis) (s : nat) (signal : ascii)
    (context : list R) : R :=
  let ref := mental_state (h_perspective h) context in
  logsumexp
    (if Z.eqb (h_pragmatic_lvl h) 0 then
       map (lit (h_language h) ref signal) meanings
     else if Z.eqb (h_pragmatic_lvl h) 1 then
       map (fun m => nth m ref 0
                     + nth s (noisy (production m (h_language h) ref)) 0)
           meanings
     else zeros (length meanings)).

(** The entries of a given row that the comprehension of [produce] keeps. *)
Fixpoint marked_row (row : list ascii) (ss : list nat) : py (list ascii) :=
  match ss with
  | [] => ret []
  | s :: ss' =>
      c <- getitem row s ;;
      if Ascii.eqb c "1" then
        sig <- getitem signals s ;;
        rest <- marked_row row ss' ;;
        ret (sig :: rest)
      else marked_row row ss'
  end.

(** ** Example inputs *)

(** The lexicon in which meaning [i] is signalled by signal [i] only. *)
Definition identity_lexicon : lexicon :=
  [["1"; "0"; "0"]; ["0"; "1"; "0"]; ["0"; "0"; "1"]]%char.

(** A literal speaker whose first meaning has two usable signals. *)
Definition two_signal_speaker : hypothesis :=
  {| h_language := [["1"; "1"; "0"]; ["0"; "1"; "0"]; ["0"; "0"; "1"]]%char;
     h_perspective := 0;
     h_pragmatic_lvl := 0 |}.

(** A literal speaker with the identity lexicon. *)
Definition identity_speaker : hypothesis :=
  {| h_language := identity_lexicon;
     h_perspective := 0;
     h_pragmatic_lvl := 0 |}.

(** A pragmatic speaker with the identity lexicon. *)
Definition pragmatic_identity_speaker : hypothesis :=
  {| h_language := identity_lexicon;
     h_perspective := 1;
     h_pragmatic_lvl := 1 |}.

(** One of the contexts of the experiment. *)
Definition example_context : list R := [0.1; 0.2; 0.9].

(** Draws under which the noise fires and every choice takes the first
    alternative. *)
Definition noisy_draws : draws :=
  {| d_meaning := 0; d_wta := 0; d_pragmatic := 0; d_uniform := 0.01;
     d_choice := 0 |}.

(** A two-hypothesis population, one literal and one pragmatic, and a
    uniform prior over it. *)
Definition example_hypotheses : list hypothesis :=
  [identity_speaker; pragmatic_identity_speaker].

Definition example_prior : list R := [ln (1 / 2); ln (1 / 2)].

(** A store that holds the prior at reference 0. *)
Definition example_heap : heap := {[ 0%nat := example_prior ]}.

(** ** learn_pragmatics.py

    The earlier script: the hypotheses are language-perspective pairs
    without a pragmatic level, every hypothesis is updated with the
    pragmatic listener, arrays are Python lists grown with [append], and
    the lexicons are enumerated inline. *)

Module LearnPragmatics.

(** [format(i, 'b')] for a positive [i]: the binary digits, most
    significant first, in front of [acc]. *)
Fixpoint format_b_pos (p : positive) (acc : list ascii) : list ascii :=
  match p with
  | xH => "1"%char :: acc
  | xO p' => format_b_pos p' ("0"%char :: acc)
  | xI p' => format_b_pos p' ("1"%char :: acc)
  end.

(** [str(format(i, 'b'))]. *)
Definition format_b (i : nat) : list ascii :=
  match N.of_nat i with
  | N0 => ["0"%char]
  | Npos p => format_b_pos p []
  end.

(** [while len(string) < 9: string = '0' + string].  Every iteration
    adds one character, so nine iterations are enough for any string. *)
Fixpoint pad_loop (fuel : nat) (string : list ascii) : list ascii :=
  match fuel with
  | O => string
  | S fuel' =>
      if Nat.ltb (length string) 9 then pad_loop fuel' ("0"%char :: string)
      else string
  end.

(** The slices [string[-3:]] and [string[3:-3]]. *)
Definition last_three (string : list ascii) : list ascii :=
  drop (length string - 3) string.

Definition middle (string : list ascii) : list ascii :=
  take (length string - 3 - 3) (drop 3 string).

Definition string_eqb (s t : list ascii) : bool :=
  bool_decide (s = t).

(** The body of the loop over [i] (lines 29-38). *)
Definition languages_body (i : nat) (languages : list lexicon)
  : py (list lexicon) :=
  let string := format_b i in
  if Nat.leb 7 (length string) then
    let string := pad_loop 9 string in
    if negb (string_eqb (last_three string) ["0"; "0"; "0"]%char)
       && negb (string_eqb (middle string) ["0"; "0"; "0"]%char)
    then
      c0 <- getitem string 0 ;; c1 <- getitem string 1 ;;
      c2 <- getitem string 2 ;; c3 <- getitem string 3 ;;
      c4 <- getitem string 4 ;; c5 <- getitem string 5 ;;
      c6 <- getitem string 6 ;; c7 <- getitem string 7 ;;
      c8 <- getitem string 8 ;;
      ret (languages ++ [[[c0; c1; c2]; [c3; c4; c5]; [c6; c7; c8]]])
    else ret languages
  else ret languages.

(** [range(pow(2, 9), 0, -1)]. *)
Definition countdown : list nat := rev (seq 1 (2 ^ 9)).

(** The module-level loop that fills [languages] (lines 27-38). *)
Definition build_languages : py (list lexicon) :=
  for_each countdown languages_body [].

(** The list [languages] once the loop has run. *)
Definition languages : list lexicon :=
  Eval vm_compute in
    match build_languages with
    | inr l => l
    | inl _ => []
    end.

(** A valid lexicon of the specification: a 3x3 matrix of ['0'] and
    ['1'] with at least one ['1'] in every row. *)
Definition valid_row (row : list ascii) : Prop :=
  length row = 3%nat /\ binary_row row /\ In "1"%char row.

Definition valid_binary_lexicon (L : lexicon) : Prop :=
  length L = 3%nat /\ Forall valid_row L.

Definition valid_row_b (row : list ascii) : bool :=
  Nat.eqb (length row) 3
  && forallb (fun c => Ascii.eqb c "0" || Ascii.eqb c "1") row
  && existsb (Ascii.eqb "1") row.

Definition valid_binary_lexicon_b (L : lexicon) : bool :=
  Nat.eqb (length L) 3 && forallb valid_row_b L.

(** The row and the matrix that a choice of bits denotes. *)
Definition bit (b : bool) : ascii := if b then "1"%char else "0"%char.

Definition row_of (b0 b1 b2 : bool) : list ascii := [bit b0; bit b1; bit b2].

Definition num_signals : nat := 3.

(** [calc_mental_state] (learn_pragmatics.py, lines 60-64). *)
Definition calc_mental_state (perspective : R) (context : list R)
  : py (list R) :=
  distribution <-
    for_each context
      (fun o distribution =>
         w <- log (1 - Rabs (perspective - o)) ;;
         ret (distribution ++ [w]))
      [] ;;
  ret (normalize_logprobs distribution).

(** [list1_lit_spkr] (learn_pragmatics.py, lines 70-83): the usable
    signals are those whose entry is ['1']. *)
Definition list1_lit_spkr (signal : ascii) (meaning : nat) (language : lexicon)
    (ref_distribution : list R) : py R :=
  signals_for_r <- signals_marked language meaning (range (length meanings)) ;;
  let num_signals_for_r := length signals_for_r in
  if elem signal signals_for_r then
    in_language <-
      (if Nat.eqb num_signals_for_r num_signals
       then q <- div 1 (INR num_signals_for_r) ;; log q
       else q <- div (1 - noise) (INR num_signals_for_r) ;; log q) ;;
    r <- getitem ref_distribution meaning ;;
    ret (r + in_language)
  else
    q <- div noise (IZR (Z.of_nat num_signals - Z.of_nat num_signals_for_r)) ;;
    out_of_language <- log q ;;
    r <- getitem ref_distribution meaning ;;
    ret (r + out_of_language).

(** [list1_perception_matrix] (learn_pragmatics.py, lines 85-92). *)
Definition list1_perception_matrix (language : lexicon)
    (ref_distribution : list R) : py (list (list R)) :=
  for_each signals
    (fun s mat =>
       row <-
         for_each meanings
           (fun m row =>
              v <- list1_lit_spkr s m language ref_distribution ;;
              ret (row ++ [v]))
           [] ;;
       ret (mat ++ [normalize_logprobs row]))
    [].

(** [spkr1_production_probs] (learn_pragmatics.py, lines 132-138). *)
Definition spkr1_production_probs (meaning : nat) (language : lexicon)
    (mental_state : list R) : py (list R) :=
  signal_utility <-
    map_py
      (fun s =>
         mat <- list1_perception_matrix language mental_state ;;
         row <- getitem mat s ;;
         x <- getitem row meaning ;;
         ret (alpha * x))
      (range (length signals)) ;;
  map_py log (softmax signal_utility).

(** [signals.index(signal)]. *)
Definition index_of (signal : ascii) (l : list ascii) : py nat :=
  match np_where (Ascii.eqb signal) l with
  | i :: _ => ret i
  | [] => raise ValueError
  end.

(** [list2_spkr1] (learn_pragmatics.py, lines 96-108), with the same noise
    loop as in level_prag_learn.py. *)
Definition list2_spkr1 (signal : ascii) (meaning : nat) (language : lexicon)
    (ref_distribution : list R) : py R :=
  s_index <- index_of signal signals ;;
  speaker_probs <- spkr1_production_probs meaning language ref_distribution ;;
  noisy_speaker_probs <-
    for_each (range (length speaker_probs)) noise_iteration speaker_probs ;;
  r <- getitem ref_distribution meaning ;;
  x <- getitem noisy_speaker_probs s_index ;;
  ret (r + x).

(** [update_posterior] (learn_pragmatics.py, lines 113-127) over the list
    [lp_pairs] of language-perspective pairs. *)
Definition update_posterior (lp_pairs : list (lexicon * R))
    (posterior : list R) (signal : ascii) (context : list R) : py (list R) :=
  new_posterior <-
    for_each (range (length posterior))
      (fun i new_posterior =>
         pair <- getitem lp_pairs i ;;
         let language := fst pair in
         let perspective := snd pair in
         ref_distribution <- calc_mental_state perspective context ;;
         marginalize <-
           for_each meanings
             (fun meaning marginalize =>
                v <- list2_spkr1 signal meaning language ref_distribution ;;
                ret (marginalize ++ [v]))
             [] ;;
         p <- getitem posterior i ;;
         ret (new_posterior ++ [p + logsumexp marginalize]))
      [] ;;
  ret (normalize_logprobs new_posterior).

(** A language-perspective pair read as a hypothesis of pragmatic level 1. *)
Definition as_hypothesis (pair : lexicon * R) : hypothesis :=
  {| h_language := fst pair; h_perspective := snd pair; h_pragmatic_lvl := 1 |}.

(** The parameters [perspectives] and [p_learner]. *)
Definition perspectives : list Z := [0; 1]%Z.
Definition p_learner : Z := 1.

(** The body of the inner loop that fills [lp_pairs], [priors_unbiased]
    and [priors_egocentric] (lines 46-50), for a list [languages]. *)
Definition priors_body (languages : list lexicon) (p : Z) (l : lexicon)
    (st : list (lexicon * R) * list R * list R)
  : py (list (lexicon * R) * list R * list R) :=
  let '(lp_pairs, priors_unbiased, priors_egocentric) := st in
  a <- div 1 (INR (length perspectives)) ;;
  la <- log a ;;
  b <- div 1 (INR (length languages)) ;;
  lb <- log b ;;
  p_prior <- (if Z.eqb p p_learner then log 0.9 else log 0.1) ;;
  b' <- div 1 (INR (length languages)) ;;
  lb' <- log b' ;;
  ret (lp_pairs ++ [(l, IZR p)],
       priors_unbiased ++ [la + lb],
       priors_egocentric ++ [p_prior + lb']).

(** The module-level loops that build the language-perspective pairs and
    the two priors (lines 41-50). *)
Definition build_priors (languages : list lexicon)
  : py (list (lexicon * R) * list R * list R) :=
  for_each perspectives
    (fun p st => for_each languages (priors_body languages p) st)
    ([], [], []).

End LearnPragmatics.

(** ** Contexts and simulation *)

(** [contexts.append([c[i], c[j], c[k]])]. *)
Definition append_triple (c : list R) (i j k : nat) (contexts : list (list R))
  : py (list (list R)) :=
  x <- getitem c i ;;
  y <- getitem c j ;;
  z <- getitem c k ;;
  ret (contexts ++ [[x; y; z]]).

(** The two base contexts of the experiment. *)
Definition base_contexts : list (list R) := [[0.1; 0.2; 0.9]; [0.1; 0.8; 0.9]].

(** The loops that generate the contexts (level_prag_learn.py, lines
    173-181; learn_pragmatics.py, lines 194-202). *)
Definition build_contexts : py (list (list R)) :=
  for_each (range 25)
    (fun _ contexts =>
       for_each base_contexts
         (fun c contexts =>
            contexts <- append_triple c 0 1 2 contexts ;;
            contexts <- append_triple c 1 0 2 contexts ;;
            contexts <- append_triple c 1 2 0 contexts ;;
            contexts <- append_triple c 2 1 0 contexts ;;
            contexts <- append_triple c 2 0 1 contexts ;;
            append_triple c 0 2 1 contexts)
         contexts)
    [].

(** [np.swapaxes(np.array(rows), 0, 1)] for a list of vectors.  NumPy
    builds a matrix from rows of one length only. *)
Definition swapaxes (rows : list (list R)) : py (list (list R)) :=
  match rows with
  | [] => raise ValueError
  | r :: _ =>
      if forallb (fun row => Nat.eqb (length row) (length r)) rows
      then ret (map (fun j => map (fun row => nth j row 0) rows)
                  (range (length r)))
      else raise ValueError
  end.

(** [simulation] (level_prag_learn.py, lines 144-153).  [rand i] holds the
    random draws of the [i]-th production; [hypoth_index] is not used by
    this version of the function. *)
Definition simulation (hypotheses : list hypothesis) (speaker : hypothesis)
    (no_productions : nat) (priors : list R) (hypoth_index : nat)
    (contexts : list (list R)) (rand : nat -> draws) : py (list (list R)) :=
  let posteriors := priors in
  let posterior_list := [map exp posteriors] in
  st <-
    for_each (range no_productions)
      (fun i st =>
         c <- getitem contexts i ;;
         d <- produce speaker c (rand i) ;;
         posteriors <- update_posterior hypotheses (fst st) (fst d) (snd d) ;;
         ret (posteriors, snd st ++ [map exp posteriors]))
      (posteriors, posterior_list) ;;
  swapaxes (snd st).

(** The contexts that one round of the generation loop appends: the six
    orderings of each base context. *)
Definition context_block : list (list R) :=
  [[0.1; 0.2; 0.9]; [0.2; 0.1; 0.9]; [0.2; 0.9; 0.1];
   [0.9; 0.2; 0.1]; [0.9; 0.1; 0.2]; [0.1; 0.9; 0.2];
   [0.1; 0.8; 0.9]; [0.8; 0.1; 0.9]; [0.8; 0.9; 0.1];
   [0.9; 0.8; 0.1]; [0.9; 0.1; 0.8]; [0.1; 0.9; 0.8]].

(** A context the experiment can use: one entry per meaning, each at
    distance less than 1 from both perspectives. *)
Definition usable_context (c : list R) : Prop :=
  length c = length meanings
  /\ Forall (fun x => Rabs (0 - x) < 1) c
  /\ Forall (fun x => Rabs (1 - x) < 1) c.

(** The inputs of a simulation step: a context with one entry per meaning
    on which the speaker and every hypothesis are well formed. *)
Definition simulation_context (hypotheses : list hypothesis)
    (speaker : hypothesis) (c : list R) : Prop :=
  length c = length meanings
  /\ valid_hypothesis c speaker
  /\ Forall (valid_hypothesis c) hypotheses.

(** ** More example inputs *)

(** A reference distribution over the three meanings. *)
Definition example_ref : list R := [ln (1 / 2); ln (1 / 4); ln (1 / 4)].

(** The lexicon in which every signal is usable for every meaning, and a
    degenerate lexicon whose first meaning has no signal. *)
Definition full_lexicon : lexicon :=
  [["1"; "1"; "1"]; ["1"; "1"; "1"]; ["1"; "1"; "1"]]%char.

Definition degenerate_lexicon : lexicon :=
  [["0"; "0"; "0"]; ["0"; "1"; "0"]; ["0"; "0"; "1"]]%char.

(** A hypothesis whose pragmatic level is neither 0 nor 1. *)
Definition unknown_level_speaker : hypothesis :=
  {| h_language := identity_lexicon;
     h_perspective := 0;
     h_pragmatic_lvl := 2 |}.

(** A second context of the experiment, and a context outside the domain
    of the mental-state model for perspective 0. *)
Definition second_context : list R := [0.9; 0.1; 0.2].

Definition far_context : list R := [1.5; 0.2; 0.9].

(** A prior with one entry more than [example_hypotheses]. *)
Definition long_prior : list R := [ln (1 / 3); ln (1 / 3); ln (1 / 3)].

(** Two language-perspective pairs of learn_pragmatics.py. *)
Definition example_pairs : list (lexicon * R) :=
  [(identity_lexicon, 0); (identity_lexicon, 1)].

(** * Properties *)

(** ** The error monad and the loops *)

Lemma bind_ret {A B : Type} (x : A) (k : A -> py B) : bind (ret x) k = k x.
Proof. reflexivity. Qed.

Lemma bind_raise {A B : Type} (e : exn) (k : A -> py B) :
  bind (raise e) k = raise e.
Proof. reflexivity. Qed.

Lemma bind_assoc {A B C : Type} (m : py A) (k : A -> py B) (h : B -> py C) :
  bind (bind m k) h = bind m (fun x => bind (k x) h).
Proof. destruct m; reflexivity. Qed.

Lemma bind_ext {A B : Type} (m : py A) (k k' : A -> py B) :
  (forall x, k x = k' x) -> bind m k = bind m k'.
Proof. intros H; destruct m; simpl; auto. Qed.

Lemma bind_ret_r {A : Type} (m : py A) : bind m ret = m.
Proof. destruct m; reflexivity. Qed.

Lemma map_py_ext {A B : Type} (f g : A -> py B) (xs : list A) :
  (forall x, In x xs -> f x = g x) -> map_py f xs = map_py g xs.
Proof.
  induction xs as [|x xs IH]; intros H; simpl; [reflexivity|].
  rewrite (H x) by (left; reflexivity).
  rewrite IH; [reflexivity|].
  intros y Hy; apply H; right; exact Hy.
Qed.

Lemma map_py_pure {A B : Type} (f : A -> py B) (g : A -> B) (xs : list A) :
  (forall x, In x xs -> f x = ret (g x)) -> map_py f xs = ret (map g xs).
Proof.
  induction xs as [|x xs IH]; intros H; simpl; [reflexivity|].
  rewrite (H x) by (left; reflexivity).
  rewrite IH; [reflexivity|].
  intros y Hy; apply H; right; exact Hy.
Qed.

Lemma map_py_length {A B : Type} (f : A -> py B) (xs : list A) (ys : list B) :
  map_py f xs = inr ys -> length ys = length xs.
Proof.
  revert ys; induction xs as [|x xs IH]; intros ys; simpl.
  - intros [= <-]; reflexivity.
  - destruct (f x) as [e|y]; simpl; [discriminate|].
    destruct (map_py f xs) as [e|ys']; simpl; [discriminate|].
    intros [= <-]; simpl; f_equal; apply IH; reflexivity.
Qed.

(** Filling a pre-allocated array slot by slot is a comprehension: the
    pattern [a = np.zeros(n); for i in range(n): a[i] = f(i)]. *)
Lemma fill_loop_from {B : Type} (f : nat -> py B) (m k : nat) (acc : list B) :
  length acc = (k + m)%nat ->
  for_each (seq k m) (fun i a => v <- f i ;; setitem a i v) acc
  = (vs <- map_py f (seq k m) ;; ret (take k acc ++ vs)).
Proof.
  revert k acc; induction m as [|m IH]; intros k acc Hlen; simpl.
  - rewrite Nat.add_0_r in Hlen.
    rewrite firstn_all2 by lia. rewrite app_nil_r. reflexivity.
  - destruct (f k) as [e|v]; simpl; [reflexivity|].
    unfold setitem. destruct (decide (k < length acc)%nat) as [Hk|Hk]; [|lia].
    simpl. rewrite IH by (rewrite length_insert; lia).
    destruct (map_py f (seq (S k) m)) as [e|vs]; simpl; [reflexivity|].
    unfold ret; f_equal.
    rewrite (take_S_r (<[k:=v]> acc) k v)
      by (apply list_lookup_insert_eq; exact Hk).
    rewrite take_insert_ge by lia.
    rewrite <- app_assoc. reflexivity.
Qed.

Lemma fill_loop {B : Type} (f : nat -> py B) (n : nat) (init : list B) :
  length init = n ->
  for_each (range n) (fun i a => v <- f i ;; setitem a i v) init
  = map_py f (range n).
Proof.
  intros Hlen. unfold range. rewrite fill_loop_from by exact Hlen.
  simpl. apply bind_ret_r.
Qed.

(** Reading a list through its indices is reading the list. *)
Lemma map_py_getitem_from {A B : Type} (g : A -> py B) (pre l : list A) :
  map_py (fun o => c <- getitem (pre ++ l) o ;; g c) (seq (length pre) (length l))
  = map_py g l.
Proof.
  revert pre; induction l as [|x l IH]; intros pre; simpl; [reflexivity|].
  unfold getitem at 1.
  rewrite lookup_app_r by lia. rewrite Nat.sub_diag. simpl.
  destruct (g x) as [e|y]; simpl; [reflexivity|].
  specialize (IH (pre ++ [x])).
  rewrite <- app_assoc in IH. simpl in IH.
  rewrite length_app in IH. simpl in IH.
  replace (length pre + 1)%nat with (S (length pre)) in IH by lia.
  rewrite IH. reflexivity.
Qed.

Lemma map_py_getitem {A B : Type} (g : A -> py B) (l : list A) :
  map_py (fun o => c <- getitem l o ;; g c) (range (length l)) = map_py g l.
Proof. exact (map_py_getitem_from g [] l). Qed.

Lemma length_zeros (n : nat) : length (zeros n) = n.
Proof. apply length_replicate. Qed.

(** ** Real-number facts about [sum_exp], [logsumexp], [normalize_logprobs] *)

Lemma sum_exp_nonneg (v : list R) : 0 <= sum_exp v.
Proof.
  induction v as [|x v IH]; simpl; [lra|].
  pose proof (exp_pos x). lra.
Qed.

Lemma sum_exp_pos (v : list R) : v <> [] -> 0 < sum_exp v.
Proof.
  destruct v as [|x v]; [congruence|]. intros _. simpl.
  pose proof (exp_pos x). pose proof (sum_exp_nonneg v). lra.
Qed.

Lemma exp_logsumexp (v : list R) : v <> [] -> exp (logsumexp v) = sum_exp v.
Proof. intros H. unfold logsumexp. apply exp_ln, sum_exp_pos, H. Qed.

Lemma sum_exp_shift (c : R) (v : list R) :
  sum_exp (map (fun x => x - c) v) = sum_exp v / exp c.
Proof.
  induction v as [|x v IH]; simpl.
  - unfold Rdiv. lra.
  - rewrite IH. unfold Rminus. rewrite exp_plus, exp_Ropp.
    pose proof (exp_pos c). field. lra.
Qed.

(** A normalised vector holds a probability distribution. *)
Lemma normalize_logprobs_sum (v : list R) :
  v <> [] -> sum_exp (normalize_logprobs v) = 1.
Proof.
  intros H. unfold normalize_logprobs.
  rewrite sum_exp_shift, exp_logsumexp by exact H.
  pose proof (sum_exp_pos v H). field. lra.
Qed.

Lemma normalize_logprobs_length (v : list R) :
  length (normalize_logprobs v) = length v.
Proof. unfold normalize_logprobs. apply length_map. Qed.

(** ** Mental state *)

Lemma for_each_ext {A S : Type} (xs : list A) (body body' : A -> S -> py S)
    (s : S) :
  (forall x s', body x s' = body' x s') ->
  for_each xs body s = for_each xs body' s.
Proof.
  intros H. revert s; induction xs as [|x xs IH]; intros s; simpl;
    [reflexivity|].
  rewrite H. apply bind_ext. exact IH.
Qed.

Lemma calc_mental_state_unfold (perspective : R) (context : list R) :
  calc_mental_state perspective context
  = (distribution <-
       map_py (fun c => log (1 - Rabs (perspective - c))) context ;;
     ret (normalize_logprobs distribution)).
Proof.
  unfold calc_mental_state.
  rewrite (for_each_ext _ _
             (fun o a =>
                v <- (c <- getitem context o ;;
                      log (1 - Rabs (perspective - c))) ;;
                setitem a o v))
    by (intros; rewrite bind_assoc; reflexivity).
  rewrite fill_loop by apply length_zeros.
  rewrite map_py_getitem. reflexivity.
Qed.

Lemma log_pos (x : R) : 0 < x -> log x = ret (ln x).
Proof. intros H. unfold log. destruct (Rlt_dec 0 x); [reflexivity|lra]. Qed.

Lemma log_nonpos (x : R) : x <= 0 -> log x = raise ValueError.
Proof. intros H. unfold log. destruct (Rlt_dec 0 x); [lra|reflexivity]. Qed.

Lemma map_py_log_ok (perspective : R) (context : list R) :
  Forall (fun c => Rabs (perspective - c) < 1) context ->
  map_py (fun c => log (1 - Rabs (perspective - c))) context
  = ret (map (fun c => ln (1 - Rabs (perspective - c))) context).
Proof.
  intros H. apply map_py_pure. intros c Hc.
  rewrite Forall_forall in H. apply log_pos.
  specialize (H c). rewrite <- list_elem_of_In in Hc. specialize (H Hc). lra.
Qed.

Lemma map_py_log_fail (perspective : R) (context : list R) :
  Exists (fun c => Rabs (perspective - c) >= 1) context ->
  map_py (fun c => log (1 - Rabs (perspective - c))) context
  = raise ValueError.
Proof.
  induction 1 as [c l Hc|c l _ IH]; simpl.
  - rewrite log_nonpos by lra. reflexivity.
  - unfold log at 1. destruct (Rlt_dec 0 (1 - Rabs (perspective - c)));
      [|reflexivity].
    simpl. rewrite IH. reflexivity.
Qed.

Lemma context_valid_or_not (perspective : R) (context : list R) :
  Forall (fun c => Rabs (perspective - c) < 1) context
  \/ Exists (fun c => Rabs (perspective - c) >= 1) context.
Proof.
  induction context as [|c l [IH|IH]].
  - left; constructor.
  - destruct (Rlt_dec (Rabs (perspective - c)) 1) as [Hc|Hc].
    + left; constructor; assumption.
    + right; apply Exists_cons_hd. lra.
  - right; apply Exists_cons_tl; exact IH.
Qed.

Lemma calc_mental_state_ok (perspective : R) (context : list R) :
  Forall (fun c => Rabs (perspective - c) < 1) context ->
  calc_mental_state perspective context
  = ret (normalize_logprobs
           (map (fun c => ln (1 - Rabs (perspective - c))) context)).
Proof.
  intros H. rewrite calc_mental_state_unfold, map_py_log_ok by exact H.
  reflexivity.
Qed.

Lemma calc_mental_state_fail (perspective : R) (context : list R) :
  Exists (fun c => Rabs (perspective - c) >= 1) context ->
  calc_mental_state perspective context = raise ValueError.
Proof.
  intros H. rewrite calc_mental_state_unfold, map_py_log_fail by exact H.
  reflexivity.
Qed.

(** C6. [calc_mental_state] raises (a [ValueError], from [math.log]) exactly
    when some context entry is at distance at least 1 from the perspective;
    when every entry is at distance less than 1 it returns the normalised
    vector of the weights [log(1 - |perspective - c_m|)], whose exponentials
    sum to 1 for a context that is not empty. *)
Theorem calc_mental_state_domain (perspective : R) (context : list R) :
  ((exists e, calc_mental_state perspective context = inl e)
   <-> Exists (fun c => Rabs (perspective - c) >= 1) context)
  /\ (forall e, calc_mental_state perspective context = inl e -> e = ValueError)
  /\ (Forall (fun c => Rabs (perspective - c) < 1) context ->
      exists distribution,
        calc_mental_state perspective context = inr distribution
        /\ distribution
           = normalize_logprobs
               (map (fun c => ln (1 - Rabs (perspective - c))) context)
        /\ (context <> [] -> sum_exp distribution = 1)).
Proof.
  split; [split|split].
  - intros [e He].
    destruct (context_valid_or_not perspective context) as [Hv|Hv];
      [|exact Hv].
    rewrite calc_mental_state_ok in He by exact Hv. discriminate.
  - intros H. exists ValueError. apply calc_mental_state_fail, H.
  - intros e He.
    destruct (context_valid_or_not perspective context) as [Hv|Hv].
    + rewrite calc_mental_state_ok in He by exact Hv. discriminate.
    + rewrite calc_mental_state_fail in He by exact Hv.
      injection He as <-. reflexivity.
  - intros Hv. eexists. split; [apply calc_mental_state_ok, Hv|].
    split; [reflexivity|].
    intros Hne. apply normalize_logprobs_sum.
    destruct context; [congruence|discriminate].
Qed.

Lemma div_ok (x y : R) : y <> 0 -> div x y = ret (x / y).
Proof. intros H. unfold div. destruct (Req_dec_T y 0); [contradiction|reflexivity]. Qed.

Lemma getitem_Some {A : Type} (l : list A) (i : nat) (x : A) :
  l !! i = Some x -> getitem l i = ret x.
Proof. intros H. unfold getitem. rewrite H. reflexivity. Qed.

(** ** Literal listener *)

Ltac real_side := unfold noise; simpl; lra.

Ltac norm_Z :=
  repeat match goal with
    | |- context [IZR (?a - ?b)%Z] =>
        let z := eval vm_compute in (a - b)%Z in
        change (a - b)%Z with z
    end.

Ltac py_eval :=
  repeat first
    [ rewrite bind_ret
    | rewrite div_ok by real_side
    | rewrite log_pos by real_side ].

(** On a row of three entries and a signal of the alphabet the literal
    listener returns, whatever the entries are. *)
Lemma list1_lit_spkr_value (signal : ascii) (meaning : nat) (language : lexicon)
    (ref_distribution : list R) (row : list ascii) (r : R) :
  language !! meaning = Some row ->
  length row = 3%nat ->
  ref_distribution !! meaning = Some r ->
  In signal signals ->
  list1_lit_spkr signal meaning language ref_distribution
  = ret (r + lit_term (elem signal (signals_for row))
                      (length (signals_for row))).
Proof.
  intros Hrow Hlen Hr Hs.
  destruct row as [|c0 [|c1 [|c2 [|]]]]; try discriminate.
  unfold list1_lit_spkr.
  rewrite (getitem_Some _ _ _ Hrow), (getitem_Some _ _ _ Hr), bind_ret.
  unfold take_indices, np_where, signals_for, lit_term.
  destruct Hs as [<-|[<-|[<-|[]]]];
    destruct (Ascii.eqb c0 "0") eqn:E0, (Ascii.eqb c1 "0") eqn:E1,
             (Ascii.eqb c2 "0") eqn:E2;
    simpl; rewrite ?E0, ?E1, ?E2; simpl;
    norm_Z; py_eval; unfold ret; do 2 f_equal; f_equal; real_side.
Qed.

Lemma binary_row3 (row : list ascii) :
  binary_row row -> length row = 3%nat ->
  exists b0 b1 b2 : bool,
    row = [if b0 then "1" else "0"; if b1 then "1" else "0";
           if b2 then "1" else "0"]%char.
Proof.
  intros Hb Hlen.
  destruct row as [|c0 [|c1 [|c2 [|]]]]; try discriminate.
  inversion_clear Hb as [|? ? H0 Hb']. inversion_clear Hb' as [|? ? H1 Hb''].
  inversion_clear Hb'' as [|? ? H2 _].
  exists (if ascii_dec c0 "1" then true else false),
         (if ascii_dec c1 "1" then true else false),
         (if ascii_dec c2 "1" then true else false).
  destruct H0 as [-> | ->], H1 as [-> | ->], H2 as [-> | ->]; reflexivity.
Qed.

(** On binary rows the specification's "usable" and [k] are what the code
    computes from [signals_for_r]. *)
Lemma usable_elem (row : list ascii) (signal : ascii) :
  binary_row row -> length row = 3%nat ->
  (usable row signal <-> elem signal (signals_for row) = true).
Proof.
  intros Hb Hlen.
  destruct (binary_row3 row Hb Hlen) as (b0 & b1 & b2 & ->).
  unfold usable, signals_for, elem. split.
  - intros (s & Hs & Hr).
    destruct s as [|[|[|s]]]; simpl in Hs, Hr; try discriminate;
      injection Hs as <-;
      destruct b0, b1, b2; try discriminate; reflexivity.
  - intros H.
    destruct b0, b1, b2; simpl in H;
      repeat match type of H with
        | (?x || ?y)%bool = true =>
            apply orb_true_iff in H; destruct H as [H|H]
        | (Ascii.eqb _ _) = true => apply Ascii.eqb_eq in H; subst signal
        | false = true => discriminate H
        end;
      first [ exists 0%nat; split; reflexivity
            | exists 1%nat; split; reflexivity
            | exists 2%nat; split; reflexivity ].
Qed.

Lemma usable_count_length (row : list ascii) :
  binary_row row -> length row = 3%nat ->
  usable_count row = length (signals_for row).
Proof.
  intros Hb Hlen.
  destruct (binary_row3 row Hb Hlen) as (b0 & b1 & b2 & ->).
  destruct b0, b1, b2; reflexivity.
Qed.

(** C3. On a binary row of three entries (zero or not), a signal of the
    alphabet and a reference distribution defined at the meaning, the
    literal listener returns [ref_distribution[meaning]] plus
    [log((1-noise)/k)] for a usable signal when [k] is less than the
    alphabet size, plus [log(1/k)] for a usable signal when [k] is the
    alphabet size, and plus [log(noise/(num_signals - k))] for a signal that
    is not usable. *)
Theorem list1_lit_spkr_cases (signal : ascii) (meaning : nat)
    (language : lexicon) (ref_distribution : list R) (row : list ascii)
    (r : R) :
  language !! meaning = Some row ->
  length row = length signals ->
  binary_row row ->
  ref_distribution !! meaning = Some r ->
  In signal signals ->
  let k := usable_count row in
  let num_signals := length signals in
  (usable row signal -> (k < num_signals)%nat ->
   list1_lit_spkr signal meaning language ref_distribution
   = inr (r + ln ((1 - noise) / INR k)))
  /\ (usable row signal -> k = num_signals ->
      list1_lit_spkr signal meaning language ref_distribution
      = inr (r + ln (1 / INR k)))
  /\ (~ usable row signal ->
      list1_lit_spkr signal meaning language ref_distribution
      = inr (r + ln (noise / (INR num_signals - INR k)))).
Proof.
  intros Hrow Hlen Hb Hr Hs k num_signals.
  change (length signals) with 3%nat in Hlen.
  pose proof (list1_lit_spkr_value signal meaning language ref_distribution
                row r Hrow Hlen Hr Hs) as Hv.
  pose proof (usable_elem row signal Hb Hlen) as Hu.
  pose proof (usable_count_length row Hb Hlen) as Hk.
  fold k in Hk. rewrite <- Hk in Hv. unfold lit_term in Hv.
  fold num_signals in Hv.
  repeat split.
  - intros U Hlt. apply Hu in U. rewrite U in Hv.
    destruct (Nat.eqb_spec k num_signals) as [E|E]; [lia|exact Hv].
  - intros U Heq. apply Hu in U. rewrite U in Hv.
    destruct (Nat.eqb_spec k num_signals) as [E|E]; [exact Hv|lia].
  - intros U.
    destruct (elem signal (signals_for row)) eqn:E.
    + exfalso. apply U, Hu. reflexivity.
    + exact Hv.
Qed.

Lemma exp_shift_ln (r x : R) : 0 < x -> exp (r + ln x - r) = x.
Proof.
  intros H. replace (r + ln x - r) with (ln x) by ring. apply exp_ln, H.
Qed.

(** C8. For a binary row of three entries with at least one usable signal,
    the literal listener returns for every signal of the alphabet, and the
    exponentials of its values, once [ref_distribution[meaning]] is
    subtracted, sum to 1 over the alphabet. *)
Theorem list1_lit_spkr_mass (meaning : nat) (language : lexicon)
    (ref_distribution : list R) (row : list ascii) (r : R) :
  language !! meaning = Some row ->
  length row = length signals ->
  binary_row row ->
  (exists s, usable row s) ->
  ref_distribution !! meaning = Some r ->
  exists vs,
    map_py (fun s => list1_lit_spkr s meaning language ref_distribution)
      signals = inr vs
    /\ Rsum (map (fun v => exp (v - r)) vs) = 1.
Proof.
  intros Hrow Hlen Hb [s0 Hu] Hr.
  change (length signals) with 3%nat in Hlen.
  eexists. split.
  - apply map_py_pure. intros s Hs.
    apply (list1_lit_spkr_value s meaning language ref_distribution row r);
      assumption.
  - apply (usable_elem row s0 Hb Hlen) in Hu.
    destruct (binary_row3 row Hb Hlen) as (b0 & b1 & b2 & ->).
    unfold lit_term, Rsum.
    destruct b0, b1, b2; simpl in Hu |- *; try discriminate Hu;
      rewrite !exp_shift_ln by real_side; real_side.
Qed.

(** ** Perception matrix and pragmatic speaker *)

Lemma lookup_nth {A : Type} (l : list A) (i : nat) (d : A) :
  (i < length l)%nat -> l !! i = Some (nth i l d).
Proof.
  intros H. destruct (l !! i) as [x|] eqn:E.
  - rewrite (nth_lookup_Some l i d x E). reflexivity.
  - apply lookup_ge_None in E. lia.
Qed.

Lemma valid_lexicon_row (language : lexicon) (m : nat) :
  valid_lexicon language -> (m < 3)%nat ->
  language !! m = Some (nth m language []) /\ length (nth m language []) = 3%nat.
Proof.
  intros [Hlen Hrows] Hm. change (length meanings) with 3%nat in Hlen.
  assert (Hl : language !! m = Some (nth m language [])).
  { apply lookup_nth. lia. }
  split; [exact Hl|].
  rewrite Forall_forall in Hrows. apply Hrows.
  apply list_elem_of_lookup. eauto.
Qed.

Lemma list1_lit_spkr_lit (signal : ascii) (meaning : nat) (language : lexicon)
    (ref_distribution : list R) :
  valid_lexicon language -> length ref_distribution = 3%nat ->
  (meaning < 3)%nat -> In signal signals ->
  list1_lit_spkr signal meaning language ref_distribution
  = ret (lit language ref_distribution signal meaning).
Proof.
  intros HL Href Hm Hs.
  destruct (valid_lexicon_row language meaning HL Hm) as [Hrow Hlen].
  apply (list1_lit_spkr_value signal meaning language ref_distribution
           (nth meaning language [])); try assumption.
  apply lookup_nth. lia.
Qed.

Lemma in_range (n i : nat) : In i (range n) <-> (i < n)%nat.
Proof. unfold range. rewrite in_seq. lia. Qed.

(** A loop whose body fills slot [s] with a computed row. *)
Lemma perception_row (language : lexicon) (ref_distribution : list R)
    (s : nat) (sig : ascii) :
  valid_lexicon language -> length ref_distribution = 3%nat ->
  signals !! s = Some sig ->
  for_each meanings
    (fun m row =>
       sig <- getitem signals s ;;
       v <- list1_lit_spkr sig m language ref_distribution ;;
       setitem row m v)
    (zeros (length meanings))
  = ret (map (lit language ref_distribution sig) meanings).
Proof.
  intros HL Href Hsig.
  rewrite (for_each_ext _ _
             (fun m row =>
                v <- (sig <- getitem signals s ;;
                      list1_lit_spkr sig m language ref_distribution) ;;
                setitem row m v))
    by (intros; rewrite bind_assoc; reflexivity).
  change meanings with (range 3) at 1.
  rewrite fill_loop by apply length_zeros.
  change (range 3) with meanings.
  apply map_py_pure. intros m Hm.
  rewrite (getitem_Some _ _ _ Hsig), bind_ret.
  apply list1_lit_spkr_lit; try assumption.
  - change meanings with (range 3) in Hm. apply in_range in Hm. exact Hm.
  - rewrite <- list_elem_of_In. apply list_elem_of_lookup. eauto.
Qed.

Lemma list1_perception_matrix_value (language : lexicon)
    (ref_distribution : list R) :
  valid_lexicon language -> length ref_distribution = 3%nat ->
  list1_perception_matrix language ref_distribution
  = ret (perception language ref_distribution).
Proof.
  intros HL Href. unfold list1_perception_matrix.
  change (length signals) with 3%nat. unfold range.
  cbn [for_each seq].
  rewrite !(perception_row language ref_distribution _ _ HL Href)
    by reflexivity.
  reflexivity.
Qed.

Lemma perception_length (language : lexicon) (ref_distribution : list R) :
  length (perception language ref_distribution) = 3%nat.
Proof. reflexivity. Qed.

Lemma perception_row_length (language : lexicon) (ref_distribution : list R)
    (s : nat) :
  (s < 3)%nat ->
  length (nth s (perception language ref_distribution) []) = 3%nat.
Proof.
  intros Hs. destruct s as [|[|[|s]]]; [reflexivity..|lia].
Qed.

Lemma spkr1_production_probs_value (meaning : nat) (language : lexicon)
    (mental_state : list R) :
  valid_lexicon language -> length mental_state = 3%nat ->
  (meaning < 3)%nat ->
  spkr1_production_probs meaning language mental_state
  = ret (production meaning language mental_state).
Proof.
  intros HL Href Hm. unfold spkr1_production_probs, production.
  rewrite (map_py_pure _
             (fun s => alpha * nth meaning
                                 (nth s (perception language mental_state) []) 0)).
  - reflexivity.
  - intros s Hs. apply in_range in Hs. change (length signals) with 3%nat in Hs.
    rewrite list1_perception_matrix_value by assumption. rewrite bind_ret.
    rewrite (getitem_Some _ _ (nth s (perception language mental_state) []))
      by (apply lookup_nth; rewrite perception_length; exact Hs).
    rewrite bind_ret.
    rewrite (getitem_Some _ _
               (nth meaning (nth s (perception language mental_state) []) 0))
      by (apply lookup_nth; rewrite perception_row_length by exact Hs;
          exact Hm).
    reflexivity.
Qed.

Lemma production_length (meaning : nat) (language : lexicon)
    (mental_state : list R) :
  length (production meaning language mental_state) = 3%nat.
Proof. reflexivity. Qed.

(** ** Pragmatic listener *)

Lemma setitem_ok {A : Type} (l : list A) (i : nat) (x : A) :
  (i < length l)%nat -> setitem l i x = ret (<[i:=x]> l).
Proof.
  intros H. unfold setitem. destruct (decide (i < length l)%nat); [reflexivity|lia].
Qed.

Lemma noise_step_length (s : nat) (v : list R) :
  length (noise_step s v) = length v.
Proof. unfold noise_step. rewrite !length_insert. reflexivity. Qed.

Lemma noise_iteration_value (s : nat) (v : list R) :
  (s < length v)%nat -> noise_iteration s v = ret (noise_step s v).
Proof.
  intros Hs. unfold noise_iteration, noise_step.
  rewrite (getitem_Some _ _ (nth s v 0)) by (apply lookup_nth; exact Hs).
  rewrite bind_ret, log_pos by real_side. rewrite bind_ret.
  rewrite setitem_ok by exact Hs. rewrite bind_ret.
  set (v1 := <[s:=nth s v 0 + ln (1 - noise)]> v).
  assert (Hlen1 : length v1 = length v) by apply length_insert.
  rewrite (map_py_pure _ (fun os => nth os v1 0)).
  2:{ intros os Hos. apply getitem_Some, lookup_nth.
      apply filter_In in Hos. destruct Hos as [Hos _].
      apply in_range in Hos. exact Hos. }
  rewrite bind_ret.
  rewrite (getitem_Some _ _ (nth s v1 0)) by (apply lookup_nth; lia).
  rewrite bind_ret, log_pos by real_side. rewrite bind_ret.
  rewrite log_pos by real_side. rewrite bind_ret.
  apply setitem_ok. lia.
Qed.

Lemma noise_loop_value_from (xs : list nat) (v : list R) :
  Forall (fun s => (s < length v)%nat) xs ->
  for_each xs noise_iteration v
  = ret (fold_left (fun v s => noise_step s v) xs v).
Proof.
  revert v; induction xs as [|s xs IH]; intros v H; simpl; [reflexivity|].
  inversion_clear H as [|? ? Hs Hxs].
  rewrite noise_iteration_value by exact Hs. rewrite bind_ret.
  apply IH. rewrite noise_step_length. exact Hxs.
Qed.

Lemma noise_loop_value (v : list R) :
  for_each (range (length v)) noise_iteration v = ret (noisy v).
Proof.
  apply noise_loop_value_from. rewrite Forall_forall. intros s Hs.
  rewrite list_elem_of_In in Hs. apply in_range in Hs. exact Hs.
Qed.

Lemma fold_noise_step_length (xs : list nat) (v : list R) :
  length (fold_left (fun v s => noise_step s v) xs v) = length v.
Proof.
  revert v; induction xs as [|s xs IH]; intros v; simpl; [reflexivity|].
  rewrite IH. apply noise_step_length.
Qed.

Lemma noisy_length (v : list R) : length (noisy v) = length v.
Proof. apply fold_noise_step_length. Qed.

(** The pragmatic listener returns a one-element array for a signal of the
    alphabet: the entry of the noisy array at the index of the signal, plus
    [ref_distribution[meaning]]. *)
Lemma list2_spkr1_value (s : nat) (signal : ascii) (meaning : nat)
    (language : lexicon) (ref_distribution : list R) :
  valid_lexicon language -> length ref_distribution = 3%nat ->
  (meaning < 3)%nat -> signals !! s = Some signal ->
  list2_spkr1 signal meaning language ref_distribution
  = ret [nth meaning ref_distribution 0
         + nth s (noisy (production meaning language ref_distribution)) 0].
Proof.
  intros HL Href Hm Hs. unfold list2_spkr1.
  rewrite spkr1_production_probs_value by assumption. rewrite bind_ret.
  rewrite noise_loop_value, bind_ret.
  rewrite (getitem_Some _ _ (nth meaning ref_distribution 0))
    by (apply lookup_nth; lia).
  rewrite bind_ret.
  set (nv := noisy (production meaning language ref_distribution)).
  assert (Hnv : length nv = 3%nat)
    by (unfold nv; rewrite noisy_length; apply production_length).
  unfold take_indices, np_where.
  destruct s as [|[|[|s]]]; simpl in Hs; try discriminate;
    injection Hs as <-;
    match goal with
    | |- context [np_where_from ?f 0%nat signals] =>
        let idx := eval vm_compute in (np_where_from f 0%nat signals) in
        change (np_where_from f 0%nat signals) with idx
    end;
    cbn [map_py];
    (rewrite (getitem_Some _ _ (nth _ nv 0)) by (apply lookup_nth; lia));
    reflexivity.
Qed.

(** ** Posterior update *)

Lemma marginalize_loop_level0 (signal : ascii) (language : lexicon)
    (ref_distribution : list R) :
  for_each meanings
    (fun m marginalize =>
       v <- list1_lit_spkr signal m language ref_distribution ;;
       setitem marginalize m v)
    (zeros (length meanings))
  = map_py (fun m => list1_lit_spkr signal m language ref_distribution)
      meanings.
Proof.
  change meanings with (range 3) at 1.
  rewrite fill_loop by apply length_zeros. reflexivity.
Qed.

Lemma setitem_array_scalar (a : list R) (m : nat) (c : py (list R)) :
  (v <- c ;; setitem_array a m v)
  = (x <- (v <- c ;; scalar v) ;; setitem a m x).
Proof.
  destruct c as [e|v]; [reflexivity|].
  destruct v as [|x [|y v]]; reflexivity.
Qed.

Lemma marginalize_loop_level1 (signal : ascii) (language : lexicon)
    (ref_distribution : list R) :
  for_each meanings
    (fun m marginalize =>
       v <- list2_spkr1 signal m language ref_distribution ;;
       setitem_array marginalize m v)
    (zeros (length meanings))
  = map_py
      (fun m =>
         v <- list2_spkr1 signal m language ref_distribution ;; scalar v)
      meanings.
Proof.
  rewrite (for_each_ext _ _
             (fun m a =>
                x <- (v <- list2_spkr1 signal m language ref_distribution ;;
                      scalar v) ;;
                setitem a m x))
    by (intros; apply setitem_array_scalar).
  change meanings with (range 3) at 1.
  rewrite fill_loop by apply length_zeros. reflexivity.
Qed.

(** The loop of [update_posterior] as a comprehension over the indices. *)
Lemma update_posterior_unfold (hypotheses : list hypothesis)
    (posterior : list R) (signal : ascii) (context : list R) :
  update_posterior hypotheses posterior signal context
  = (new_posterior <-
       map_py
         (fun i =>
            e <- hypothesis_evidence hypotheses i signal context ;;
            p <- getitem posterior i ;;
            ret (p + e))
         (range (length posterior)) ;;
     ret (normalize_logprobs new_posterior)).
Proof.
  unfold update_posterior.
  rewrite (for_each_ext _ _
             (fun i a =>
                v <- (e <- hypothesis_evidence hypotheses i signal context ;;
                      p <- getitem posterior i ;;
                      ret (p + e)) ;;
                setitem a i v)).
  - rewrite fill_loop by apply length_zeros. reflexivity.
  - intros i a. rewrite bind_assoc. apply bind_ext. intros e.
    rewrite bind_assoc. apply bind_ext. intros p. reflexivity.
Qed.

(** C1. [update_posterior], with its pre-allocated arrays and index loops,
    computes what the specification describes: for each hypothesis [i] the
    reference distribution of the mental-state model, for every meaning the
    listener log-probability (literal listener at pragmatic level 0,
    pragmatic listener at level 1), their [logsumexp] added to
    [posterior[i]], and [normalize_logprobs] on the whole vector.  The two
    agree on every input, errors included, when every hypothesis has level
    0 or 1. *)
Theorem update_posterior_refines_spec (hypotheses : list hypothesis)
    (posterior : list R) (signal : ascii) (context : list R) :
  Forall (fun h => h_pragmatic_lvl h = 0%Z \/ h_pragmatic_lvl h = 1%Z)
    hypotheses ->
  update_posterior hypotheses posterior signal context
  = update_posterior_spec hypotheses posterior signal context.
Proof.
  intros Hlvl. rewrite update_posterior_unfold. unfold update_posterior_spec.
  f_equal. apply map_py_ext. intros i _.
  unfold hypothesis_evidence. rewrite bind_assoc.
  unfold getitem at 1 3.
  destruct (hypotheses !! i) as [h|] eqn:Hh; [|reflexivity].
  rewrite !bind_ret. rewrite bind_assoc. apply bind_ext. intros ref.
  rewrite Forall_forall in Hlvl.
  assert (Hin : h ∈ hypotheses) by (apply list_elem_of_lookup; eauto).
  unfold listener_logprob.
  destruct (Hlvl h Hin) as [E|E]; rewrite E; simpl Z.eqb; cbv iota.
  - rewrite marginalize_loop_level0, bind_assoc. reflexivity.
  - rewrite marginalize_loop_level1, bind_assoc. reflexivity.
Qed.

Lemma mental_state_length (perspective : R) (context : list R) :
  length (mental_state perspective context) = length context.
Proof.
  unfold mental_state. rewrite normalize_logprobs_length. apply length_map.
Qed.

(** On well-formed inputs the evidence of a hypothesis is defined. *)
Lemma hypothesis_evidence_value (hypotheses : list hypothesis) (i s : nat)
    (h : hypothesis) (signal : ascii) (context : list R) :
  hypotheses !! i = Some h ->
  valid_hypothesis context h ->
  length context = length meanings ->
  signals !! s = Some signal ->
  hypothesis_evidence hypotheses i signal context
  = ret (evidence_value h s signal context).
Proof.
  intros Hh [HL Hctx] Hlen Hs.
  change (length meanings) with 3%nat in Hlen.
  assert (Hin : In signal signals).
  { rewrite <- list_elem_of_In. apply list_elem_of_lookup. eauto. }
  unfold hypothesis_evidence, evidence_value.
  rewrite (getitem_Some _ _ _ Hh), bind_ret.
  rewrite calc_mental_state_ok by exact Hctx. rewrite bind_ret.
  fold (mental_state (h_perspective h) context).
  set (ref := mental_state (h_perspective h) context).
  assert (Href : length ref = 3%nat)
    by (unfold ref; rewrite mental_state_length; exact Hlen).
  cbv zeta.
  destruct (Z.eqb (h_pragmatic_lvl h) 0);
    [|destruct (Z.eqb (h_pragmatic_lvl h) 1)].
  - rewrite marginalize_loop_level0.
    rewrite (map_py_pure _ (lit (h_language h) ref signal)); [reflexivity|].
    intros m Hm. change meanings with (range 3) in Hm. apply in_range in Hm.
    apply list1_lit_spkr_lit; assumption.
  - rewrite marginalize_loop_level1.
    rewrite (map_py_pure _
               (fun m => nth m ref 0
                         + nth s (noisy (production m (h_language h) ref)) 0));
      [reflexivity|].
    intros m Hm. change meanings with (range 3) in Hm. apply in_range in Hm.
    rewrite (list2_spkr1_value s) by assumption. reflexivity.
  - reflexivity.
Qed.

Lemma evidence_with_prior_from (f : nat -> py R) (pre posterior : list R) :
  map_py (fun i => e <- f i ;; p <- getitem (pre ++ posterior) i ;; ret (p + e))
    (seq (length pre) (length posterior))
  = (evidence <- map_py f (seq (length pre) (length posterior)) ;;
     ret (zip_with Rplus posterior evidence)).
Proof.
  revert pre; induction posterior as [|p posterior IH]; intros pre; simpl;
    [reflexivity|].
  destruct (f (length pre)) as [e|x]; simpl; [reflexivity|].
  unfold getitem at 1. rewrite lookup_app_r by lia.
  rewrite Nat.sub_diag. simpl.
  specialize (IH (pre ++ [p])).
  rewrite <- app_assoc, length_app in IH. simpl in IH.
  replace (length pre + 1)%nat with (S (length pre)) in IH by lia.
  rewrite IH.
  destruct (map_py f (seq (S (length pre)) (length posterior))); reflexivity.
Qed.

(** The update adds the evidence vector to the prior and normalises. *)
Lemma update_posterior_evidence (hypotheses : list hypothesis)
    (posterior : list R) (signal : ascii) (context : list R) :
  update_posterior hypotheses posterior signal context
  = (evidence <-
       map_py (fun i => hypothesis_evidence hypotheses i signal context)
         (range (length posterior)) ;;
     ret (normalize_logprobs (zip_with Rplus posterior evidence))).
Proof.
  rewrite update_posterior_unfold.
  pose proof (evidence_with_prior_from
                (fun i => hypothesis_evidence hypotheses i signal context)
                [] posterior) as H.
  simpl in H. unfold range. rewrite H.
  rewrite bind_assoc. reflexivity.
Qed.

Lemma map_py_total {A B : Type} (f : A -> py B) (xs : list A) :
  (forall x, In x xs -> exists y, f x = inr y) ->
  exists ys, map_py f xs = inr ys.
Proof.
  induction xs as [|x xs IH]; intros H; simpl; [eexists; reflexivity|].
  destruct (H x) as [y Hy]; [left; reflexivity|].
  destruct IH as [ys Hys]; [intros z Hz; apply H; right; exact Hz|].
  rewrite Hy, Hys. eexists; reflexivity.
Qed.

Lemma evidence_total (hypotheses : list hypothesis) (n : nat)
    (signal : ascii) (context : list R) :
  (n <= length hypotheses)%nat ->
  Forall (valid_hypothesis context) hypotheses ->
  length context = length meanings ->
  In signal signals ->
  exists evidence,
    map_py (fun i => hypothesis_evidence hypotheses i signal context)
      (range n) = inr evidence.
Proof.
  intros Hn Hv Hlen Hs.
  rewrite <- list_elem_of_In in Hs.
  apply list_elem_of_lookup in Hs. destruct Hs as [s Hs].
  apply map_py_total. intros i Hi. apply in_range in Hi.
  destruct (hypotheses !! i) as [h|] eqn:Hh;
    [|apply lookup_ge_None in Hh; lia].
  exists (evidence_value h s signal context).
  apply (hypothesis_evidence_value hypotheses i s h); try assumption.
  rewrite Forall_forall in Hv. apply Hv.
  apply list_elem_of_lookup. eauto.
Qed.

Lemma zip_with_nonempty (p e : list R) :
  p <> [] -> length e = length p -> zip_with Rplus p e <> [].
Proof.
  destruct p, e; simpl; intros; try congruence; discriminate.
Qed.

(** C4. On a posterior over the hypothesis list (not empty, no longer than
    the list), well-formed hypotheses, a context of one entry per meaning
    and a signal of the alphabet, [update_posterior] returns a vector of
    the same length whose exponentials sum to 1, that is, whose log-sum-exp
    is 0. *)
Theorem update_posterior_normalized (hypotheses : list hypothesis)
    (posterior : list R) (signal : ascii) (context : list R) :
  posterior <> [] ->
  (length posterior <= length hypotheses)%nat ->
  Forall (valid_hypothesis context) hypotheses ->
  length context = length meanings ->
  In signal signals ->
  exists posterior',
    update_posterior hypotheses posterior signal context = inr posterior'
    /\ length posterior' = length posterior
    /\ sum_exp posterior' = 1
    /\ logsumexp posterior' = 0.
Proof.
  intros Hne Hle Hv Hlen Hs.
  destruct (evidence_total hypotheses (length posterior) signal context
              Hle Hv Hlen Hs) as [evidence He].
  rewrite update_posterior_evidence, He. eexists. split; [reflexivity|].
  pose proof (map_py_length _ _ _ He) as Hl.
  unfold range in Hl. rewrite length_seq in Hl.
  assert (Hs1 : sum_exp (normalize_logprobs (zip_with Rplus posterior evidence))
                = 1)
    by (apply normalize_logprobs_sum, zip_with_nonempty; assumption).
  split; [|split].
  - rewrite normalize_logprobs_length, length_zip_with. lia.
  - exact Hs1.
  - unfold logsumexp. rewrite Hs1. apply ln_1.
Qed.

(** ** Two updates with the same observation *)

Lemma logsumexp_shift (c : R) (v : list R) :
  v <> [] -> logsumexp (map (fun x => x - c) v) = logsumexp v - c.
Proof.
  intros H. unfold logsumexp. rewrite sum_exp_shift.
  unfold Rdiv. rewrite ln_mult.
  - rewrite ln_Rinv by apply exp_pos. rewrite ln_exp. ring.
  - apply sum_exp_pos, H.
  - apply Rinv_0_lt_compat, exp_pos.
Qed.

(** Normalisation forgets a constant added to every entry. *)
Lemma normalize_logprobs_shift (c : R) (v : list R) :
  normalize_logprobs (map (fun x => x - c) v) = normalize_logprobs v.
Proof.
  destruct v as [|x v]; [reflexivity|].
  unfold normalize_logprobs. rewrite logsumexp_shift by discriminate.
  rewrite map_map. apply map_ext. intros y. ring.
Qed.

Lemma zip_with_shift (c : R) (p e : list R) :
  zip_with Rplus (map (fun x => x - c) p) e
  = map (fun x => x - c) (zip_with Rplus p e).
Proof.
  revert e; induction p as [|x p IH]; intros [|y e]; simpl;
    try reflexivity.
  rewrite IH. f_equal. ring.
Qed.

Lemma zip_with_twice (p e : list R) :
  zip_with Rplus (zip_with Rplus p e) e
  = zip_with Rplus p (map (fun l => 2 * l) e).
Proof.
  revert e; induction p as [|x p IH]; intros [|y e]; simpl;
    try reflexivity.
  rewrite IH. f_equal. ring.
Qed.

(** What the loop of [update_posterior] adds to [posterior[i]] is the log
    marginal likelihood of the observation under hypothesis [i]. *)
Lemma hypothesis_evidence_marginal (hypotheses : list hypothesis) (i : nat)
    (signal : ascii) (context : list R) :
  Forall (fun h => h_pragmatic_lvl h = 0%Z \/ h_pragmatic_lvl h = 1%Z)
    hypotheses ->
  hypothesis_evidence hypotheses i signal context
  = (h <- getitem hypotheses i ;; log_marginal_likelihood h signal context).
Proof.
  intros Hlvl. unfold hypothesis_evidence, log_marginal_likelihood.
  unfold getitem.
  destruct (hypotheses !! i) as [h|] eqn:Hh; [|reflexivity].
  rewrite !bind_ret. cbv zeta. apply bind_ext. intros ref.
  rewrite Forall_forall in Hlvl.
  assert (Hin : h ∈ hypotheses) by (apply list_elem_of_lookup; eauto).
  unfold listener_logprob.
  destruct (Hlvl h Hin) as [E|E]; rewrite E; simpl Z.eqb; cbv iota.
  - rewrite marginalize_loop_level0. reflexivity.
  - rewrite marginalize_loop_level1. reflexivity.
Qed.

(** C7. On a posterior no longer than the hypothesis list, well-formed
    hypotheses of pragmatic level 0 or 1, a context of one entry per
    meaning and a signal of the alphabet: the vector [L], whose entry [i]
    is the [logsumexp] over the meanings of the listener log-probability
    for hypothesis [i] (literal listener at level 0, pragmatic listener at
    level 1, on the mental state of the hypothesis's perspective), is
    defined; both updates return; and updating twice with the same
    observation gives [normalize_logprobs(P + 2*L)]. *)
Theorem update_posterior_twice (hypotheses : list hypothesis)
    (posterior : list R) (signal : ascii) (context : list R) :
  (length posterior <= length hypotheses)%nat ->
  Forall (fun h => h_pragmatic_lvl h = 0%Z \/ h_pragmatic_lvl h = 1%Z)
    hypotheses ->
  Forall (valid_hypothesis context) hypotheses ->
  length context = length meanings ->
  In signal signals ->
  exists L posterior1,
    map_py
      (fun i =>
         h <- getitem hypotheses i ;;
         log_marginal_likelihood h signal context)
      (range (length posterior)) = inr L
    /\ length L = length posterior
    /\ update_posterior hypotheses posterior signal context = inr posterior1
    /\ update_posterior hypotheses posterior1 signal context
       = inr (normalize_logprobs
                (zip_with Rplus posterior (map (fun l => 2 * l) L))).
Proof.
  intros Hle Hlvl Hv Hlen Hs.
  destruct (evidence_total hypotheses (length posterior) signal context
              Hle Hv Hlen Hs) as [L HL].
  pose proof (map_py_length _ _ _ HL) as Hl.
  unfold range in Hl. rewrite length_seq in Hl.
  exists L, (normalize_logprobs (zip_with Rplus posterior L)).
  split; [|split; [exact Hl|split]].
  - rewrite <- HL. apply map_py_ext. intros i _. symmetry.
    apply hypothesis_evidence_marginal, Hlvl.
  - rewrite update_posterior_evidence, HL. reflexivity.
  - rewrite update_posterior_evidence.
    rewrite normalize_logprobs_length, length_zip_with.
    replace (length posterior `min` length L)%nat with (length posterior)
      by lia.
    rewrite HL. rewrite bind_ret. unfold ret. f_equal.
    unfold normalize_logprobs at 2.
    rewrite zip_with_shift, normalize_logprobs_shift, zip_with_twice.
    reflexivity.
Qed.

(** ** The noise loop of the pragmatic listener *)

Lemma logsumexp_lt (v w : list R) :
  v <> [] -> sum_exp v < sum_exp w -> logsumexp v < logsumexp w.
Proof.
  intros Hv H. unfold logsumexp. apply ln_increasing; [|exact H].
  apply sum_exp_pos, Hv.
Qed.

Lemma exp_keep (x : R) : exp (x + ln (1 - noise)) = (1 - noise) * exp x.
Proof. rewrite exp_plus, exp_ln by real_side. ring. Qed.

Lemma exp_mix (v : list R) :
  v <> [] ->
  exp (ln noise + logsumexp v - ln (1 + 1 + 1 - 1)) = noise * sum_exp v / 2.
Proof.
  intros Hv. unfold Rminus at 1.
  rewrite !exp_plus, exp_Ropp, exp_logsumexp by exact Hv.
  rewrite !exp_ln by real_side. field.
Qed.

(** The first entry of the noisy array is the one of the specification:
    when the loop visits slot 0 the other slots still hold raw values. *)
Lemma noisy_first (p0 p1 p2 : R) :
  nth 0 (noisy [p0; p1; p2]) 0 = noisy_spec [p0; p1; p2] 0.
Proof.
  unfold noisy, noise_step, noisy_spec. simpl.
  rewrite (Rplus_comm p0). reflexivity.
Qed.

(** The second entry is computed from the already updated first entry. *)
Lemma noisy_second (p0 p1 p2 : R) :
  nth 1 (noisy [p0; p1; p2]) 0
  = logsumexp
      [p1 + ln (1 - noise);
       ln noise + logsumexp [noisy_spec [p0; p1; p2] 0; p2]
       - ln (1 + 1 + 1 - 1)].
Proof.
  unfold noisy, noise_step, noisy_spec. simpl.
  rewrite (Rplus_comm p0). reflexivity.
Qed.

Lemma exp_noisy_spec_first (p0 p1 p2 : R) :
  exp (noisy_spec [p0; p1; p2] 0)
  = (1 - noise) * exp p0 + noise * (exp p1 + exp p2) / 2.
Proof.
  unfold noisy_spec. simpl.
  rewrite exp_logsumexp by discriminate. simpl.
  rewrite (Rplus_comm (ln (1 - noise))), exp_keep.
  rewrite exp_mix by discriminate. simpl. lra.
Qed.

(** Whenever the raw probability of the first signal is not the mean of
    the other two, the second entry differs from the specification's. *)
Lemma noisy_second_lt (p0 p1 p2 : R) :
  exp p1 + exp p2 < 2 * exp p0 ->
  nth 1 (noisy [p0; p1; p2]) 0 < noisy_spec [p0; p1; p2] 1.
Proof.
  intros H. rewrite noisy_second. unfold noisy_spec at 2. simpl.
  apply logsumexp_lt; [discriminate|]. simpl.
  rewrite (Rplus_comm (ln (1 - noise)) p1).
  rewrite !exp_mix by discriminate. simpl.
  rewrite exp_noisy_spec_first.
  pose proof (exp_pos p0). pose proof (exp_pos p1). pose proof (exp_pos p2).
  unfold noise in *. lra.
Qed.

Lemma softmax_prefers_first (u0 u1 u2 : R) :
  u1 < u0 -> u2 < u0 ->
  let p := map ln (softmax [u0; u1; u2]) in
  exp (nth 1 p 0) + exp (nth 2 p 0) < 2 * exp (nth 0 p 0).
Proof.
  intros H1 H2. simpl.
  pose proof (exp_pos u0) as E0. pose proof (exp_pos u1) as E1.
  pose proof (exp_pos u2) as E2.
  apply exp_increasing in H1. apply exp_increasing in H2.
  set (S := exp u0 + (exp u1 + (exp u2 + 0))).
  assert (HS : 0 < S) by (unfold S; lra).
  rewrite !exp_ln by (apply Rdiv_lt_0_compat; assumption).
  unfold Rdiv. rewrite <- Rmult_plus_distr_r, <- Rmult_assoc.
  apply Rmult_lt_compat_r; [apply Rinv_0_lt_compat, HS|lra].
Qed.

Lemma normalized_entry_lt (a b : R) (A B : list R) :
  A <> [] -> B <> [] ->
  exp b * sum_exp A < exp a * sum_exp B ->
  b - logsumexp B < a - logsumexp A.
Proof.
  intros HA HB H.
  pose proof (sum_exp_pos A HA) as PA. pose proof (sum_exp_pos B HB) as PB.
  assert (Hb : b - logsumexp B = ln (exp b / sum_exp B)).
  { unfold logsumexp, Rdiv. rewrite ln_mult, ln_Rinv, ln_exp;
      [ring|exact PB|apply exp_pos|apply Rinv_0_lt_compat, PB]. }
  assert (Ha : a - logsumexp A = ln (exp a / sum_exp A)).
  { unfold logsumexp, Rdiv. rewrite ln_mult, ln_Rinv, ln_exp;
      [ring|exact PA|apply exp_pos|apply Rinv_0_lt_compat, PA]. }
  rewrite Ha, Hb. apply ln_increasing.
  - apply Rdiv_lt_0_compat; [apply exp_pos|exact PB].
  - apply (Rmult_lt_reg_r (sum_exp B * sum_exp A)).
    + apply Rmult_lt_0_compat; assumption.
    + replace (exp b / sum_exp B * (sum_exp B * sum_exp A))
        with (exp b * sum_exp A) by (field; lra).
      replace (exp a / sum_exp A * (sum_exp B * sum_exp A))
        with (exp a * sum_exp B) by (field; lra).
      exact H.
Qed.

(** Under the identity lexicon the pragmatic speaker prefers signal [a] for
    meaning 0, whatever the reference distribution. *)
Lemma production_identity (r0 r1 r2 : R) :
  let p := production 0 identity_lexicon [r0; r1; r2] in
  exp (nth 1 p 0) + exp (nth 2 p 0) < 2 * exp (nth 0 p 0).
Proof.
  unfold production, perception, lit, lit_term, identity_lexicon.
  simpl map. simpl nth.
  pose proof (exp_pos r0) as E0. pose proof (exp_pos r1) as E1.
  pose proof (exp_pos r2) as E2.
  assert (Hk : exp (ln ((1 - noise) / 1)) = 0.95)
    by (rewrite exp_ln by real_side; real_side).
  assert (Hn : exp (ln (noise / (1 + 1 + 1 - 1))) = 0.025)
    by (rewrite exp_ln by real_side; real_side).
  apply softmax_prefers_first; unfold normalize_logprobs; simpl nth;
    unfold alpha; apply Rmult_lt_compat_l; try lra;
    (apply normalized_entry_lt; [discriminate..|]); simpl;
    rewrite !exp_plus, Hk, Hn; nra.
Qed.

Lemma production_three (meaning : nat) (language : lexicon)
    (mental_state : list R) :
  exists p0 p1 p2,
    production meaning language mental_state = [p0; p1; p2].
Proof. unfold production. simpl. eauto. Qed.

(** For the first signal of the alphabet the pragmatic listener is the
    formula of the specification on the raw production probabilities. *)
Lemma list2_spkr1_first_signal (meaning : nat) (language : lexicon)
    (ref_distribution : list R) :
  valid_lexicon language -> length ref_distribution = 3%nat ->
  (meaning < 3)%nat ->
  exists p,
    spkr1_production_probs meaning language ref_distribution = inr p
    /\ list2_spkr1 "a" meaning language ref_distribution
       = inr [nth meaning ref_distribution 0 + noisy_spec p 0].
Proof.
  intros HL Href Hm.
  exists (production meaning language ref_distribution). split.
  - apply spkr1_production_probs_value; assumption.
  - rewrite (list2_spkr1_value 0) by (assumption || reflexivity).
    destruct (production_three meaning language ref_distribution)
      as (p0 & p1 & p2 & ->).
    rewrite noisy_first. reflexivity.
Qed.

(** The formula of the specification yields a probability distribution
    over the signals when the raw probabilities are one. *)
Lemma noisy_spec_distribution (p0 p1 p2 : R) :
  exp p0 + exp p1 + exp p2 = 1 ->
  exp (noisy_spec [p0; p1; p2] 0) + exp (noisy_spec [p0; p1; p2] 1)
  + exp (noisy_spec [p0; p1; p2] 2) = 1.
Proof.
  intros H. unfold noisy_spec. simpl.
  rewrite !exp_logsumexp by discriminate. simpl.
  rewrite !(Rplus_comm (ln (1 - noise))), !exp_keep.
  rewrite !exp_mix by discriminate. simpl.
  unfold noise in *. lra.
Qed.

Lemma valid_identity_lexicon : valid_lexicon identity_lexicon.
Proof. split; [reflexivity|]. repeat constructor. Qed.

(** Under the identity lexicon and for meaning 0, the entry the loop
    leaves at slot 1 is strictly below the specification's. *)
Lemma noisy_identity_second (r0 r1 r2 : R) :
  nth 1 (noisy (production 0 identity_lexicon [r0; r1; r2])) 0
  < noisy_spec (production 0 identity_lexicon [r0; r1; r2]) 1.
Proof.
  pose proof (production_identity r0 r1 r2) as H. cbv zeta in H.
  destruct (production_three 0 identity_lexicon [r0; r1; r2])
    as (p0 & p1 & p2 & E).
  rewrite E in H |- *. simpl nth in H.
  apply noisy_second_lt, H.
Qed.

(** C2 (divergence). For the signal [b], meaning 0, the identity lexicon
    and any reference distribution [[r0; r1; r2]], the pragmatic listener
    returns a value strictly below [ref_distribution[meaning]] plus the
    noisy log-probability that the specification computes from the raw
    output [p] of [spkr1_production_probs]: the loop reads slot 0 after it
    has overwritten it. *)
Theorem list2_spkr1_second_signal (r0 r1 r2 : R) :
  exists p x,
    spkr1_production_probs 0 identity_lexicon [r0; r1; r2] = inr p
    /\ list2_spkr1 "b" 0 identity_lexicon [r0; r1; r2] = inr [x]
    /\ x < r0 + noisy_spec p 1.
Proof.
  exists (production 0 identity_lexicon [r0; r1; r2]).
  eexists. split; [|split].
  - apply spkr1_production_probs_value;
      [apply valid_identity_lexicon|reflexivity|lia].
  - apply (list2_spkr1_value 1);
      [apply valid_identity_lexicon|reflexivity|lia|reflexivity].
  - simpl (nth 0 [r0; r1; r2] 0).
    apply Rplus_lt_compat_l, noisy_identity_second.
Qed.

(** ** Production *)

Lemma Rabs_lt_1 (x : R) : -1 < x < 1 -> Rabs x < 1.
Proof. intros H. unfold Rabs. destruct (Rcase_abs x); lra. Qed.

Lemma example_context_valid_0 :
  Forall (fun c => Rabs (0 - c) < 1) example_context.
Proof. repeat constructor; apply Rabs_lt_1; lra. Qed.

Lemma example_context_valid_1 :
  Forall (fun c => Rabs (1 - c) < 1) example_context.
Proof. repeat constructor; apply Rabs_lt_1; lra. Qed.

Lemma sample_value (posterior : list R) (draw : nat) :
  posterior <> [] ->
  sample posterior draw = ret (draw mod length posterior)%nat.
Proof.
  intros Hne. unfold sample, np_random_choice.
  assert (Hlen : (0 < length posterior)%nat)
    by (destruct posterior; [congruence|simpl; lia]).
  destruct (range (length posterior)) as [|x l] eqn:E.
  - apply (f_equal length) in E. unfold range in E.
    rewrite length_seq in E. simpl in E. lia.
  - rewrite <- E. unfold range at 2. rewrite length_seq.
    apply getitem_Some. unfold range.
    rewrite lookup_seq_lt by (apply Nat.mod_upper_bound; lia).
    reflexivity.
Qed.

Lemma mental_state_nonempty (perspective : R) (context : list R) :
  context <> [] -> mental_state perspective context <> [].
Proof.
  intros H E. apply (f_equal length) in E.
  rewrite mental_state_length in E. destruct context; [congruence|discriminate].
Qed.

(** C5 (counterexample). For the literal speaker whose first meaning is
    signalled by [a] and [b], with the noise draw firing, the
    winner-take-all signal is [a] and the signal substituted for it is [a]
    again: the pool of substitutes is the alphabet without [b], the last
    usable signal of the row. *)
Lemma produce_substitute_same :
  ~ produce_level0_claim two_signal_speaker example_context noisy_draws.
Proof.
  intros H.
  specialize (H (mental_state 0 example_context) 0%nat
                ["1"; "1"; "0"]%char 0%nat "a"%char "a"%char).
  assert (Hms : calc_mental_state 0 example_context
                = inr (mental_state 0 example_context))
    by (apply calc_mental_state_ok, example_context_valid_0).
  assert (Hsample : sample (mental_state 0 example_context) 0 = inr 0%nat).
  { rewrite sample_value by (apply mental_state_nonempty; discriminate).
    rewrite mental_state_length. reflexivity. }
  destruct H as [H _]; try reflexivity; try assumption.
  - unfold produce. change (h_perspective two_signal_speaker) with 0.
    rewrite Hms, bind_ret.
    change (d_meaning noisy_draws) with 0%nat. rewrite Hsample, bind_ret.
    change (d_uniform noisy_draws) with 0.01.
    destruct (Rlt_dec 0.01 noise) as [_|Hn]; [|exfalso; apply Hn; real_side].
    reflexivity.
  - destruct H as [_ H].
    + split; [vm_compute; lia|real_side].
    + apply H. reflexivity.
Qed.

Lemma signals_marked_row (language : lexicon) (meaning : nat)
    (row : list ascii) (ss : list nat) :
  language !! meaning = Some row ->
  signals_marked language meaning ss = marked_row row ss.
Proof.
  intros Hrow. induction ss as [|s ss IH]; simpl; [reflexivity|].
  rewrite (getitem_Some _ _ _ Hrow), bind_ret. rewrite IH. reflexivity.
Qed.

Lemma np_where_from_In {A : Type} (cond : A -> bool) (a : list A) (i j : nat) :
  In j (np_where_from cond i a)
  <-> (i <= j)%nat /\ exists x, a !! (j - i)%nat = Some x /\ cond x = true.
Proof.
  revert i; induction a as [|y a IH]; intros i; simpl.
  - split; [intros []|intros [_ (x & Hx & _)]; discriminate].
  - assert (Htail : In j (np_where_from cond (S i) a)
                    <-> (i < j)%nat
                        /\ exists x, (y :: a) !! (j - i)%nat = Some x
                                     /\ cond x = true).
    { rewrite IH. split.
      - intros [Hle (x & Hx & Hc)]. split; [lia|]. exists x. split; [|exact Hc].
        replace (j - i)%nat with (S (j - S i)) by lia. exact Hx.
      - intros [Hlt (x & Hx & Hc)]. split; [lia|]. exists x. split; [|exact Hc].
        replace (j - i)%nat with (S (j - S i)) in Hx by lia. exact Hx. }
    destruct (cond y) eqn:Hy; simpl; rewrite Htail.
    + split.
      * intros [<-|[Hlt Hx]].
        -- split; [lia|]. exists y. rewrite Nat.sub_diag. split; [reflexivity|exact Hy].
        -- split; [lia|exact Hx].
      * intros [Hle (x & Hx & Hc)].
        destruct (Nat.eq_dec i j) as [->|Hne]; [left; reflexivity|].
        right. split; [lia|]. exists x. split; assumption.
    + split.
      * intros [Hlt Hx]. split; [lia|exact Hx].
      * intros [Hle (x & Hx & Hc)].
        destruct (Nat.eq_dec i j) as [->|Hne].
        -- rewrite Nat.sub_diag in Hx. simpl in Hx. injection Hx as <-.
           congruence.
        -- split; [lia|]. exists x. split; assumption.
Qed.

Lemma ascii_max_cases (a b : ascii) : ascii_max a b = a \/ ascii_max a b = b.
Proof. unfold ascii_max. destruct (N.ltb _ _); auto. Qed.

Lemma foldr_ascii_max_In (x : ascii) (l : list ascii) :
  In (foldr ascii_max x l) (x :: l).
Proof.
  induction l as [|y l IH]; simpl; [left; reflexivity|].
  destruct (ascii_max_cases y (foldr ascii_max x l)) as [E|E]; rewrite E.
  - right; left; reflexivity.
  - destruct IH as [IH|IH]; [left; exact IH|right; right; exact IH].
Qed.

Lemma np_random_choice_In {A : Type} (a : list A) (draw : nat) :
  a <> [] -> exists x, np_random_choice a draw = inr x /\ In x a.
Proof.
  intros Hne. unfold np_random_choice. destruct a as [|y a]; [congruence|].
  set (l := y :: a).
  assert (Hlt : (draw mod length l < length l)%nat)
    by (apply Nat.mod_upper_bound; simpl; lia).
  exists (nth (draw mod length l) l y). split.
  - apply getitem_Some, lookup_nth, Hlt.
  - apply nth_In, Hlt.
Qed.

(** The modelled [wta] returns the index of an entry of the row. *)
Lemma wta_total (items : list ascii) (draw : nat) :
  items <> [] ->
  exists w, wta items draw = inr w /\ (w < length items)%nat.
Proof.
  intros Hne. destruct items as [|x items]; [congruence|].
  unfold wta. set (m := foldr ascii_max x items).
  destruct (np_random_choice_In
              (np_where (Ascii.eqb m) (x :: items)) draw) as (w & Hw & Hin).
  - pose proof (foldr_ascii_max_In x items) as Hm. fold m in Hm.
    rewrite <- list_elem_of_In in Hm.
    apply list_elem_of_lookup in Hm. destruct Hm as [j Hj].
    intros E.
    assert (Hj' : In j (np_where (Ascii.eqb m) (x :: items))).
    { unfold np_where. apply np_where_from_In. split; [lia|].
      exists m. rewrite Nat.sub_0_r. split; [exact Hj|apply Ascii.eqb_refl]. }
    rewrite E in Hj'. destruct Hj'.
  - exists w. split; [exact Hw|].
    unfold np_where in Hin. apply np_where_from_In in Hin.
    destruct Hin as [_ (c & Hc & _)]. rewrite Nat.sub_0_r in Hc.
    apply lookup_lt_Some in Hc. exact Hc.
Qed.

Lemma marked_row_binary (row : list ascii) :
  binary_row row -> length row = 3%nat ->
  exists signals_for_r,
    marked_row row (range (length meanings)) = inr signals_for_r
    /\ length signals_for_r = usable_count row.
Proof.
  intros Hb Hlen.
  destruct (binary_row3 row Hb Hlen) as (b0 & b1 & b2 & ->).
  destruct b0, b1, b2; eexists; split; reflexivity.
Qed.

Ltac nodup :=
  repeat (apply NoDup_cons_2;
          [rewrite list_elem_of_In; simpl; intuition discriminate|]);
  apply NoDup_nil_2.

(** The one-signal rows: the winner is the usable signal and the pool of
    substitutes is the rest of the alphabet. *)
Lemma one_signal_row (row : list ascii) (w draw : nat) :
  binary_row row -> length row = 3%nat -> usable_count row = 1%nat ->
  wta row draw = inr w ->
  exists selected pool,
    signals !! w = Some selected
    /\ marked_row row (range (length meanings)) = inr [selected]
    /\ other_signals_loop [selected] = inr pool
    /\ length pool = 2%nat
    /\ NoDup pool
    /\ (forall x, In x pool <-> In x signals /\ x <> selected).
Proof.
  intros Hb Hlen Hk Hw.
  destruct (binary_row3 row Hb Hlen) as (b0 & b1 & b2 & ->).
  destruct b0, b1, b2; try discriminate Hk;
    unfold wta, np_where, np_random_choice in Hw; simpl in Hw;
    injection Hw as <-.
  - exists "a"%char, ["b"; "c"]%char. repeat split; try reflexivity.
    + nodup.
    + simpl in *; intuition.
    + simpl in H; intuition (subst; discriminate).
    + simpl in *; intuition congruence.
  - exists "b"%char, ["a"; "c"]%char. repeat split; try reflexivity.
    + nodup.
    + simpl in *; intuition.
    + simpl in H; intuition (subst; discriminate).
    + simpl in *; intuition congruence.
  - exists "c"%char, ["a"; "b"]%char. repeat split; try reflexivity.
    + nodup.
    + simpl in *; intuition.
    + simpl in H; intuition (subst; discriminate).
    + simpl in *; intuition congruence.
Qed.

(** C5 (amended). For a hypothesis of pragmatic level 0 over a binary 3x3
    lexicon and a context in the domain of the mental-state model,
    [produce] samples a meaning, picks the winner-take-all signal
    [selected] of its row, and returns it unless the noise draw fires on a
    row whose usable-signal count differs from the alphabet size.  When the
    noise draw fires on a row with exactly one usable signal, the signal
    returned is drawn by [np.random.choice] from a duplicate-free pool that
    holds exactly the signals other than [selected]. *)
Theorem produce_level0 (system : hypothesis) (context : list R) (d : draws) :
  h_pragmatic_lvl system = 0%Z ->
  valid_hypothesis context system ->
  Forall binary_row (h_language system) ->
  length context = length meanings ->
  exists meaning row w selected,
    sample (mental_state (h_perspective system) context) (d_meaning d)
    = inr meaning
    /\ h_language system !! meaning = Some row
    /\ wta row (d_wta d) = inr w
    /\ signals !! w = Some selected
    /\ (~ (usable_count row <> length signals /\ d_uniform d < noise) ->
        produce system context d = inr (selected, context))
    /\ (usable_count row = 1%nat -> d_uniform d < noise ->
        exists pool out,
          NoDup pool
          /\ (forall x, In x pool <-> In x signals /\ x <> selected)
          /\ np_random_choice pool (d_choice d) = inr out
          /\ produce system context d = inr (out, context)).
Proof.
  intros Hlvl [HL Hctx] Hbin Hlen.
  change (length meanings) with 3%nat in Hlen.
  set (ms := mental_state (h_perspective system) context).
  assert (Hms : length ms = 3%nat)
    by (unfold ms; rewrite mental_state_length; exact Hlen).
  assert (Hne : ms <> []) by (intros E; rewrite E in Hms; discriminate).
  set (m := (d_meaning d mod 3)%nat).
  assert (Hm : (m < 3)%nat) by (apply Nat.mod_upper_bound; lia).
  assert (Hsample : sample ms (d_meaning d) = inr m)
    by (rewrite sample_value, Hms by exact Hne; reflexivity).
  destruct (valid_lexicon_row (h_language system) m HL Hm) as [Hrow Hrlen].
  set (row := nth m (h_language system) []) in *.
  assert (Hb : binary_row row).
  { rewrite Forall_forall in Hbin. apply Hbin.
    apply list_elem_of_lookup. eauto. }
  destruct (wta_total row (d_wta d)) as (w & Hw & Hwlt).
  { intros E. rewrite E in Hrlen. discriminate. }
  assert (Hsel : signals !! w = Some (nth w signals "a"%char))
    by (apply lookup_nth; simpl; lia).
  set (selected := nth w signals "a"%char) in *.
  destruct (marked_row_binary row Hb Hrlen) as (sfr & Hsfr & Hk).
  assert (Hprod :
    produce system context d
    = if Rlt_dec (d_uniform d) noise then
        if negb (Nat.eqb (length sfr) 3) then
          other_signals <- other_signals_loop sfr ;;
          signal <- np_random_choice other_signals (d_choice d) ;;
          ret (signal, context)
        else ret (selected, context)
      else ret (selected, context)).
  { unfold produce. cbv zeta. rewrite calc_mental_state_ok by exact Hctx.
    rewrite bind_ret. fold (mental_state (h_perspective system) context).
    fold ms. rewrite Hsample.
    change (bind (inr m) ?k) with (k m). cbv beta.
    rewrite Hlvl. simpl Z.eqb. cbv iota.
    rewrite (getitem_Some _ _ _ Hrow), bind_ret, Hw.
    change (bind (inr w) ?k) with (k w). cbv beta.
    rewrite (getitem_Some _ _ _ Hsel), bind_ret.
    rewrite (signals_marked_row _ _ _ _ Hrow), Hsfr.
    reflexivity. }
  exists m, row, w, selected.
  repeat (split; [assumption|]). split.
  - intros Hno. rewrite Hprod.
    destruct (Rlt_dec (d_uniform d) noise) as [Hu|Hu]; [|reflexivity].
    destruct (Nat.eqb_spec (length sfr) 3) as [E|E]; [reflexivity|].
    exfalso. apply Hno. split; [|exact Hu].
    rewrite <- Hk. exact E.
  - intros Hone Hu.
    destruct (one_signal_row row w (d_wta d) Hb Hrlen Hone Hw)
      as (sel' & pool & Hsel' & Hmarked & Hloop & Hlen2 & Hnd & Hpool).
    assert (sel' = selected) by congruence. subst sel'.
    rewrite Hsfr in Hmarked. injection Hmarked as ->.
    destruct (np_random_choice_In pool (d_choice d)) as (out & Hout & _).
    { intros E. rewrite E in Hlen2. discriminate Hlen2. }
    exists pool, out. repeat (split; [assumption|]).
    rewrite Hprod.
    destruct (Rlt_dec (d_uniform d) noise) as [_|Hn]; [|contradiction].
    simpl negb. cbv iota. rewrite Hloop.
    change (bind (inr pool) ?k) with (k pool). cbv beta.
    rewrite Hout. reflexivity.
Qed.

(** ** Posterior update on the store *)

Section UpdateOnStore.
Variable hypotheses : list hypothesis.
Variable signal : ascii.
Variable context : list R.
Variable posterior new_posterior : nat.
Variable P : list R.
Variable h : heap.
Hypothesis Hposterior : h !! posterior = Some P.
Hypothesis Hnew : h !! new_posterior = None.

Lemma new_posterior_fresh : new_posterior <> posterior.
Proof. intros E. rewrite E in Hnew. congruence. Qed.

(** The loop writes the new array only, and fills it as the pure loop
    does. *)
Lemma update_loop_heap (xs : list nat) (acc : list R) :
  exists acc',
    for_each_st xs
      (update_body_heap hypotheses posterior new_posterior signal context)
      (<[new_posterior:=acc]> h)
    = (match
         for_each xs
           (fun i a =>
              e <- hypothesis_evidence hypotheses i signal context ;;
              p <- getitem P i ;;
              setitem a i (p + e))
           acc
       with
       | inl e => inl e
       | inr _ => inr tt
       end, <[new_posterior:=acc']> h)
    /\ (forall a,
          for_each xs
            (fun i a =>
               e <- hypothesis_evidence hypotheses i signal context ;;
               p <- getitem P i ;;
               setitem a i (p + e))
            acc = inr a ->
          acc' = a).
Proof.
  revert acc; induction xs as [|i xs IH]; intros acc.
  - exists acc. split; [reflexivity|]. simpl. intros a [= <-]. reflexivity.
  - simpl. unfold st_bind at 1. unfold update_body_heap at 1.
    unfold st_bind at 1, lift at 1.
    destruct (hypothesis_evidence hypotheses i signal context) as [e|x].
    { exists acc. split; [reflexivity|]. simpl. discriminate. }
    unfold st_bind at 1, getitem_ref, st_bind at 1, deref at 1.
    rewrite lookup_insert_ne by apply new_posterior_fresh.
    rewrite Hposterior. simpl default. unfold lift at 1.
    rewrite bind_ret.
    destruct (getitem P i) as [e|p].
    { exists acc. split; [reflexivity|]. simpl. discriminate. }
    unfold setitem_ref, st_bind at 1, deref at 1.
    rewrite lookup_insert_eq. simpl default.
    unfold st_bind at 1, lift at 1. rewrite bind_ret.
    destruct (setitem acc i (p + x)) as [e|acc1].
    { exists acc. split; [reflexivity|]. simpl. discriminate. }
    rewrite insert_insert_eq. rewrite bind_ret.
    destruct (IH acc1) as (acc' & Hrun & Hres).
    exists acc'. split; [exact Hrun|exact Hres].
Qed.
End UpdateOnStore.

(** C10. [update_posterior] leaves the array it is given as it was: after
    the call, normal or raising, the store holds the same array at
    [posterior] (and at every other reference that existed before), and a
    normal call returns a reference that did not exist before, to the
    vector the pure reading of the function computes. *)
Theorem update_posterior_frame (hypotheses : list hypothesis)
    (posterior : nat) (P : list R) (signal : ascii) (context : list R)
    (h : heap) :
  h !! posterior = Some P ->
  exists res h',
    update_posterior_heap hypotheses posterior signal context h = (res, h')
    /\ h' !! posterior = Some P
    /\ (forall l v, h !! l = Some v -> h' !! l = Some v)
    /\ match res with
       | inr r =>
           r <> posterior /\ h !! r = None
           /\ exists v,
               h' !! r = Some v
               /\ update_posterior hypotheses P signal context = inr v
       | inl e => update_posterior hypotheses P signal context = inl e
       end.
Proof.
  intros HP.
  set (np := fresh (dom h)).
  assert (Hnp : h !! np = None)
    by (apply not_elem_of_dom; unfold np; apply is_fresh).
  destruct (update_loop_heap hypotheses signal context posterior np P h HP Hnp
              (range (length P)) (zeros (length P)))
    as (acc' & Hrun & Hres).
  unfold update_posterior_heap, st_bind at 1, len_ref, st_bind at 1, deref at 1.
  rewrite HP. simpl default. unfold st_ret.
  unfold st_bind at 1, alloc at 1. fold np.
  unfold st_bind at 1. rewrite Hrun.
  unfold update_posterior.
  destruct (for_each (range (length P)) _ (zeros (length P))) as [e|a] eqn:Hloop.
  - exists (inl e), (<[np:=acc']> h).
    split; [reflexivity|]. split; [|split].
    + rewrite lookup_insert_ne by congruence. exact HP.
    + intros l v Hl. rewrite lookup_insert_ne by congruence. exact Hl.
    + reflexivity.
  - rewrite (Hres a eq_refl).
    unfold normalize_logprobs_ref, st_bind, deref, alloc.
    rewrite lookup_insert_eq. simpl default.
    set (h1 := <[np:=a]> h).
    set (r := fresh (dom h1)).
    assert (Hr : h1 !! r = None)
      by (apply not_elem_of_dom; unfold r; apply is_fresh).
    assert (Hrnp : r <> np).
    { intros E. rewrite E in Hr. unfold h1 in Hr.
      rewrite lookup_insert_eq in Hr. discriminate. }
    assert (Hrh : h !! r = None).
    { unfold h1 in Hr. rewrite lookup_insert_ne in Hr by congruence. exact Hr. }
    exists (inr r), (<[r:=normalize_logprobs a]> h1).
    split; [reflexivity|]. split; [|split; [|split; [|split]]].
    + rewrite lookup_insert_ne by congruence.
      unfold h1. rewrite lookup_insert_ne by congruence. exact HP.
    + intros l v Hl. rewrite lookup_insert_ne by congruence.
      unfold h1. rewrite lookup_insert_ne by congruence. exact Hl.
    + congruence.
    + exact Hrh.
    + exists (normalize_logprobs a). split; [apply lookup_insert_eq|reflexivity].
Qed.

(** ** The lexicon enumeration of learn_pragmatics.py *)

Lemma build_languages_run :
  LearnPragmatics.build_languages = inr LearnPragmatics.languages.
Proof. vm_compute. reflexivity. Qed.

Lemma valid_row_b_sound (row : list ascii) :
  LearnPragmatics.valid_row_b row = true -> LearnPragmatics.valid_row row.
Proof.
  unfold LearnPragmatics.valid_row_b, LearnPragmatics.valid_row.
  rewrite !andb_true_iff. intros [[Hlen Hbin] Hone].
  apply Nat.eqb_eq in Hlen. split; [exact Hlen|]. split.
  - unfold binary_row. rewrite Forall_forall. intros c Hc.
    rewrite forallb_forall in Hbin. rewrite list_elem_of_In in Hc.
    specialize (Hbin c Hc). apply orb_true_iff in Hbin.
    destruct Hbin as [E|E]; apply Ascii.eqb_eq in E; auto.
  - apply existsb_exists in Hone. destruct Hone as (c & Hc & E).
    apply Ascii.eqb_eq in E. subst c. exact Hc.
Qed.

Lemma valid_binary_lexicon_b_sound (L : lexicon) :
  LearnPragmatics.valid_binary_lexicon_b L = true ->
  LearnPragmatics.valid_binary_lexicon L.
Proof.
  unfold LearnPragmatics.valid_binary_lexicon_b,
    LearnPragmatics.valid_binary_lexicon.
  rewrite andb_true_iff. intros [Hlen Hrows].
  apply Nat.eqb_eq in Hlen. split; [exact Hlen|].
  rewrite Forall_forall. intros row Hrow.
  rewrite forallb_forall in Hrows. rewrite list_elem_of_In in Hrow.
  apply valid_row_b_sound, Hrows, Hrow.
Qed.

Lemma valid_row_bits (row : list ascii) :
  LearnPragmatics.valid_row row ->
  exists b0 b1 b2,
    row = LearnPragmatics.row_of b0 b1 b2 /\ (b0 || b1 || b2)%bool = true.
Proof.
  intros (Hlen & Hbin & Hone).
  destruct (binary_row3 row Hbin Hlen) as (b0 & b1 & b2 & ->).
  exists b0, b1, b2. split; [reflexivity|].
  destruct b0, b1, b2; try reflexivity.
  simpl in Hone. intuition discriminate.
Qed.

Lemma languages_complete_bits (a0 a1 a2 b0 b1 b2 c0 c1 c2 : bool) :
  (a0 || a1 || a2)%bool = true ->
  (b0 || b1 || b2)%bool = true ->
  (c0 || c1 || c2)%bool = true ->
  In [LearnPragmatics.row_of a0 a1 a2; LearnPragmatics.row_of b0 b1 b2;
      LearnPragmatics.row_of c0 c1 c2]
     LearnPragmatics.languages.
Proof.
  intros Ha Hb Hc. rewrite <- list_elem_of_In.
  destruct a0, a1, a2; try discriminate Ha;
    destruct b0, b1, b2; try discriminate Hb;
    destruct c0, c1, c2; try discriminate Hc;
    apply (bool_decide_unpack _); vm_compute; exact I.
Qed.

(** C9. The inline enumeration runs without raising and produces exactly
    the valid 3x3 binary lexicons: a matrix is in [languages] if and only
    if it is a 3x3 matrix of ['0'] and ['1'] with at least one ['1'] in
    each row; no matrix appears twice; there are 343 of them. *)
Theorem languages_enumerates_valid_lexicons :
  exists languages,
    LearnPragmatics.build_languages = inr languages
    /\ (forall L, In L languages <-> LearnPragmatics.valid_binary_lexicon L)
    /\ NoDup languages
    /\ length languages = 343%nat.
Proof.
  exists LearnPragmatics.languages.
  split; [exact build_languages_run|]. split; [|split].
  - intros L. split.
    + intros HL. apply valid_binary_lexicon_b_sound.
      assert (Hall : forallb LearnPragmatics.valid_binary_lexicon_b
                       LearnPragmatics.languages = true)
        by (vm_compute; reflexivity).
      rewrite forallb_forall in Hall. apply Hall, HL.
    + intros [Hlen Hrows].
      destruct L as [|ra [|rb [|rc [|]]]]; try discriminate.
      inversion_clear Hrows as [|? ? Ha Hrows'].
      inversion_clear Hrows' as [|? ? Hb Hrows''].
      inversion_clear Hrows'' as [|? ? Hc _].
      destruct (valid_row_bits ra Ha) as (a0 & a1 & a2 & -> & Ea).
      destruct (valid_row_bits rb Hb) as (b0 & b1 & b2 & -> & Eb).
      destruct (valid_row_bits rc Hc) as (c0 & c1 & c2 & -> & Ec).
      apply languages_complete_bits; assumption.
  - apply (bool_decide_unpack _). vm_compute. exact I.
  - reflexivity.
Qed.

(** ** The theorems on the example inputs *)

Lemma example_hypotheses_valid :
  Forall (valid_hypothesis example_context) example_hypotheses.
Proof.
  constructor.
  - split; [exact valid_identity_lexicon|exact example_context_valid_0].
  - constructor; [|constructor].
    split; [exact valid_identity_lexicon|exact example_context_valid_1].
Qed.

Lemma update_posterior_refines_spec_witness :
  Forall (fun h => h_pragmatic_lvl h = 0%Z \/ h_pragmatic_lvl h = 1%Z)
    example_hypotheses
  /\ update_posterior example_hypotheses example_prior "b" example_context
     = update_posterior_spec example_hypotheses example_prior "b"
         example_context.
Proof.
  assert (H : Forall (fun h => h_pragmatic_lvl h = 0%Z \/ h_pragmatic_lvl h = 1%Z)
                example_hypotheses).
  { constructor; [left; reflexivity|].
    constructor; [right; reflexivity|]. constructor. }
  split; [exact H|].
  exact (update_posterior_refines_spec example_hypotheses example_prior "b"
           example_context H).
Defined.

Lemma list1_lit_spkr_cases_witness :
  let row := ["1"; "1"; "0"]%char in
  let language := h_language two_signal_speaker in
  language !! 0%nat = Some row
  /\ length row = length signals
  /\ binary_row row
  /\ example_prior !! 0%nat = Some (ln (1 / 2))
  /\ In "a"%char signals
  /\ (usable row "a" -> (usable_count row < length signals)%nat ->
      list1_lit_spkr "a" 0 language example_prior
      = inr (ln (1 / 2) + ln ((1 - noise) / INR (usable_count row))))
  /\ (usable row "a" -> usable_count row = length signals ->
      list1_lit_spkr "a" 0 language example_prior
      = inr (ln (1 / 2) + ln (1 / INR (usable_count row))))
  /\ (~ usable row "a" ->
      list1_lit_spkr "a" 0 language example_prior
      = inr (ln (1 / 2)
             + ln (noise / (INR (length signals) - INR (usable_count row))))).
Proof.
  intros row language.
  assert (Hrow : language !! 0%nat = Some row) by reflexivity.
  assert (Hlen : length row = length signals) by reflexivity.
  assert (Hbin : binary_row row).
  { constructor; [right; reflexivity|].
    constructor; [right; reflexivity|].
    constructor; [left; reflexivity|]. constructor. }
  assert (Hr : example_prior !! 0%nat = Some (ln (1 / 2))) by reflexivity.
  assert (Hs : In "a"%char signals) by (left; reflexivity).
  repeat (split; [assumption|]).
  exact (list1_lit_spkr_cases "a" 0 language example_prior row (ln (1 / 2))
           Hrow Hlen Hbin Hr Hs).
Defined.

Lemma update_posterior_normalized_witness :
  example_prior <> []
  /\ (length example_prior <= length example_hypotheses)%nat
  /\ Forall (valid_hypothesis example_context) example_hypotheses
  /\ length example_context = length meanings
  /\ In "b"%char signals
  /\ exists posterior',
       update_posterior example_hypotheses example_prior "b" example_context
       = inr posterior'
       /\ length posterior' = length example_prior
       /\ sum_exp posterior' = 1
       /\ logsumexp posterior' = 0.
Proof.
  assert (H1 : example_prior <> []) by discriminate.
  assert (H2 : (length example_prior <= length example_hypotheses)%nat)
    by (simpl; lia).
  assert (H4 : length example_context = length meanings) by reflexivity.
  assert (H5 : In "b"%char signals) by (right; left; reflexivity).
  repeat (split; [assumption || exact example_hypotheses_valid|]).
  exact (update_posterior_normalized example_hypotheses example_prior "b"
           example_context H1 H2 example_hypotheses_valid H4 H5).
Defined.

Lemma produce_level0_witness :
  h_pragmatic_lvl identity_speaker = 0%Z
  /\ valid_hypothesis example_context identity_speaker
  /\ Forall binary_row (h_language identity_speaker)
  /\ length example_context = length meanings
  /\ exists meaning row w selected,
       sample (mental_state (h_perspective identity_speaker) example_context)
         (d_meaning noisy_draws) = inr meaning
       /\ h_language identity_speaker !! meaning = Some row
       /\ wta row (d_wta noisy_draws) = inr w
       /\ signals !! w = Some selected
       /\ (~ (usable_count row <> length signals
              /\ d_uniform noisy_draws < noise) ->
           produce identity_speaker example_context noisy_draws
           = inr (selected, example_context))
       /\ (usable_count row = 1%nat -> d_uniform noisy_draws < noise ->
           exists pool out,
             NoDup pool
             /\ (forall x, In x pool <-> In x signals /\ x <> selected)
             /\ np_random_choice pool (d_choice noisy_draws) = inr out
             /\ produce identity_speaker example_context noisy_draws
                = inr (out, example_context)).
Proof.
  assert (H1 : h_pragmatic_lvl identity_speaker = 0%Z) by reflexivity.
  assert (H2 : valid_hypothesis example_context identity_speaker).
  { split; [exact valid_identity_lexicon|exact example_context_valid_0]. }
  assert (H3 : Forall binary_row (h_language identity_speaker)).
  { repeat (constructor; [repeat (constructor; [auto|])|]); constructor. }
  assert (H4 : length example_context = length meanings) by reflexivity.
  repeat (split; [assumption|]).
  exact (produce_level0 identity_speaker example_context noisy_draws
           H1 H2 H3 H4).
Defined.

Lemma calc_mental_state_domain_witness :
  Forall (fun c => Rabs (0 - c) < 1) example_context
  /\ exists distribution,
       calc_mental_state 0 example_context = inr distribution
       /\ distribution
          = normalize_logprobs
              (map (fun c => ln (1 - Rabs (0 - c))) example_context)
       /\ (example_context <> [] -> sum_exp distribution = 1).
Proof.
  split; [exact example_context_valid_0|].
  exact (proj2 (proj2 (calc_mental_state_domain 0 example_context))
           example_context_valid_0).
Defined.

Lemma update_posterior_twice_witness :
  (length example_prior <= length example_hypotheses)%nat
  /\ Forall (fun h => h_pragmatic_lvl h = 0%Z \/ h_pragmatic_lvl h = 1%Z)
       example_hypotheses
  /\ Forall (valid_hypothesis example_context) example_hypotheses
  /\ length example_context = length meanings
  /\ In "b"%char signals
  /\ exists L posterior1,
       map_py
         (fun i =>
            h <- getitem example_hypotheses i ;;
            log_marginal_likelihood h "b" example_context)
         (range (length example_prior)) = inr L
       /\ length L = length example_prior
       /\ update_posterior example_hypotheses example_prior "b" example_context
          = inr posterior1
       /\ update_posterior example_hypotheses posterior1 "b" example_context
          = inr (normalize_logprobs
                   (zip_with Rplus example_prior (map (fun l => 2 * l) L))).
Proof.
  assert (H2 : (length example_prior <= length example_hypotheses)%nat)
    by (simpl; lia).
  assert (H3 : Forall (fun h => h_pragmatic_lvl h = 0%Z
                                \/ h_pragmatic_lvl h = 1%Z)
                 example_hypotheses).
  { constructor; [left; reflexivity|].
    constructor; [right; reflexivity|]. constructor. }
  assert (H4 : length example_context = length meanings) by reflexivity.
  assert (H5 : In "b"%char signals) by (right; left; reflexivity).
  split; [exact H2|]. split; [exact H3|].
  split; [exact example_hypotheses_valid|].
  split; [exact H4|]. split; [exact H5|].
  exact (update_posterior_twice example_hypotheses example_prior "b"
           example_context H2 H3 example_hypotheses_valid H4 H5).
Defined.

Lemma list1_lit_spkr_mass_witness :
  let row := ["1"; "1"; "0"]%char in
  let language := h_language two_signal_speaker in
  language !! 0%nat = Some row
  /\ length row = length signals
  /\ binary_row row
  /\ (exists s, usable row s)
  /\ example_prior !! 0%nat = Some (ln (1 / 2))
  /\ exists vs,
       map_py (fun s => list1_lit_spkr s 0 language example_prior) signals
       = inr vs
       /\ Rsum (map (fun v => exp (v - ln (1 / 2))) vs) = 1.
Proof.
  intros row language.
  assert (Hrow : language !! 0%nat = Some row) by reflexivity.
  assert (Hlen : length row = length signals) by reflexivity.
  assert (Hbin : binary_row row).
  { constructor; [right; reflexivity|].
    constructor; [right; reflexivity|].
    constructor; [left; reflexivity|]. constructor. }
  assert (Hu : exists s, usable row s).
  { exists "a"%char, 0%nat. split; reflexivity. }
  assert (Hr : example_prior !! 0%nat = Some (ln (1 / 2))) by reflexivity.
  repeat (split; [assumption|]).
  exact (list1_lit_spkr_mass 0 language example_prior row (ln (1 / 2))
           Hrow Hlen Hbin Hu Hr).
Defined.

Lemma update_posterior_frame_witness :
  example_heap !! 0%nat = Some example_prior
  /\ exists res h',
       update_posterior_heap example_hypotheses 0 "b" example_context
         example_heap = (res, h')
       /\ h' !! 0%nat = Some example_prior
       /\ (forall l v, example_heap !! l = Some v -> h' !! l = Some v)
       /\ match res with
          | inr r =>
              r <> 0%nat /\ example_heap !! r = None
              /\ exists v,
                  h' !! r = Some v
                  /\ update_posterior example_hypotheses example_prior "b"
                       example_context = inr v
          | inl e =>
              update_posterior example_hypotheses example_prior "b"
                example_context = inl e
          end.
Proof.
  assert (H : example_heap !! 0%nat = Some example_prior)
    by (apply lookup_singleton_eq).
  split; [exact H|].
  exact (update_posterior_frame example_hypotheses 0 example_prior "b"
           example_context example_heap H).
Defined.

(** ** learn_pragmatics.py agrees with level_prag_learn.py *)

(** Growing a list with [append] is a comprehension. *)
Lemma append_loop {A B : Type} (f : A -> py B) (xs : list A) (init : list B) :
  for_each xs (fun x acc => v <- f x ;; ret (acc ++ [v])) init
  = (vs <- map_py f xs ;; ret (init ++ vs)).
Proof.
  revert init; induction xs as [|x xs IH]; intros init; simpl.
  - rewrite app_nil_r. reflexivity.
  - destruct (f x) as [e|v]; simpl; [reflexivity|].
    rewrite IH. destruct (map_py f xs) as [e|vs]; simpl; [reflexivity|].
    rewrite <- app_assoc. reflexivity.
Qed.

Lemma learn_pragmatics_calc_mental_state (perspective : R) (context : list R) :
  LearnPragmatics.calc_mental_state perspective context
  = calc_mental_state perspective context.
Proof.
  rewrite calc_mental_state_unfold. unfold LearnPragmatics.calc_mental_state.
  rewrite append_loop, bind_assoc. reflexivity.
Qed.

Lemma marked_row_signals_for (row : list ascii) :
  binary_row row -> length row = 3%nat ->
  marked_row row (range (length meanings)) = ret (signals_for row).
Proof.
  intros Hb Hlen.
  destruct (binary_row3 row Hb Hlen) as (b0 & b1 & b2 & ->).
  destruct b0, b1, b2; reflexivity.
Qed.

(** On binary rows the two literal listeners are the same function. *)
Lemma learn_pragmatics_list1_lit_spkr (signal : ascii) (meaning : nat)
    (language : lexicon) (ref_distribution : list R) (row : list ascii) :
  language !! meaning = Some row ->
  binary_row row -> length row = 3%nat ->
  LearnPragmatics.list1_lit_spkr signal meaning language ref_distribution
  = list1_lit_spkr signal meaning language ref_distribution.
Proof.
  intros Hrow Hb Hlen.
  unfold LearnPragmatics.list1_lit_spkr, list1_lit_spkr.
  rewrite (signals_marked_row _ _ _ _ Hrow), (getitem_Some _ _ _ Hrow).
  rewrite marked_row_signals_for by assumption. rewrite !bind_ret.
  destruct (binary_row3 row Hb Hlen) as (b0 & b1 & b2 & ->).
  destruct b0, b1, b2; reflexivity.
Qed.

Lemma learn_pragmatics_perception (language : lexicon)
    (ref_distribution : list R) :
  binary_lexicon language -> length ref_distribution = 3%nat ->
  LearnPragmatics.list1_perception_matrix language ref_distribution
  = ret (perception language ref_distribution).
Proof.
  intros [HL Hbin] Href. unfold LearnPragmatics.list1_perception_matrix.
  rewrite (for_each_ext _ _
             (fun s mat =>
                v <- (row <- map_py
                               (fun m => LearnPragmatics.list1_lit_spkr s m
                                           language ref_distribution)
                               meanings ;;
                      ret (normalize_logprobs row)) ;;
                ret (mat ++ [v]))).
  2:{ intros s mat. rewrite append_loop, !bind_assoc. reflexivity. }
  rewrite append_loop.
  rewrite (map_py_pure _
             (fun sig => normalize_logprobs
                           (map (lit language ref_distribution sig) meanings))).
  - reflexivity.
  - intros sig Hsig.
    rewrite (map_py_pure _ (lit language ref_distribution sig));
      [reflexivity|].
    intros m Hm. change meanings with (range 3) in Hm. apply in_range in Hm.
    destruct (valid_lexicon_row language m HL Hm) as [Hrow Hlen].
    rewrite (learn_pragmatics_list1_lit_spkr sig m language ref_distribution
               (nth m language [])); try assumption.
    + apply list1_lit_spkr_lit; assumption.
    + rewrite Forall_forall in Hbin. apply Hbin.
      apply list_elem_of_lookup. eauto.
Qed.

Lemma softmax_pos (u : list R) (x : R) : In x (softmax u) -> 0 < x.
Proof.
  unfold softmax. rewrite in_map_iff. intros (y & <- & Hy).
  apply Rdiv_lt_0_compat; [apply exp_pos|].
  apply sum_exp_pos. intros E. rewrite E in Hy. destruct Hy.
Qed.

Lemma learn_pragmatics_production (meaning : nat) (language : lexicon)
    (mental_state : list R) :
  binary_lexicon language -> length mental_state = 3%nat ->
  (meaning < 3)%nat ->
  LearnPragmatics.spkr1_production_probs meaning language mental_state
  = ret (production meaning language mental_state).
Proof.
  intros HB Href Hm. unfold LearnPragmatics.spkr1_production_probs, production.
  rewrite (map_py_pure _
             (fun s => alpha * nth meaning
                                 (nth s (perception language mental_state) []) 0)).
  - rewrite bind_ret. apply map_py_pure. intros x Hx.
    apply log_pos, (softmax_pos _ _ Hx).
  - intros s Hs. apply in_range in Hs. change (length signals) with 3%nat in Hs.
    rewrite learn_pragmatics_perception by assumption. rewrite bind_ret.
    rewrite (getitem_Some _ _ (nth s (perception language mental_state) []))
      by (apply lookup_nth; rewrite perception_length; exact Hs).
    rewrite bind_ret.
    rewrite (getitem_Some _ _
               (nth meaning (nth s (perception language mental_state) []) 0))
      by (apply lookup_nth; rewrite perception_row_length by exact Hs;
          exact Hm).
    reflexivity.
Qed.

(** The pragmatic listener of learn_pragmatics.py returns the number that
    the one of level_prag_learn.py returns in a one-element array. *)
Lemma learn_pragmatics_list2_spkr1 (signal : ascii) (meaning : nat)
    (language : lexicon) (ref_distribution : list R) :
  binary_lexicon language -> length ref_distribution = 3%nat ->
  (meaning < 3)%nat -> In signal signals ->
  exists x,
    LearnPragmatics.list2_spkr1 signal meaning language ref_distribution
    = inr x
    /\ list2_spkr1 signal meaning language ref_distribution = inr [x].
Proof.
  intros HB Href Hm Hs.
  assert (Hidx : exists s, signals !! s = Some signal
                           /\ LearnPragmatics.index_of signal signals = ret s).
  { destruct Hs as [<-|[<-|[<-|[]]]];
      [exists 0%nat|exists 1%nat|exists 2%nat]; split; reflexivity. }
  destruct Hidx as (s & Hsig & Hidx).
  exists (nth meaning ref_distribution 0
          + nth s (noisy (production meaning language ref_distribution)) 0).
  split.
  - unfold LearnPragmatics.list2_spkr1. rewrite Hidx, bind_ret.
    rewrite learn_pragmatics_production by assumption. rewrite bind_ret.
    rewrite noise_loop_value, bind_ret.
    rewrite (getitem_Some _ _ (nth meaning ref_distribution 0))
      by (apply lookup_nth; lia).
    rewrite bind_ret.
    rewrite (getitem_Some _ _
               (nth s (noisy (production meaning language ref_distribution)) 0)).
    + reflexivity.
    + apply lookup_nth. rewrite noisy_length, production_length.
      apply lookup_lt_Some in Hsig. exact Hsig.
  - apply list2_spkr1_value; try assumption. apply HB.
Qed.

(** X25. On binary lexicons, contexts in the domain of the mental-state
    model and signals of the alphabet, the update of learn_pragmatics.py
    (lists grown with [append], [signals.index], [math.log] on the softmax)
    is the update of level_prag_learn.py on the same pairs taken at
    pragmatic level 1. *)
Lemma learn_pragmatics_update_posterior (lp_pairs : list (lexicon * R))
    (posterior : list R) (signal : ascii) (context : list R) :
  (length posterior <= length lp_pairs)%nat ->
  Forall (fun pair => binary_lexicon (fst pair)
                      /\ Forall (fun c => Rabs (snd pair - c) < 1) context)
    lp_pairs ->
  length context = length meanings ->
  In signal signals ->
  LearnPragmatics.update_posterior lp_pairs posterior signal context
  = update_posterior (map LearnPragmatics.as_hypothesis lp_pairs) posterior
      signal context.
Proof.
  intros Hle Hv Hlen Hs.
  rewrite update_posterior_unfold. unfold LearnPragmatics.update_posterior.
  rewrite (for_each_ext _ _
             (fun i acc =>
                v <- (pair <- getitem lp_pairs i ;;
                      ref_distribution <-
                        LearnPragmatics.calc_mental_state (snd pair) context ;;
                      marginalize <-
                        map_py
                          (fun meaning =>
                             LearnPragmatics.list2_spkr1 signal meaning
                               (fst pair) ref_distribution)
                          meanings ;;
                      p <- getitem posterior i ;;
                      ret (p + logsumexp marginalize)) ;;
                ret (acc ++ [v]))).
  2:{ intros i acc. rewrite bind_assoc. apply bind_ext. intros pair.
      cbv zeta. rewrite bind_assoc. apply bind_ext. intros ref.
      rewrite append_loop, !bind_assoc. apply bind_ext. intros marg.
      rewrite bind_ret. rewrite bind_assoc. reflexivity. }
  rewrite append_loop. simpl app.
  replace (fun vs : list R => ret vs) with (@ret (list R)) by reflexivity.
  rewrite bind_ret_r. f_equal.
  apply map_py_ext. intros i Hi. apply in_range in Hi.
  destruct (lp_pairs !! i) as [pair|] eqn:Hpair;
    [|apply lookup_ge_None in Hpair; lia].
  rewrite Forall_forall in Hv.
  destruct (Hv pair) as [HB Hctx]; [apply list_elem_of_lookup; eauto|].
  unfold hypothesis_evidence.
  rewrite (getitem_Some _ _ _ Hpair), bind_ret.
  rewrite (getitem_Some _ _ (LearnPragmatics.as_hypothesis pair))
    by (rewrite list_lookup_fmap, Hpair; reflexivity).
  rewrite bind_ret. cbv zeta. simpl h_perspective. simpl h_language.
  simpl h_pragmatic_lvl. simpl Z.eqb. cbv iota.
  rewrite learn_pragmatics_calc_mental_state.
  rewrite calc_mental_state_ok by exact Hctx. rewrite !bind_ret.
  fold (mental_state (snd pair) context).
  set (ref := mental_state (snd pair) context).
  assert (Href : length ref = 3%nat)
    by (unfold ref; rewrite mental_state_length; exact Hlen).
  rewrite marginalize_loop_level1.
  assert (Hm : map_py
                 (fun m => LearnPragmatics.list2_spkr1 signal m (fst pair) ref)
                 meanings
               = map_py
                   (fun m => v <- list2_spkr1 signal m (fst pair) ref ;;
                             scalar v)
                   meanings).
  { apply map_py_ext. intros m Hmm.
    change meanings with (range 3) in Hmm. apply in_range in Hmm.
    destruct (learn_pragmatics_list2_spkr1 signal m (fst pair) ref HB Href
                Hmm Hs) as (x & -> & ->).
    reflexivity. }
  rewrite Hm, !bind_assoc. apply bind_ext. intros marg.
  rewrite bind_ret. reflexivity.
Qed.

Lemma binary_identity_lexicon : binary_lexicon identity_lexicon.
Proof.
  split; [exact valid_identity_lexicon|].
  repeat (constructor; [repeat (constructor; [auto|])|]); constructor.
Qed.

(** The same divergence in learn_pragmatics.py, whose pragmatic listener
    runs the same loop. *)
Lemma learn_pragmatics_list2_spkr1_second_signal (r0 r1 r2 : R) :
  exists p x,
    LearnPragmatics.spkr1_production_probs 0 identity_lexicon [r0; r1; r2]
    = inr p
    /\ LearnPragmatics.list2_spkr1 "b" 0 identity_lexicon [r0; r1; r2] = inr x
    /\ x < r0 + noisy_spec p 1.
Proof.
  exists (production 0 identity_lexicon [r0; r1; r2]).
  destruct (learn_pragmatics_list2_spkr1 "b" 0 identity_lexicon [r0; r1; r2]
              binary_identity_lexicon eq_refl)
    as (x & Hx & Hy); [lia|right; left; reflexivity|].
  exists x. split; [|split].
  - apply learn_pragmatics_production;
      [exact binary_identity_lexicon|reflexivity|lia].
  - exact Hx.
  - rewrite (list2_spkr1_value 1) in Hy;
      [|apply valid_identity_lexicon|reflexivity|lia|reflexivity].
    injection Hy as <-. simpl (nth 0 [r0; r1; r2] 0).
    apply Rplus_lt_compat_l, noisy_identity_second.
Qed.

(** * Further properties of the code *)

(** ** Distributions built by the speaker and listener stack *)

Lemma sum_exp_ln_scaled (S : R) (l : list R) :
  0 < S -> sum_exp (map ln (map (fun x => exp x / S) l)) = sum_exp l / S.
Proof.
  intros HS. induction l as [|x l IH]; simpl.
  - unfold Rdiv. lra.
  - rewrite IH. rewrite exp_ln by (apply Rdiv_lt_0_compat; [apply exp_pos|exact HS]).
    field. lra.
Qed.

Lemma sum_exp_log_softmax (u : list R) :
  u <> [] -> sum_exp (map ln (softmax u)) = 1.
Proof.
  intros Hu. unfold softmax. pose proof (sum_exp_pos u Hu) as HS.
  rewrite sum_exp_ln_scaled by exact HS. field. lra.
Qed.

(** X1. On a 3x3 lexicon, a mental state of three entries and a meaning in
    range, [spkr1_production_probs] returns three log-probabilities whose
    exponentials sum to 1. *)
Theorem spkr1_production_probs_distribution (meaning : nat)
    (language : lexicon) (mental_state : list R) :
  valid_lexicon language -> length mental_state = 3%nat ->
  (meaning < 3)%nat ->
  exists p,
    spkr1_production_probs meaning language mental_state = inr p
    /\ length p = 3%nat
    /\ sum_exp p = 1.
Proof.
  intros HL Hms Hm.
  exists (production meaning language mental_state).
  split; [apply spkr1_production_probs_value; assumption|].
  split; [apply production_length|].
  unfold production. apply sum_exp_log_softmax. discriminate.
Qed.

(** X2. On a 3x3 lexicon and a reference distribution of three entries,
    [list1_perception_matrix] returns a 3x3 matrix, one row per signal,
    and every row is a distribution over the meanings: its exponentials
    sum to 1. *)
Theorem list1_perception_matrix_rows (language : lexicon)
    (ref_distribution : list R) :
  valid_lexicon language -> length ref_distribution = 3%nat ->
  exists mat,
    list1_perception_matrix language ref_distribution = inr mat
    /\ length mat = length signals
    /\ Forall (fun row => length row = length meanings /\ sum_exp row = 1) mat.
Proof.
  intros HL Href. exists (perception language ref_distribution).
  split; [apply list1_perception_matrix_value; assumption|].
  split; [reflexivity|].
  unfold perception. simpl map at 1.
  repeat (constructor;
          [split; [reflexivity|apply normalize_logprobs_sum; discriminate]|]).
  constructor.
Qed.

(** ** Mental state *)

Lemma nth_normalize_logprobs (v : list R) (i : nat) :
  (i < length v)%nat ->
  nth i (normalize_logprobs v) 0 = nth i v 0 - logsumexp v.
Proof.
  intros Hi. unfold normalize_logprobs.
  rewrite (nth_indep _ 0 (0 - logsumexp v)) by (rewrite length_map; exact Hi).
  rewrite (map_nth (fun x => x - logsumexp v)). reflexivity.
Qed.

(** X3. [calc_mental_state] ranks the objects by their distance to the
    perspective: in a context of its domain, an object strictly closer to
    the perspective than another gets a strictly larger log-probability. *)
Theorem calc_mental_state_closer (perspective : R) (context : list R)
    (i j : nat) (ci cj : R) :
  Forall (fun c => Rabs (perspective - c) < 1) context ->
  context !! i = Some ci -> context !! j = Some cj ->
  Rabs (perspective - ci) < Rabs (perspective - cj) ->
  exists distribution pi pj,
    calc_mental_state perspective context = inr distribution
    /\ distribution !! i = Some pi /\ distribution !! j = Some pj
    /\ pj < pi.
Proof.
  intros Hv Hi Hj Hlt.
  set (w := map (fun c => ln (1 - Rabs (perspective - c))) context).
  assert (Hlen : length w = length context) by apply length_map.
  pose proof (lookup_lt_Some _ _ _ Hi) as Li.
  pose proof (lookup_lt_Some _ _ _ Hj) as Lj.
  exists (normalize_logprobs w), (nth i (normalize_logprobs w) 0),
         (nth j (normalize_logprobs w) 0).
  split; [apply calc_mental_state_ok, Hv|].
  split; [apply lookup_nth; rewrite normalize_logprobs_length; lia|].
  split; [apply lookup_nth; rewrite normalize_logprobs_length; lia|].
  rewrite !nth_normalize_logprobs by lia.
  assert (Wi : nth i w 0 = ln (1 - Rabs (perspective - ci))).
  { apply (nth_lookup_Some w i 0). unfold w.
    rewrite list_lookup_fmap, Hi. reflexivity. }
  assert (Wj : nth j w 0 = ln (1 - Rabs (perspective - cj))).
  { apply (nth_lookup_Some w j 0). unfold w.
    rewrite list_lookup_fmap, Hj. reflexivity. }
  rewrite Wi, Wj.
  rewrite Forall_forall in Hv.
  assert (Hcj : Rabs (perspective - cj) < 1)
    by (apply Hv, list_elem_of_lookup; eauto).
  assert (H : ln (1 - Rabs (perspective - cj))
              < ln (1 - Rabs (perspective - ci)))
    by (apply ln_increasing; lra).
  lra.
Qed.

(** ** Literal listener: edge cases *)

(** X4. For a signal that is not in the alphabet, on a row of three
    entries, the literal listener raises [ZeroDivisionError] when every
    entry of the row is usable (different from ['0']), and otherwise
    returns [ref_distribution[meaning] + log(noise/(3 - k))], [k] being the
    number of usable entries. *)
Theorem list1_lit_spkr_unknown_signal (signal : ascii) (meaning : nat)
    (language : lexicon) (ref_distribution : list R) (row : list ascii)
    (r : R) :
  language !! meaning = Some row ->
  length row = 3%nat ->
  ref_distribution !! meaning = Some r ->
  ~ In signal signals ->
  (Forall (fun c => c <> "0"%char) row ->
   list1_lit_spkr signal meaning language ref_distribution
   = inl ZeroDivisionError)
  /\ (Exists (fun c => c = "0"%char) row ->
      list1_lit_spkr signal meaning language ref_distribution
      = inr (r + ln (noise / (3 - INR (length (signals_for row)))))).
Proof.
  intros Hrow Hlen Hr Hs.
  destruct row as [|c0 [|c1 [|c2 [|]]]]; try discriminate.
  assert (Ea : Ascii.eqb signal "a" = false)
    by (apply Ascii.eqb_neq; intros ->; apply Hs; simpl; auto).
  assert (Eb : Ascii.eqb signal "b" = false)
    by (apply Ascii.eqb_neq; intros ->; apply Hs; simpl; auto).
  assert (Ec : Ascii.eqb signal "c" = false)
    by (apply Ascii.eqb_neq; intros ->; apply Hs; simpl; auto).
  unfold list1_lit_spkr.
  rewrite (getitem_Some _ _ _ Hrow), (getitem_Some _ _ _ Hr), bind_ret.
  unfold take_indices, np_where, signals_for, elem.
  split.
  - intros Hall.
    inversion_clear Hall as [|? ? H0 Hall']. inversion_clear Hall' as [|? ? H1 Hall''].
    inversion_clear Hall'' as [|? ? H2 _].
    apply Ascii.eqb_neq in H0, H1, H2.
    simpl. rewrite H0, H1, H2. simpl. rewrite Ea, Eb, Ec. simpl.
    norm_Z. unfold div. destruct (Req_dec_T 0 0); [reflexivity|congruence].
  - intros Hex.
    destruct (Ascii.eqb c0 "0") eqn:E0, (Ascii.eqb c1 "0") eqn:E1,
             (Ascii.eqb c2 "0") eqn:E2;
      simpl; rewrite ?E0, ?E1, ?E2; simpl; rewrite ?Ea, ?Eb, ?Ec; simpl;
      try (norm_Z; py_eval; unfold ret; do 2 f_equal; f_equal; real_side).
    exfalso. apply Ascii.eqb_neq in E0, E1, E2.
    inversion_clear Hex as [? ? H|? ? Hex']; [congruence|].
    inversion_clear Hex' as [? ? H|? ? Hex'']; [congruence|].
    inversion_clear Hex'' as [? ? H|? ? Hex''']; [congruence|].
    inversion Hex'''.
Qed.

(** X5. On a degenerate row (no usable signal) the literal listener does
    not raise: every signal of the alphabet gets
    [ref_distribution[meaning] + log(noise/3)], so that the mass spread
    over the signals is [noise], not 1. *)
Theorem list1_lit_spkr_zero_row (meaning : nat) (language : lexicon)
    (ref_distribution : list R) (r : R) :
  language !! meaning = Some ["0"; "0"; "0"]%char ->
  ref_distribution !! meaning = Some r ->
  exists vs,
    map_py (fun s => list1_lit_spkr s meaning language ref_distribution)
      signals = inr vs
    /\ Forall (fun v => v = r + ln (noise / 3)) vs
    /\ Rsum (map (fun v => exp (v - r)) vs) = noise.
Proof.
  intros Hrow Hr. eexists. split.
  - apply map_py_pure. intros s Hs.
    apply (list1_lit_spkr_value s meaning language ref_distribution
             ["0"; "0"; "0"]%char r); (assumption || reflexivity).
  - unfold lit_term, Rsum. simpl. split.
    + repeat (constructor; [f_equal; f_equal; lra|]). constructor.
    + rewrite !exp_shift_ln by real_side. real_side.
Qed.

(** X6. On a binary row of three entries, the literal listener gives a
    usable signal a strictly larger log-probability than a signal that is
    not usable. *)
Theorem list1_lit_spkr_prefers_usable (s s' : ascii) (meaning : nat)
    (language : lexicon) (ref_distribution : list R) (row : list ascii)
    (r : R) :
  language !! meaning = Some row ->
  length row = 3%nat ->
  binary_row row ->
  ref_distribution !! meaning = Some r ->
  In s signals -> In s' signals ->
  usable row s -> ~ usable row s' ->
  exists v v',
    list1_lit_spkr s meaning language ref_distribution = inr v
    /\ list1_lit_spkr s' meaning language ref_distribution = inr v'
    /\ v' < v.
Proof.
  intros Hrow Hlen Hb Hr Hs Hs' Hu Hu'.
  do 2 eexists.
  split; [apply (list1_lit_spkr_value s meaning language ref_distribution row r);
          assumption|].
  split; [apply (list1_lit_spkr_value s' meaning language ref_distribution row r);
          assumption|].
  apply (usable_elem row s Hb Hlen) in Hu.
  assert (Hn : elem s' (signals_for row) = false).
  { destruct (elem s' (signals_for row)) eqn:E; [|reflexivity].
    exfalso. apply Hu', (usable_elem row s' Hb Hlen), E. }
  rewrite Hu, Hn. apply Rplus_lt_compat_l.
  destruct (binary_row3 row Hb Hlen) as (b0 & b1 & b2 & ->).
  unfold lit_term.
  destruct b0, b1, b2; simpl in Hu, Hn |- *;
    try discriminate Hu; try discriminate Hn;
    try (apply ln_increasing; real_side).
  all: destruct Hs' as [<-|[<-|[<-|[]]]]; discriminate Hn.
Qed.

(** ** Posterior update: errors and edge cases *)

Lemma map_py_app {A B : Type} (f : A -> py B) (xs ys : list A) :
  map_py f (xs ++ ys)
  = (us <- map_py f xs ;; vs <- map_py f ys ;; ret (us ++ vs)).
Proof.
  induction xs as [|x xs IH]; simpl.
  - destruct (map_py f ys); reflexivity.
  - destruct (f x) as [e|y]; simpl; [reflexivity|].
    rewrite IH. destruct (map_py f xs) as [e|us]; simpl; [reflexivity|].
    destruct (map_py f ys); reflexivity.
Qed.

(** The first index at which the element raises decides the error of a
    comprehension over a range. *)
Lemma map_py_range_error {B : Type} (f : nat -> py B) (n k : nat) (e : exn) :
  (k < n)%nat ->
  (forall i, (i < k)%nat -> exists y, f i = inr y) ->
  f k = inl e ->
  map_py f (range n) = inl e.
Proof.
  intros Hk Hok He. unfold range.
  replace n with (k + (1 + (n - k - 1)))%nat by lia.
  rewrite seq_app, map_py_app. simpl seq.
  destruct (map_py_total f (seq 0 k)) as [us Hus].
  { intros i Hi. apply in_seq in Hi. apply Hok. lia. }
  rewrite Hus. simpl. rewrite He. reflexivity.
Qed.

Lemma signal_index (signal : ascii) :
  In signal signals -> exists s, signals !! s = Some signal.
Proof.
  intros H. rewrite <- list_elem_of_In in H.
  apply list_elem_of_lookup in H. exact H.
Qed.

(** X7. A posterior with more entries than there are hypotheses makes
    [update_posterior] raise [IndexError] (at [hypotheses[i]]), even though
    every hypothesis is well formed. *)
Theorem update_posterior_too_long (hypotheses : list hypothesis)
    (posterior : list R) (signal : ascii) (context : list R) :
  (length hypotheses < length posterior)%nat ->
  Forall (valid_hypothesis context) hypotheses ->
  length context = length meanings ->
  In signal signals ->
  update_posterior hypotheses posterior signal context = inl IndexError.
Proof.
  intros Hlt Hv Hlen Hs. rewrite update_posterior_evidence.
  destruct (signal_index signal Hs) as [s Hsig].
  rewrite (map_py_range_error _ _ (length hypotheses) IndexError);
    [reflexivity|exact Hlt| |].
  - intros i Hi.
    destruct (hypotheses !! i) as [h|] eqn:Hh;
      [|apply lookup_ge_None in Hh; lia].
    exists (evidence_value h s signal context).
    apply (hypothesis_evidence_value hypotheses i s h); try assumption.
    rewrite Forall_forall in Hv. apply Hv, list_elem_of_lookup. eauto.
  - unfold hypothesis_evidence, getitem.
    rewrite (proj2 (lookup_ge_None hypotheses (length hypotheses)))
      by lia.
    reflexivity.
Qed.

(** X8. For a hypothesis whose pragmatic level is neither 0 nor 1 the
    marginalisation array keeps its zeros: the evidence is [log(3)]
    whatever the signal and the lexicon, so the observation is ignored. *)
Theorem hypothesis_evidence_unknown_level (hypotheses : list hypothesis)
    (i : nat) (h : hypothesis) (signal : ascii) (context : list R) :
  hypotheses !! i = Some h ->
  h_pragmatic_lvl h <> 0%Z -> h_pragmatic_lvl h <> 1%Z ->
  Forall (fun c => Rabs (h_perspective h - c) < 1) context ->
  hypothesis_evidence hypotheses i signal context = inr (ln 3).
Proof.
  intros Hh H0 H1 Hctx. unfold hypothesis_evidence.
  rewrite (getitem_Some _ _ _ Hh), bind_ret.
  rewrite calc_mental_state_ok by exact Hctx. rewrite bind_ret. cbv zeta.
  destruct (Z.eqb_spec (h_pragmatic_lvl h) 0) as [E|_]; [contradiction|].
  destruct (Z.eqb_spec (h_pragmatic_lvl h) 1) as [E|_]; [contradiction|].
  rewrite bind_ret. unfold ret, logsumexp. simpl. rewrite exp_0.
  do 2 f_equal. lra.
Qed.

(** X9. A signal that is not in the alphabet: the pragmatic listener of
    level_prag_learn.py returns an empty array, which the update cannot
    store, so the evidence of a level-1 hypothesis raises [ValueError];
    the pragmatic listener of learn_pragmatics.py raises [ValueError] at
    [signals.index], on every input. *)
Theorem unknown_signal_pragmatic (hypotheses : list hypothesis) (i : nat)
    (h : hypothesis) (signal : ascii) (context : list R) :
  hypotheses !! i = Some h ->
  h_pragmatic_lvl h = 1%Z ->
  valid_hypothesis context h ->
  length context = length meanings ->
  ~ In signal signals ->
  (forall m, (m < 3)%nat ->
     list2_spkr1 signal m (h_language h)
       (mental_state (h_perspective h) context) = inr [])
  /\ hypothesis_evidence hypotheses i signal context = inl ValueError
  /\ (forall m language ref_distribution,
        LearnPragmatics.list2_spkr1 signal m language ref_distribution
        = inl ValueError).
Proof.
  intros Hh Hlvl [HL Hctx] Hlen Hs.
  change (length meanings) with 3%nat in Hlen.
  assert (Ea : Ascii.eqb signal "a" = false)
    by (apply Ascii.eqb_neq; intros ->; apply Hs; simpl; auto).
  assert (Eb : Ascii.eqb signal "b" = false)
    by (apply Ascii.eqb_neq; intros ->; apply Hs; simpl; auto).
  assert (Ec : Ascii.eqb signal "c" = false)
    by (apply Ascii.eqb_neq; intros ->; apply Hs; simpl; auto).
  assert (Hwhere : np_where (Ascii.eqb signal) signals = [])
    by (unfold np_where; simpl; rewrite Ea, Eb, Ec; reflexivity).
  set (ref := mental_state (h_perspective h) context).
  assert (Href : length ref = 3%nat)
    by (unfold ref; rewrite mental_state_length; exact Hlen).
  assert (Hlist2 : forall m, (m < 3)%nat ->
            list2_spkr1 signal m (h_language h) ref = inr []).
  { intros m Hm. unfold list2_spkr1.
    rewrite spkr1_production_probs_value by assumption. rewrite bind_ret.
    rewrite noise_loop_value, bind_ret.
    rewrite (getitem_Some _ _ (nth m ref 0)) by (apply lookup_nth; lia).
    rewrite bind_ret, Hwhere. reflexivity. }
  split; [exact Hlist2|]. split.
  - unfold hypothesis_evidence.
    rewrite (getitem_Some _ _ _ Hh), bind_ret.
    rewrite calc_mental_state_ok by exact Hctx. rewrite bind_ret. cbv zeta.
    fold (mental_state (h_perspective h) context). fold ref.
    rewrite Hlvl. simpl Z.eqb. cbv iota.
    rewrite marginalize_loop_level1. unfold meanings. cbn [map_py].
    rewrite Hlist2 by lia. reflexivity.
  - intros m language ref_distribution.
    unfold LearnPragmatics.list2_spkr1, LearnPragmatics.index_of.
    rewrite Hwhere. reflexivity.
Qed.

(** X10. A context outside the domain of the mental-state model (some
    entry at distance at least 1 from the perspective) makes [produce]
    raise [ValueError], and makes [update_posterior] raise [ValueError] as
    soon as the first hypothesis has such a perspective. *)
Theorem domain_error_propagates (hypotheses : list hypothesis)
    (system : hypothesis) (posterior : list R) (signal : ascii)
    (context : list R) (d : draws) :
  Exists (fun c => Rabs (h_perspective system - c) >= 1) context ->
  produce system context d = inl ValueError
  /\ (hypotheses !! 0%nat = Some system -> posterior <> [] ->
      update_posterior hypotheses posterior signal context = inl ValueError).
Proof.
  intros Hex. split.
  - unfold produce. cbv zeta.
    rewrite calc_mental_state_fail by exact Hex. reflexivity.
  - intros Hh Hne. rewrite update_posterior_evidence.
    rewrite (map_py_range_error _ _ 0 ValueError); [reflexivity| | |].
    + destruct posterior; [congruence|simpl; lia].
    + intros i Hi. lia.
    + unfold hypothesis_evidence.
      rewrite (getitem_Some _ _ _ Hh), bind_ret.
      rewrite calc_mental_state_fail by exact Hex. reflexivity.
Qed.

(** ** Posterior update: composition *)

Lemma zip_with_swap (p a b : list R) :
  zip_with Rplus (zip_with Rplus p a) b
  = zip_with Rplus (zip_with Rplus p b) a.
Proof.
  revert a b; induction p as [|x p IH]; intros [|y a] [|z b]; simpl;
    try reflexivity.
  rewrite IH. f_equal. ring.
Qed.

(** One update, then another, on well-formed inputs. *)
Lemma update_posterior_then (hypotheses : list hypothesis)
    (posterior L1 L2 : list R) (s1 s2 : ascii) (c1 c2 : list R) :
  map_py (fun i => hypothesis_evidence hypotheses i s1 c1)
    (range (length posterior)) = inr L1 ->
  map_py (fun i => hypothesis_evidence hypotheses i s2 c2)
    (range (length posterior)) = inr L2 ->
  exists posterior1,
    update_posterior hypotheses posterior s1 c1 = inr posterior1
    /\ update_posterior hypotheses posterior1 s2 c2
       = inr (normalize_logprobs
                (zip_with Rplus (zip_with Rplus posterior L1) L2)).
Proof.
  intros H1 H2.
  pose proof (map_py_length _ _ _ H1) as Hl1.
  unfold range in Hl1. rewrite length_seq in Hl1.
  exists (normalize_logprobs (zip_with Rplus posterior L1)). split.
  - rewrite update_posterior_evidence, H1. reflexivity.
  - rewrite update_posterior_evidence.
    rewrite normalize_logprobs_length, length_zip_with.
    replace (length posterior `min` length L1)%nat with (length posterior)
      by lia.
    rewrite H2, bind_ret. unfold ret. f_equal.
    unfold normalize_logprobs at 2.
    rewrite zip_with_shift, normalize_logprobs_shift. reflexivity.
Qed.

(** X11. The order of two observations does not matter: on well-formed
    inputs, updating with [(s1, c1)] and then [(s2, c2)] returns the same
    posterior as updating with [(s2, c2)] and then [(s1, c1)], namely
    [normalize_logprobs(P + L1 + L2)]. *)
Theorem update_posterior_commutes (hypotheses : list hypothesis)
    (posterior : list R) (s1 s2 : ascii) (c1 c2 : list R) :
  (length posterior <= length hypotheses)%nat ->
  Forall (valid_hypothesis c1) hypotheses ->
  Forall (valid_hypothesis c2) hypotheses ->
  length c1 = length meanings -> length c2 = length meanings ->
  In s1 signals -> In s2 signals ->
  exists L1 L2 posterior1 posterior2,
    map_py (fun i => hypothesis_evidence hypotheses i s1 c1)
      (range (length posterior)) = inr L1
    /\ map_py (fun i => hypothesis_evidence hypotheses i s2 c2)
         (range (length posterior)) = inr L2
    /\ update_posterior hypotheses posterior s1 c1 = inr posterior1
    /\ update_posterior hypotheses posterior s2 c2 = inr posterior2
    /\ update_posterior hypotheses posterior1 s2 c2
       = inr (normalize_logprobs
                (zip_with Rplus (zip_with Rplus posterior L1) L2))
    /\ update_posterior hypotheses posterior2 s1 c1
       = update_posterior hypotheses posterior1 s2 c2.
Proof.
  intros Hle Hv1 Hv2 Hc1 Hc2 Hs1 Hs2.
  destruct (evidence_total hypotheses (length posterior) s1 c1 Hle Hv1 Hc1 Hs1)
    as [L1 H1].
  destruct (evidence_total hypotheses (length posterior) s2 c2 Hle Hv2 Hc2 Hs2)
    as [L2 H2].
  destruct (update_posterior_then hypotheses posterior L1 L2 s1 s2 c1 c2 H1 H2)
    as (P1 & HP1 & HQ1).
  destruct (update_posterior_then hypotheses posterior L2 L1 s2 s1 c2 c1 H2 H1)
    as (P2 & HP2 & HQ2).
  exists L1, L2, P1, P2.
  repeat (split; [assumption|]).
  rewrite HQ1, HQ2, zip_with_swap. reflexivity.
Qed.

Lemma nth_zip_with_Rplus (p e : list R) (i : nat) :
  (i < length p)%nat -> length e = length p ->
  nth i (zip_with Rplus p e) 0 = nth i p 0 + nth i e 0.
Proof.
  revert e i; induction p as [|x p IH]; intros [|y e] i Hi He; simpl in *;
    try lia.
  destruct i as [|i]; [reflexivity|]. apply IH; lia.
Qed.

(** X12. Bayes' rule in log-odds form: on well-formed inputs, the
    difference between the updated log-probabilities of two hypotheses is
    the difference between their prior log-probabilities plus the
    difference of their evidences. *)
Theorem update_posterior_log_odds (hypotheses : list hypothesis)
    (posterior : list R) (signal : ascii) (context : list R) (i j : nat) :
  (length posterior <= length hypotheses)%nat ->
  Forall (valid_hypothesis context) hypotheses ->
  length context = length meanings ->
  In signal signals ->
  (i < length posterior)%nat -> (j < length posterior)%nat ->
  exists L posterior',
    map_py (fun i => hypothesis_evidence hypotheses i signal context)
      (range (length posterior)) = inr L
    /\ update_posterior hypotheses posterior signal context = inr posterior'
    /\ nth i posterior' 0 - nth j posterior' 0
       = (nth i posterior 0 - nth j posterior 0) + (nth i L 0 - nth j L 0).
Proof.
  intros Hle Hv Hlen Hs Hi Hj.
  destruct (evidence_total hypotheses (length posterior) signal context
              Hle Hv Hlen Hs) as [L HL].
  pose proof (map_py_length _ _ _ HL) as Hl.
  unfold range in Hl. rewrite length_seq in Hl.
  exists L, (normalize_logprobs (zip_with Rplus posterior L)).
  split; [exact HL|]. split.
  - rewrite update_posterior_evidence, HL. reflexivity.
  - rewrite !nth_normalize_logprobs by (rewrite length_zip_with; lia).
    rewrite !nth_zip_with_Rplus by assumption. ring.
Qed.

(** ** Pragmatic listener: the first signal *)

(** X13. For the first signal of the alphabet the pragmatic listener is a
    proper noise mixture: in probability space its value, once
    [ref_distribution[meaning]] is subtracted, is
    [(1 - noise) * p_a + noise * (p_b + p_c) / 2], with [p] the
    probabilities of [spkr1_production_probs]. *)
Theorem list2_spkr1_first_signal_mixture (meaning : nat) (language : lexicon)
    (ref_distribution : list R) :
  valid_lexicon language -> length ref_distribution = 3%nat ->
  (meaning < 3)%nat ->
  exists p x,
    spkr1_production_probs meaning language ref_distribution = inr p
    /\ list2_spkr1 "a" meaning language ref_distribution = inr [x]
    /\ exp (x - nth meaning ref_distribution 0)
       = (1 - noise) * exp (nth 0 p 0)
         + noise * (exp (nth 1 p 0) + exp (nth 2 p 0)) / 2.
Proof.
  intros HL Href Hm.
  exists (production meaning language ref_distribution). eexists.
  split; [apply spkr1_production_probs_value; assumption|].
  split; [apply (list2_spkr1_value 0); (assumption || reflexivity)|].
  destruct (production_three meaning language ref_distribution)
    as (p0 & p1 & p2 & ->).
  rewrite noisy_first. simpl nth.
  replace (nth meaning ref_distribution 0 + noisy_spec [p0; p1; p2] 0
           - nth meaning ref_distribution 0)
    with (noisy_spec [p0; p1; p2] 0) by ring.
  apply exp_noisy_spec_first.
Qed.

(** ** Production: the pool of substitutes and the result *)

Lemma take_other_signals (s : ascii) :
  take_indices signals (np_where (fun x => negb (Ascii.eqb x s)) signals)
  = ret (List.filter (fun x => negb (Ascii.eqb x s)) signals).
Proof.
  unfold take_indices, np_where, signals.
  cbn [np_where_from List.filter].
  destruct (Ascii.eqb "a" s), (Ascii.eqb "b" s), (Ascii.eqb "c" s);
    reflexivity.
Qed.

Lemma other_pool_two (s : ascii) :
  (2 <= length (List.filter (fun x => negb (Ascii.eqb x s)) signals))%nat.
Proof.
  unfold signals. cbn [List.filter].
  destruct (Ascii.eqb_spec "a" s) as [<-|Ha]; [simpl; lia|].
  destruct (Ascii.eqb_spec "b" s) as [<-|Hb]; [simpl; lia|].
  destruct (Ascii.eqb "c" s); simpl; lia.
Qed.

Lemma other_signals_loop_snoc (signals_for_r : list ascii) (s : ascii) :
  other_signals_loop (signals_for_r ++ [s])
  = inr (List.filter (fun x => negb (Ascii.eqb x s)) signals).
Proof.
  unfold other_signals_loop. generalize signals at 3 as acc.
  induction signals_for_r as [|t l IH]; intros acc; simpl.
  - rewrite take_other_signals. reflexivity.
  - rewrite take_other_signals, bind_ret. apply IH.
Qed.

(** X14. The loop that builds [other_signals] in [produce] keeps the
    result of its last iteration only: after a non-empty list of usable
    signals the pool is the alphabet without the last of them, and after
    an empty list it is the whole alphabet. *)
Theorem other_signals_loop_last (signals_for_r : list ascii) (s : ascii) :
  other_signals_loop [] = inr signals
  /\ other_signals_loop (signals_for_r ++ [s])
     = inr (List.filter (fun x => negb (Ascii.eqb x s)) signals).
Proof.
  split; [reflexivity|apply other_signals_loop_snoc].
Qed.

Lemma other_signals_loop_pool (signals_for_r : list ascii) :
  exists pool,
    other_signals_loop signals_for_r = inr pool
    /\ pool <> [] /\ (forall x, In x pool -> In x signals).
Proof.
  destruct signals_for_r as [|t l0] eqn:E;
    [|destruct (@exists_last _ (t :: l0)) as (l & s & El); [discriminate|];
      rewrite El].
  - exists signals. split; [reflexivity|]. split; [discriminate|auto].
  - exists (List.filter (fun x => negb (Ascii.eqb x s)) signals).
    split; [apply other_signals_loop_snoc|]. split.
    + intros E'. pose proof (other_pool_two s) as H. rewrite E' in H.
      simpl in H. lia.
    + intros x Hx. apply filter_In in Hx. apply Hx.
Qed.

Lemma marked_row_total (row : list ascii) :
  length row = 3%nat ->
  exists signals_for_r,
    marked_row row (range (length meanings)) = inr signals_for_r.
Proof.
  intros Hlen. destruct row as [|c0 [|c1 [|c2 [|]]]]; try discriminate.
  unfold range, meanings, marked_row. cbn [length seq getitem lookup].
  simpl.
  destruct (Ascii.eqb c0 "1"), (Ascii.eqb c1 "1"), (Ascii.eqb c2 "1");
    eexists; reflexivity.
Qed.

(** [produce] at level 0 after the sampling of the meaning and the
    winner-take-all choice. *)
Lemma produce_level0_unfold (system : hypothesis) (context : list R)
    (d : draws) :
  h_pragmatic_lvl system = 0%Z ->
  valid_hypothesis context system ->
  length context = length meanings ->
  exists selected signals_for_r,
    In selected signals
    /\ produce system context d
       = if Rlt_dec (d_uniform d) noise then
           if negb (Nat.eqb (length signals_for_r) 3) then
             other_signals <- other_signals_loop signals_for_r ;;
             signal <- np_random_choice other_signals (d_choice d) ;;
             ret (signal, context)
           else ret (selected, context)
         else ret (selected, context).
Proof.
  intros Hlvl [HL Hctx] Hlen.
  change (length meanings) with 3%nat in Hlen.
  set (ms := mental_state (h_perspective system) context).
  assert (Hms : length ms = 3%nat)
    by (unfold ms; rewrite mental_state_length; exact Hlen).
  assert (Hne : ms <> []) by (intros E; rewrite E in Hms; discriminate).
  set (m := (d_meaning d mod 3)%nat).
  assert (Hm : (m < 3)%nat) by (apply Nat.mod_upper_bound; lia).
  assert (Hsample : sample ms (d_meaning d) = inr m)
    by (rewrite sample_value, Hms by exact Hne; reflexivity).
  destruct (valid_lexicon_row (h_language system) m HL Hm) as [Hrow Hrlen].
  set (row := nth m (h_language system) []) in *.
  destruct (wta_total row (d_wta d)) as (w & Hw & Hwlt).
  { intros E. rewrite E in Hrlen. discriminate. }
  assert (Hsel : signals !! w = Some (nth w signals "a"%char))
    by (apply lookup_nth; simpl; lia).
  destruct (marked_row_total row Hrlen) as (sfr & Hsfr).
  exists (nth w signals "a"%char), sfr. split.
  - rewrite <- list_elem_of_In. apply list_elem_of_lookup. eauto.
  - unfold produce. cbv zeta. rewrite calc_mental_state_ok by exact Hctx.
    rewrite bind_ret. fold (mental_state (h_perspective system) context).
    fold ms. rewrite Hsample.
    change (bind (inr m) ?k) with (k m). cbv beta.
    rewrite Hlvl. simpl Z.eqb. cbv iota.
    rewrite (getitem_Some _ _ _ Hrow), bind_ret, Hw.
    change (bind (inr w) ?k) with (k w). cbv beta.
    rewrite (getitem_Some _ _ _ Hsel), bind_ret.
    rewrite (signals_marked_row _ _ _ _ Hrow), Hsfr.
    reflexivity.
Qed.

(** [produce] at level 1 after the sampling of the meaning and of the
    pragmatic speaker's signal. *)
Lemma produce_level1_unfold (system : hypothesis) (context : list R)
    (d : draws) :
  h_pragmatic_lvl system = 1%Z ->
  valid_hypothesis context system ->
  length context = length meanings ->
  exists sampled,
    signals !! (d_pragmatic d mod 3)%nat = Some sampled
    /\ produce system context d
       = if Rlt_dec (d_uniform d) noise then
           signal <-
             np_random_choice
               (List.filter (fun x => negb (Ascii.eqb x sampled)) signals)
               (d_choice d) ;;
           ret (signal, context)
         else ret (sampled, context).
Proof.
  intros Hlvl [HL Hctx] Hlen.
  change (length meanings) with 3%nat in Hlen.
  set (ms := mental_state (h_perspective system) context).
  assert (Hms : length ms = 3%nat)
    by (unfold ms; rewrite mental_state_length; exact Hlen).
  assert (Hne : ms <> []) by (intros E; rewrite E in Hms; discriminate).
  set (m := (d_meaning d mod 3)%nat).
  assert (Hm : (m < 3)%nat) by (apply Nat.mod_upper_bound; lia).
  assert (Hsample : sample ms (d_meaning d) = inr m)
    by (rewrite sample_value, Hms by exact Hne; reflexivity).
  set (s := (d_pragmatic d mod 3)%nat).
  assert (Hs : (s < 3)%nat) by (apply Nat.mod_upper_bound; lia).
  assert (Hsel : signals !! s = Some (nth s signals "a"%char))
    by (apply lookup_nth; simpl; lia).
  exists (nth s signals "a"%char). split; [exact Hsel|].
  unfold produce. cbv zeta. rewrite calc_mental_state_ok by exact Hctx.
  rewrite bind_ret. fold (mental_state (h_perspective system) context).
  fold ms. rewrite Hsample.
  change (bind (inr m) ?k) with (k m). cbv beta.
  rewrite Hlvl. simpl Z.eqb. cbv iota.
  rewrite spkr1_production_probs_value by assumption. rewrite bind_ret.
  assert (Hpick : np_random_choice (range (length signals)) (d_pragmatic d)
                  = ret s).
  { unfold np_random_choice, range. simpl seq. cbn [length].
    apply getitem_Some. fold s.
    destruct s as [|[|[|s']]]; [reflexivity..|lia]. }
  rewrite Hpick, bind_ret.
  rewrite (getitem_Some _ _ _ Hsel), bind_ret.
  rewrite take_other_signals. reflexivity.
Qed.

Lemma produce_signal (system : hypothesis) (context : list R) (d : draws) :
  h_pragmatic_lvl system = 0%Z \/ h_pragmatic_lvl system = 1%Z ->
  valid_hypothesis context system ->
  length context = length meanings ->
  exists signal,
    produce system context d = inr (signal, context) /\ In signal signals.
Proof.
  intros [Hlvl|Hlvl] Hv Hlen.
  - destruct (produce_level0_unfold system context d Hlvl Hv Hlen)
      as (selected & sfr & Hsel & ->).
    destruct (Rlt_dec (d_uniform d) noise); [|eauto].
    destruct (negb (Nat.eqb (length sfr) 3)); [|eauto].
    destruct (other_signals_loop_pool sfr) as (pool & -> & Hne & Hsub).
    change (bind (inr pool) ?k) with (k pool). cbv beta.
    destruct (np_random_choice_In pool (d_choice d) Hne) as (out & -> & Hin).
    exists out. split; [reflexivity|apply Hsub, Hin].
  - destruct (produce_level1_unfold system context d Hlvl Hv Hlen)
      as (sampled & Hsel & ->).
    assert (Hin : In sampled signals)
      by (rewrite <- list_elem_of_In; apply list_elem_of_lookup; eauto).
    destruct (Rlt_dec (d_uniform d) noise); [|eauto].
    destruct (np_random_choice_In
                (List.filter (fun x => negb (Ascii.eqb x sampled)) signals)
                (d_choice d)) as (out & -> & Hout).
    { intros E. pose proof (other_pool_two sampled) as H. rewrite E in H.
      simpl in H. lia. }
    exists out. split; [reflexivity|].
    apply filter_In in Hout. apply Hout.
Qed.

(** X15. On a well-formed hypothesis of level 0 or 1 and a context of one
    entry per meaning, [produce] returns, whatever the random draws, a
    signal of the alphabet together with the context it was given. *)
Theorem produce_returns (system : hypothesis) (context : list R) (d : draws) :
  h_pragmatic_lvl system = 0%Z \/ h_pragmatic_lvl system = 1%Z ->
  valid_hypothesis context system ->
  length context = length meanings ->
  exists signal,
    produce system context d = inr (signal, context) /\ In signal signals.
Proof. exact (produce_signal system context d). Qed.

(** X16. At pragmatic level 1 the substitution is exact: the signal drawn
    from the pragmatic speaker is returned when the noise draw does not
    fire, and when it fires the signal returned is drawn from the two
    other signals of the alphabet, so it always differs from the one it
    replaces. *)
Theorem produce_level1 (system : hypothesis) (context : list R) (d : draws) :
  h_pragmatic_lvl system = 1%Z ->
  valid_hypothesis context system ->
  length context = length meanings ->
  exists sampled,
    signals !! (d_pragmatic d mod 3)%nat = Some sampled
    /\ (~ d_uniform d < noise ->
        produce system context d = inr (sampled, context))
    /\ (d_uniform d < noise ->
        exists pool out,
          length pool = 2%nat
          /\ (forall x, In x pool <-> In x signals /\ x <> sampled)
          /\ np_random_choice pool (d_choice d) = inr out
          /\ produce system context d = inr (out, context)
          /\ out <> sampled).
Proof.
  intros Hlvl Hv Hlen.
  destruct (produce_level1_unfold system context d Hlvl Hv Hlen)
    as (sampled & Hsel & Hprod).
  exists sampled. split; [exact Hsel|]. split.
  - intros Hno. rewrite Hprod.
    destruct (Rlt_dec (d_uniform d) noise); [contradiction|reflexivity].
  - intros Hu.
    set (pool := List.filter (fun x => negb (Ascii.eqb x sampled)) signals)
      in *.
    assert (Hpool : forall x, In x pool <-> In x signals /\ x <> sampled).
    { intros x. unfold pool. rewrite filter_In, negb_true_iff.
      rewrite Ascii.eqb_neq. reflexivity. }
    assert (Hl2 : length pool = 2%nat).
    { unfold pool.
      destruct (d_pragmatic d mod 3)%nat as [|[|[|n]]]; simpl in Hsel;
        try discriminate; injection Hsel as <-; reflexivity. }
    destruct (np_random_choice_In pool (d_choice d)) as (out & Hout & Hin).
    { intros E. rewrite E in Hl2. discriminate. }
    exists pool, out. repeat (split; [assumption|]). split.
    + rewrite Hprod.
      destruct (Rlt_dec (d_uniform d) noise); [|contradiction].
      rewrite Hout. reflexivity.
    + apply Hpool in Hin. apply Hin.
Qed.

(** X17. Two ways for [produce] to raise on a context of its domain: an
    empty context leaves nothing to sample from ([ValueError], at any
    level), and a pragmatic level other than 0 and 1 leaves [signal]
    unassigned ([UnboundLocalError]). *)
Theorem produce_raises (system : hypothesis) (context : list R) (d : draws) :
  (context = [] -> produce system context d = inl ValueError)
  /\ (context <> [] ->
      Forall (fun c => Rabs (h_perspective system - c) < 1) context ->
      h_pragmatic_lvl system <> 0%Z -> h_pragmatic_lvl system <> 1%Z ->
      produce system context d = inl UnboundLocalError).
Proof.
  split.
  - intros ->. reflexivity.
  - intros Hne Hctx H0 H1. unfold produce. cbv zeta.
    rewrite calc_mental_state_ok by exact Hctx. rewrite bind_ret.
    fold (mental_state (h_perspective system) context).
    rewrite sample_value by (apply mental_state_nonempty, Hne).
    rewrite bind_ret.
    destruct (Z.eqb_spec (h_pragmatic_lvl system) 0) as [E|_]; [contradiction|].
    destruct (Z.eqb_spec (h_pragmatic_lvl system) 1) as [E|_]; [contradiction|].
    reflexivity.
Qed.

(** ** The contexts of the experiment *)

Lemma for_each_block {A B : Type} (body : A -> list B -> py (list B))
    (blk : list B) (xs : list A) (init : list B) :
  (forall x acc, body x acc = ret (acc ++ blk)) ->
  for_each xs body init = ret (init ++ concat (replicate (length xs) blk)).
Proof.
  intros Hbody. revert init; induction xs as [|x xs IH]; intros init; simpl.
  - rewrite app_nil_r. reflexivity.
  - rewrite Hbody, bind_ret, IH, <- app_assoc. reflexivity.
Qed.

Lemma context_round (contexts : list (list R)) :
  for_each base_contexts
    (fun c contexts =>
       contexts <- append_triple c 0 1 2 contexts ;;
       contexts <- append_triple c 1 0 2 contexts ;;
       contexts <- append_triple c 1 2 0 contexts ;;
       contexts <- append_triple c 2 1 0 contexts ;;
       contexts <- append_triple c 2 0 1 contexts ;;
       append_triple c 0 2 1 contexts)
    contexts
  = ret (contexts ++ context_block).
Proof.
  unfold base_contexts, context_block, append_triple.
  cbn [for_each]. unfold getitem. cbn [lookup list_lookup bind ret].
  rewrite <- !app_assoc. reflexivity.
Qed.

Lemma Forall_concat_replicate {A : Type} (P : A -> Prop) (n : nat)
    (blk : list A) :
  Forall P blk -> Forall P (concat (replicate n blk)).
Proof.
  intros H. induction n as [|n IH]; simpl; [constructor|].
  apply Forall_app. split; assumption.
Qed.

Lemma length_concat_replicate {A : Type} (n : nat) (blk : list A) :
  length (concat (replicate n blk)) = (n * length blk)%nat.
Proof.
  induction n as [|n IH]; simpl; [reflexivity|].
  rewrite length_app, IH. reflexivity.
Qed.

Lemma usable_context_block : Forall usable_context context_block.
Proof.
  unfold context_block.
  repeat (constructor;
          [split; [reflexivity|];
           split; repeat (constructor; [apply Rabs_lt_1; lra|]); constructor
          |]).
  constructor.
Qed.

(** X18. The generation loop produces 300 contexts, one for each of the
    300 productions of a run: 25 repetitions of the six orderings of
    [[0.1, 0.2, 0.9]] and of [[0.1, 0.8, 0.9]].  Each has one entry per
    meaning and lies in the domain of [calc_mental_state] for both
    perspectives, 0 and 1. *)
Theorem build_contexts_usable :
  exists contexts,
    build_contexts = inr contexts
    /\ contexts = concat (replicate 25 context_block)
    /\ length contexts = 300%nat
    /\ Forall usable_context contexts.
Proof.
  exists (concat (replicate 25 context_block)).
  split; [|split; [reflexivity|split]].
  - unfold build_contexts.
    rewrite (for_each_block _ context_block) by (intros; apply context_round).
    unfold range. rewrite length_seq. reflexivity.
  - rewrite length_concat_replicate. reflexivity.
  - apply Forall_concat_replicate, usable_context_block.
Qed.

(** ** learn_pragmatics.py: pairs and priors *)

Lemma sum_exp_app (a b : list R) : sum_exp (a ++ b) = sum_exp a + sum_exp b.
Proof. induction a as [|x a IH]; simpl; [lra|]. rewrite IH. lra. Qed.

Lemma sum_exp_replicate (n : nat) (x : R) :
  sum_exp (replicate n x) = INR n * exp x.
Proof.
  induction n as [|n IH]; [simpl; lra|].
  rewrite S_INR. simpl. rewrite IH. lra.
Qed.

Lemma INR_length_pos {A : Type} (l : list A) : l <> [] -> 0 < INR (length l).
Proof.
  intros H. destruct l; [congruence|]. apply lt_0_INR. simpl. lia.
Qed.

(** The inner loop over the languages, for one perspective. *)
Lemma priors_inner (languages ls : list lexicon) (p : Z)
    (lp : list (lexicon * R)) (pu pe : list R) :
  languages <> [] ->
  for_each ls (LearnPragmatics.priors_body languages p) (lp, pu, pe)
  = ret (lp ++ map (fun l => (l, IZR p)) ls,
         pu ++ replicate (length ls)
                 (ln (1 / 2) + ln (1 / INR (length languages))),
         pe ++ replicate (length ls)
                 ((if Z.eqb p 1 then ln 0.9 else ln 0.1)
                  + ln (1 / INR (length languages)))).
Proof.
  intros Hne. pose proof (INR_length_pos languages Hne) as Hpos.
  revert lp pu pe; induction ls as [|l ls IH]; intros lp pu pe.
  - simpl. rewrite !app_nil_r. reflexivity.
  - cbn [for_each]. unfold LearnPragmatics.priors_body at 1.
    change (INR (length LearnPragmatics.perspectives)) with (INR 2).
    rewrite (div_ok 1 (INR 2)) by (simpl; lra). rewrite bind_ret.
    rewrite log_pos by (simpl; lra). rewrite bind_ret.
    rewrite !(div_ok 1 (INR (length languages))) by lra.
    rewrite bind_ret.
    rewrite !(log_pos (1 / INR (length languages)))
      by (apply Rdiv_lt_0_compat; lra).
    rewrite bind_ret.
    change LearnPragmatics.p_learner with 1%Z.
    assert (Hp : (if Z.eqb p 1 then log 0.9 else log 0.1)
                 = ret (if Z.eqb p 1 then ln 0.9 else ln 0.1)).
    { destruct (Z.eqb p 1); apply log_pos; lra. }
    rewrite Hp, !bind_ret.
    rewrite ?(div_ok 1 (INR (length languages))) by lra.
    rewrite ?bind_ret.
    rewrite ?(log_pos (1 / INR (length languages)))
      by (apply Rdiv_lt_0_compat; lra).
    rewrite ?bind_ret. rewrite IH.
    simpl length. simpl replicate. simpl map.
    rewrite <- !app_assoc. simpl.
    replace (INR 2) with 2 by (simpl; lra). reflexivity.
Qed.

(** X19. For any non-empty list of languages, the module-level loops of
    learn_pragmatics.py build [lp_pairs] as every language with
    perspective 0 followed by every language with perspective 1, and two
    prior vectors with one entry per pair, each a probability distribution
    (its exponentials sum to 1). *)
Theorem build_priors_distributions (languages : list lexicon) :
  languages <> [] ->
  exists lp_pairs priors_unbiased priors_egocentric,
    LearnPragmatics.build_priors languages
    = inr (lp_pairs, priors_unbiased, priors_egocentric)
    /\ lp_pairs = map (fun l => (l, 0)) languages
                  ++ map (fun l => (l, 1)) languages
    /\ length priors_unbiased = length lp_pairs
    /\ length priors_egocentric = length lp_pairs
    /\ sum_exp priors_unbiased = 1
    /\ sum_exp priors_egocentric = 1.
Proof.
  intros Hne. pose proof (INR_length_pos languages Hne) as Hpos.
  unfold LearnPragmatics.build_priors, LearnPragmatics.perspectives.
  cbn [for_each].
  rewrite (priors_inner languages languages 0) by exact Hne.
  rewrite bind_ret.
  rewrite (priors_inner languages languages 1) by exact Hne.
  rewrite bind_ret. simpl Z.eqb. cbv iota. simpl app.
  do 3 eexists. split; [reflexivity|].
  split; [reflexivity|].
  rewrite !length_app, !length_replicate, !length_map.
  split; [reflexivity|]. split; [reflexivity|].
  rewrite !sum_exp_app, !sum_exp_replicate, !exp_plus.
  rewrite !(exp_ln (1 / 2)) by lra.
  rewrite !(exp_ln (1 / INR (length languages)))
    by (apply Rdiv_lt_0_compat; lra).
  rewrite (exp_ln 0.1), (exp_ln 0.9) by lra.
  assert (Hcancel : forall x, INR (length languages)
                              * (x * (1 / INR (length languages))) = x)
    by (intros x; field; lra).
  rewrite !Hcancel. split; lra.
Qed.

(** X20. The speakers that learn_pragmatics.py selects by index are the
    lexicons its comments describe, all with perspective 0: pair 188 has
    the lexicon in which each meaning has its own signal, pair 182 the one
    in which the last meaning takes all signals, pair 171 the one in which
    one signal is used for every meaning; and there are 686 pairs. *)
Theorem speakers_by_index :
  exists lp_pairs priors_unbiased priors_egocentric,
    LearnPragmatics.build_priors LearnPragmatics.languages
    = inr (lp_pairs, priors_unbiased, priors_egocentric)
    /\ length lp_pairs = 686%nat
    /\ lp_pairs !! 188%nat = Some (identity_lexicon, 0)
    /\ lp_pairs !! 182%nat
       = Some ([["1"; "0"; "0"]; ["0"; "1"; "0"]; ["1"; "1"; "1"]]%char, 0)
    /\ lp_pairs !! 171%nat
       = Some ([["1"; "0"; "0"]; ["1"; "0"; "0"]; ["1"; "0"; "0"]]%char, 0).
Proof.
  assert (Hne : LearnPragmatics.languages <> []) by discriminate.
  unfold LearnPragmatics.build_priors, LearnPragmatics.perspectives.
  cbn [for_each].
  rewrite (priors_inner _ LearnPragmatics.languages 0) by exact Hne.
  rewrite bind_ret.
  rewrite (priors_inner _ LearnPragmatics.languages 1) by exact Hne.
  rewrite bind_ret. rewrite !app_nil_l.
  do 3 eexists. split; [reflexivity|].
  assert (Hlen : length LearnPragmatics.languages = 343%nat) by reflexivity.
  split.
  - rewrite length_app, !length_map, Hlen. reflexivity.
  - repeat split;
      (rewrite lookup_app_l by (rewrite length_map, Hlen; lia));
      rewrite list_lookup_fmap;
      match goal with
      | |- context [LearnPragmatics.languages !! ?i] =>
          let v := eval vm_compute in (LearnPragmatics.languages !! i) in
          change (LearnPragmatics.languages !! i) with v
      end; reflexivity.
Qed.

(** ** Simulation *)

Lemma Rsum_map_exp (v : list R) : Rsum (map exp v) = sum_exp v.
Proof. induction v as [|x v IH]; simpl; [reflexivity|]. rewrite IH. reflexivity. Qed.

Lemma for_each_app {A S : Type} (xs ys : list A) (body : A -> S -> py S)
    (s : S) :
  for_each (xs ++ ys) body s = (s' <- for_each xs body s ;; for_each ys body s').
Proof.
  revert s; induction xs as [|x xs IH]; intros s; simpl; [reflexivity|].
  destruct (body x s) as [e|s1]; simpl; [reflexivity|]. apply IH.
Qed.

(** One update on well-formed inputs returns a distribution over the
    same hypotheses. *)
Lemma update_posterior_step (hypotheses : list hypothesis)
    (posterior : list R) (signal : ascii) (context : list R) :
  posterior <> [] ->
  (length posterior <= length hypotheses)%nat ->
  Forall (valid_hypothesis context) hypotheses ->
  length context = length meanings ->
  In signal signals ->
  exists posterior',
    update_posterior hypotheses posterior signal context = inr posterior'
    /\ length posterior' = length posterior
    /\ sum_exp posterior' = 1.
Proof.
  intros Hne Hle Hv Hlen Hs.
  destruct (evidence_total hypotheses (length posterior) signal context
              Hle Hv Hlen Hs) as [evidence He].
  rewrite update_posterior_evidence, He. eexists. split; [reflexivity|].
  pose proof (map_py_length _ _ _ He) as Hl.
  unfold range in Hl. rewrite length_seq in Hl.
  split.
  - rewrite normalize_logprobs_length, length_zip_with. lia.
  - apply normalize_logprobs_sum, zip_with_nonempty; assumption.
Qed.

(** The loop of [simulation]: every step that finds its context appends
    one snapshot, a distribution over the hypotheses. *)
Lemma simulation_steps (hypotheses : list hypothesis) (speaker : hypothesis)
    (contexts : list (list R)) (rand : nat -> draws) (m : nat) :
  h_pragmatic_lvl speaker = 0%Z \/ h_pragmatic_lvl speaker = 1%Z ->
  Forall (simulation_context hypotheses speaker) contexts ->
  forall (k : nat) (P : list R) (snaps : list (list R)),
    (k + m <= length contexts)%nat ->
    P <> [] -> (length P <= length hypotheses)%nat ->
    exists P' new,
      for_each (seq k m)
        (fun i st =>
           c <- getitem contexts i ;;
           d <- produce speaker c (rand i) ;;
           posteriors <- update_posterior hypotheses (fst st) (fst d) (snd d) ;;
           ret (posteriors, snd st ++ [map exp posteriors]))
        (P, snaps)
      = inr (P', snaps ++ new)
      /\ length new = m
      /\ length P' = length P
      /\ Forall (fun v => length v = length P /\ Rsum v = 1) new.
Proof.
  intros Hlvl Hgood. induction m as [|m IH]; intros k P snaps Hk Hne Hle.
  - exists P, []. rewrite app_nil_r. repeat split; constructor.
  - cbn [seq for_each].
    destruct (contexts !! k) as [c|] eqn:Hc;
      [|apply lookup_ge_None in Hc; lia].
    rewrite (getitem_Some _ _ _ Hc), bind_ret.
    rewrite Forall_forall in Hgood.
    destruct (Hgood c) as (Hlen & Hsp & Hhyp);
      [apply list_elem_of_lookup; eauto|].
    destruct (produce_signal speaker c (rand k) Hlvl Hsp Hlen)
      as (signal & Hprod & Hsig).
    rewrite Hprod. change (bind (inr ?x) ?f) with (f x). cbv beta.
    cbn [fst snd].
    destruct (update_posterior_step hypotheses P signal c Hne Hle Hhyp
                Hlen Hsig) as (P1 & HP1 & Hl1 & Hsum).
    rewrite HP1. change (bind (inr ?x) ?f) with (f x). cbv beta.
    destruct (IH (S k) P1 (snaps ++ [map exp P1])) as (P' & new & Hrun & Hn & Hl & Hall).
    + lia.
    + intros E. rewrite E in Hl1. destruct P; [congruence|discriminate].
    + lia.
    + exists P', (map exp P1 :: new).
      rewrite bind_ret. cbn [fst snd].
      rewrite Hrun, <- app_assoc. split; [reflexivity|].
      split; [simpl; lia|]. split; [lia|].
      constructor.
      * split; [rewrite length_map; exact Hl1|].
        rewrite Rsum_map_exp. exact Hsum.
      * rewrite Hl1 in Hall. exact Hall.
Qed.

Lemma map_nth_range (v : list R) :
  map (fun j => nth j v 0) (range (length v)) = v.
Proof.
  unfold range. induction v as [|x v IH]; [reflexivity|].
  simpl. f_equal. rewrite <- seq_shift, map_map. exact IH.
Qed.

Lemma swapaxes_rectangular (r : list R) (rows : list (list R)) :
  Forall (fun v => length v = length r) rows ->
  swapaxes (r :: rows)
  = ret (map (fun j => map (fun row => nth j row 0) (r :: rows))
           (range (length r))).
Proof.
  intros H. unfold swapaxes.
  assert (Hb : forallb (fun row => Nat.eqb (length row) (length r)) (r :: rows)
               = true).
  { apply forallb_forall. intros row [<-|Hrow]; [apply Nat.eqb_refl|].
    rewrite Forall_forall in H. apply Nat.eqb_eq, H.
    rewrite list_elem_of_In. exact Hrow. }
  rewrite Hb. reflexivity.
Qed.

Lemma transposed_column (rows : list (list R)) (L t : nat) (v : list R) :
  rows !! t = Some v -> length v = L ->
  map (fun tr => nth t tr 0)
    (map (fun j => map (fun row => nth j row 0) rows) (range L))
  = v.
Proof.
  intros Ht Hv. rewrite map_map. rewrite <- (map_nth_range v), Hv.
  apply map_ext. intros j.
  assert (E : (fun row : list R => nth j row 0) [] = 0)
    by (destruct j; reflexivity).
  rewrite <- E at 1. rewrite (map_nth (fun row => nth j row 0)).
  rewrite (nth_lookup_Some rows t [] v Ht). reflexivity.
Qed.

(** X21. On a non-empty prior no longer than the hypothesis list, a
    speaker of level 0 or 1, and contexts on which the speaker and the
    hypotheses are well formed, at least as many as the productions asked
    for, [simulation] returns, whatever the random draws, one trajectory
    per hypothesis; every trajectory has one entry per production plus
    one; the first entries are the exponentials of the prior; and at every
    later step the entries of the trajectories sum to 1. *)
Theorem simulation_trajectories (hypotheses : list hypothesis)
    (speaker : hypothesis) (no_productions : nat) (priors : list R)
    (hypoth_index : nat) (contexts : list (list R)) (rand : nat -> draws) :
  h_pragmatic_lvl speaker = 0%Z \/ h_pragmatic_lvl speaker = 1%Z ->
  Forall (simulation_context hypotheses speaker) contexts ->
  (no_productions <= length contexts)%nat ->
  priors <> [] -> (length priors <= length hypotheses)%nat ->
  exists trajectories,
    simulation hypotheses speaker no_productions priors hypoth_index contexts
      rand = inr trajectories
    /\ length trajectories = length priors
    /\ Forall (fun tr => length tr = S no_productions) trajectories
    /\ map (fun tr => nth 0 tr 0) trajectories = map exp priors
    /\ (forall t, (1 <= t <= no_productions)%nat ->
          Rsum (map (fun tr => nth t tr 0) trajectories) = 1).
Proof.
  intros Hlvl Hgood Hn Hne Hle.
  destruct (simulation_steps hypotheses speaker contexts rand no_productions
              Hlvl Hgood 0 priors [map exp priors])
    as (P' & new & Hrun & Hlen & _ & Hall); [lia|assumption|assumption|].
  unfold simulation. cbv zeta. unfold range at 1. rewrite Hrun.
  change (bind (inr ?x) ?f) with (f x). cbv beta. cbn [snd app].
  assert (Hrect : Forall (fun v => length v = length (map exp priors)) new).
  { eapply Forall_impl; [exact Hall|]. intros v [Hv _].
    rewrite length_map. exact Hv. }
  rewrite (swapaxes_rectangular _ _ Hrect).
  rewrite length_map.
  eexists. split; [reflexivity|].
  split; [rewrite length_map; unfold range; apply length_seq|].
  split.
  - rewrite Forall_forall. intros tr Htr. rewrite list_elem_of_In in Htr.
    apply in_map_iff in Htr. destruct Htr as (j & <- & _).
    rewrite length_map. simpl. lia.
  - split.
    + apply (transposed_column (map exp priors :: new) (length priors) 0);
        [reflexivity|apply length_map].
    + intros t Ht.
      destruct (new !! (t - 1)%nat) as [v|] eqn:Hv;
        [|apply lookup_ge_None in Hv; lia].
      rewrite Forall_forall in Hall.
      destruct (Hall v) as [Hlv Hsum]; [apply list_elem_of_lookup; eauto|].
      rewrite (transposed_column (map exp priors :: new) (length priors) t v);
        [exact Hsum| |exact Hlv].
      destruct t as [|t]; [lia|]. simpl.
      replace (S t - 1)%nat with t in Hv by lia. exact Hv.
Qed.

(** X22. When there are fewer contexts than productions asked for,
    [simulation] raises [IndexError] (at [contexts[i]]), even though every
    context is well formed. *)
Theorem simulation_short_contexts (hypotheses : list hypothesis)
    (speaker : hypothesis) (no_productions : nat) (priors : list R)
    (hypoth_index : nat) (contexts : list (list R)) (rand : nat -> draws) :
  h_pragmatic_lvl speaker = 0%Z \/ h_pragmatic_lvl speaker = 1%Z ->
  Forall (simulation_context hypotheses speaker) contexts ->
  (length contexts < no_productions)%nat ->
  priors <> [] -> (length priors <= length hypotheses)%nat ->
  simulation hypotheses speaker no_productions priors hypoth_index contexts
    rand = inl IndexError.
Proof.
  intros Hlvl Hgood Hn Hne Hle.
  destruct (simulation_steps hypotheses speaker contexts rand (length contexts)
              Hlvl Hgood 0 priors [map exp priors])
    as (P' & new & Hrun & _); [lia|assumption|assumption|].
  unfold simulation. cbv zeta. unfold range at 1.
  replace no_productions
    with (length contexts + (1 + (no_productions - length contexts - 1)))%nat
    by lia.
  rewrite seq_app, for_each_app, Hrun.
  change (bind (inr ?x) ?f) with (f x). cbv beta.
  cbn [seq for_each Nat.add].
  unfold getitem at 1.
  rewrite (proj2 (lookup_ge_None contexts (length contexts))) by lia.
  reflexivity.
Qed.

(** ** Likelihoods as distributions over the signals *)

Lemma lit_term_mass (row : list ascii) :
  binary_row row -> length row = 3%nat -> In "1"%char row ->
  exp (lit_term (elem "a" (signals_for row)) (length (signals_for row)))
  + exp (lit_term (elem "b" (signals_for row)) (length (signals_for row)))
  + exp (lit_term (elem "c" (signals_for row)) (length (signals_for row)))
  = 1.
Proof.
  intros Hb Hlen Hone.
  destruct (binary_row3 row Hb Hlen) as (b0 & b1 & b2 & ->).
  unfold lit_term.
  destruct b0, b1, b2; simpl in Hone |- *;
    try (exfalso; intuition discriminate);
    rewrite !exp_ln by real_side; real_side.
Qed.

(** X23. For a hypothesis of pragmatic level 0 whose lexicon is a valid
    binary lexicon (every row has a usable signal), the evidences of the
    three signals of the alphabet for one context form a probability
    distribution: their exponentials sum to 1. *)
Theorem evidence_level0_distribution (hypotheses : list hypothesis) (i : nat)
    (h : hypothesis) (context : list R) :
  hypotheses !! i = Some h ->
  h_pragmatic_lvl h = 0%Z ->
  LearnPragmatics.valid_binary_lexicon (h_language h) ->
  Forall (fun c => Rabs (h_perspective h - c) < 1) context ->
  length context = length meanings ->
  exists ea eb ec,
    hypothesis_evidence hypotheses i "a" context = inr ea
    /\ hypothesis_evidence hypotheses i "b" context = inr eb
    /\ hypothesis_evidence hypotheses i "c" context = inr ec
    /\ exp ea + exp eb + exp ec = 1.
Proof.
  intros Hh Hlvl [HLlen Hrows] Hctx Hlen.
  assert (HL : valid_lexicon (h_language h)).
  { split; [exact HLlen|]. eapply Forall_impl; [exact Hrows|].
    intros row (Hr & _). exact Hr. }
  assert (Hv : valid_hypothesis context h) by (split; assumption).
  exists (evidence_value h 0 "a" context), (evidence_value h 1 "b" context),
         (evidence_value h 2 "c" context).
  repeat (split;
          [apply (hypothesis_evidence_value hypotheses i _ h);
           (assumption || reflexivity)|]).
  unfold evidence_value. rewrite Hlvl. simpl Z.eqb. cbv iota zeta.
  set (ref := mental_state (h_perspective h) context).
  assert (Hsum : sum_exp ref = 1).
  { unfold ref, mental_state. apply normalize_logprobs_sum.
    destruct context; [discriminate|discriminate]. }
  assert (Href : length ref = 3%nat)
    by (unfold ref; rewrite mental_state_length; exact Hlen).
  destruct ref as [|r0 [|r1 [|r2 [|]]]]; try discriminate.
  destruct (h_language h) as [|w0 [|w1 [|w2 [|]]]]; try discriminate.
  inversion_clear Hrows as [|? ? (L0 & B0 & O0) Hrows'].
  inversion_clear Hrows' as [|? ? (L1 & B1 & O1) Hrows''].
  inversion_clear Hrows'' as [|? ? (L2 & B2 & O2) _].
  pose proof (lit_term_mass w0 B0 L0 O0) as M0.
  pose proof (lit_term_mass w1 B1 L1 O1) as M1.
  pose proof (lit_term_mass w2 B2 L2 O2) as M2.
  rewrite !exp_logsumexp by discriminate.
  unfold lit, meanings. simpl sum_exp in *. simpl nth.
  rewrite !exp_plus.
  set (t00 := exp (lit_term (elem "a" (signals_for w0)) _)) in *.
  set (t10 := exp (lit_term (elem "b" (signals_for w0)) _)) in *.
  set (t20 := exp (lit_term (elem "c" (signals_for w0)) _)) in *.
  set (t01 := exp (lit_term (elem "a" (signals_for w1)) _)) in *.
  set (t11 := exp (lit_term (elem "b" (signals_for w1)) _)) in *.
  set (t21 := exp (lit_term (elem "c" (signals_for w1)) _)) in *.
  set (t02 := exp (lit_term (elem "a" (signals_for w2)) _)) in *.
  set (t12 := exp (lit_term (elem "b" (signals_for w2)) _)) in *.
  set (t22 := exp (lit_term (elem "c" (signals_for w2)) _)) in *.
  replace (exp r0 * t00 + (exp r1 * t01 + (exp r2 * t02 + 0))
           + (exp r0 * t10 + (exp r1 * t11 + (exp r2 * t12 + 0)))
           + (exp r0 * t20 + (exp r1 * t21 + (exp r2 * t22 + 0))))
    with (exp r0 * (t00 + t10 + t20) + exp r1 * (t01 + t11 + t21)
          + exp r2 * (t02 + t12 + t22)) by ring.
  rewrite M0, M1, M2. lra.
Qed.

(** ** Pragmatic speaker: ranking of the signals *)

(** X24. The pragmatic speaker ranks the signals by the literal listener's
    belief: the difference between the log-probabilities it gives to two
    signals is [alpha] times the difference between the entries of the
    perception matrix for these signals and the intended meaning. *)
Theorem spkr1_production_probs_log_odds (meaning s s' : nat)
    (language : lexicon) (mental_state : list R) :
  valid_lexicon language -> length mental_state = 3%nat ->
  (meaning < 3)%nat -> (s < 3)%nat -> (s' < 3)%nat ->
  exists p mat,
    spkr1_production_probs meaning language mental_state = inr p
    /\ list1_perception_matrix language mental_state = inr mat
    /\ nth s p 0 - nth s' p 0
       = alpha * (nth meaning (nth s mat []) 0 - nth meaning (nth s' mat []) 0).
Proof.
  intros HL Hms Hm Hs Hs'.
  exists (production meaning language mental_state),
         (perception language mental_state).
  split; [apply spkr1_production_probs_value; assumption|].
  split; [apply list1_perception_matrix_value; assumption|].
  unfold production, softmax.
  set (u := map (fun s0 => alpha * nth meaning
                                     (nth s0 (perception language mental_state)
                                        []) 0)
                (range (length signals))).
  assert (HS : 0 < sum_exp u) by (apply sum_exp_pos; discriminate).
  assert (Hnth : forall k, (k < 3)%nat ->
            nth k (map ln (map (fun x => exp x / sum_exp u) u)) 0
            = alpha * nth meaning (nth k (perception language mental_state) [])
                        0
              - ln (sum_exp u)).
  { intros k Hk.
    assert (E : forall x, ln (exp x / sum_exp u) = x - ln (sum_exp u)).
    { intros x. unfold Rdiv. rewrite ln_mult, ln_Rinv, ln_exp;
        [ring|exact HS|apply exp_pos|apply Rinv_0_lt_compat, HS]. }
    destruct k as [|[|[|k]]]; [| | |lia]; simpl; apply E. }
  rewrite (Hnth s Hs), (Hnth s' Hs'). ring.
Qed.

(** ** The further properties on example inputs *)

Lemma second_context_valid_0 :
  Forall (fun c => Rabs (0 - c) < 1) second_context.
Proof. repeat constructor; apply Rabs_lt_1; lra. Qed.

Lemma second_context_valid_1 :
  Forall (fun c => Rabs (1 - c) < 1) second_context.
Proof. repeat constructor; apply Rabs_lt_1; lra. Qed.

Lemma example_hypotheses_valid_second :
  Forall (valid_hypothesis second_context) example_hypotheses.
Proof.
  constructor.
  - split; [exact valid_identity_lexicon|exact second_context_valid_0].
  - constructor; [|constructor].
    split; [exact valid_identity_lexicon|exact second_context_valid_1].
Qed.

Lemma identity_speaker_valid : valid_hypothesis example_context identity_speaker.
Proof. split; [exact valid_identity_lexicon|exact example_context_valid_0]. Qed.

Lemma pragmatic_identity_speaker_valid :
  valid_hypothesis example_context pragmatic_identity_speaker.
Proof. split; [exact valid_identity_lexicon|exact example_context_valid_1]. Qed.

Lemma d_not_a_signal : ~ In "d"%char signals.
Proof. simpl. intuition discriminate. Qed.

Lemma spkr1_production_probs_distribution_witness :
  valid_lexicon identity_lexicon
  /\ length example_ref = 3%nat
  /\ (0 < 3)%nat
  /\ exists p,
       spkr1_production_probs 0 identity_lexicon example_ref = inr p
       /\ length p = 3%nat
       /\ sum_exp p = 1.
Proof.
  assert (H2 : length example_ref = 3%nat) by reflexivity.
  assert (H3 : (0 < 3)%nat) by lia.
  split; [exact valid_identity_lexicon|]. split; [exact H2|].
  split; [exact H3|].
  exact (spkr1_production_probs_distribution 0 identity_lexicon example_ref
           valid_identity_lexicon H2 H3).
Defined.

Lemma list1_perception_matrix_rows_witness :
  valid_lexicon identity_lexicon
  /\ length example_ref = 3%nat
  /\ exists mat,
       list1_perception_matrix identity_lexicon example_ref = inr mat
       /\ length mat = length signals
       /\ Forall (fun row => length row = length meanings /\ sum_exp row = 1)
            mat.
Proof.
  assert (H2 : length example_ref = 3%nat) by reflexivity.
  split; [exact valid_identity_lexicon|]. split; [exact H2|].
  exact (list1_perception_matrix_rows identity_lexicon example_ref
           valid_identity_lexicon H2).
Defined.

Lemma calc_mental_state_closer_witness :
  Forall (fun c => Rabs (0 - c) < 1) example_context
  /\ example_context !! 0%nat = Some 0.1
  /\ example_context !! 2%nat = Some 0.9
  /\ Rabs (0 - 0.1) < Rabs (0 - 0.9)
  /\ exists distribution pi pj,
       calc_mental_state 0 example_context = inr distribution
       /\ distribution !! 0%nat = Some pi /\ distribution !! 2%nat = Some pj
       /\ pj < pi.
Proof.
  assert (H2 : example_context !! 0%nat = Some 0.1) by reflexivity.
  assert (H3 : example_context !! 2%nat = Some 0.9) by reflexivity.
  assert (H4 : Rabs (0 - 0.1) < Rabs (0 - 0.9))
    by (unfold Rabs; repeat destruct Rcase_abs; lra).
  split; [exact example_context_valid_0|].
  split; [exact H2|]. split; [exact H3|]. split; [exact H4|].
  exact (calc_mental_state_closer 0 example_context 0 2 0.1 0.9
           example_context_valid_0 H2 H3 H4).
Defined.

Lemma list1_lit_spkr_unknown_signal_witness :
  full_lexicon !! 0%nat = Some ["1"; "1"; "1"]%char
  /\ length ["1"; "1"; "1"]%char = 3%nat
  /\ example_ref !! 0%nat = Some (ln (1 / 2))
  /\ ~ In "d"%char signals
  /\ (Forall (fun c => c <> "0"%char) ["1"; "1"; "1"]%char ->
      list1_lit_spkr "d" 0 full_lexicon example_ref = inl ZeroDivisionError)
  /\ (Exists (fun c => c = "0"%char) ["1"; "1"; "1"]%char ->
      list1_lit_spkr "d" 0 full_lexicon example_ref
      = inr (ln (1 / 2)
             + ln (noise
                   / (3 - INR (length (signals_for ["1"; "1"; "1"]%char)))))).
Proof.
  assert (H1 : full_lexicon !! 0%nat = Some ["1"; "1"; "1"]%char)
    by reflexivity.
  assert (H2 : length ["1"; "1"; "1"]%char = 3%nat) by reflexivity.
  assert (H3 : example_ref !! 0%nat = Some (ln (1 / 2))) by reflexivity.
  split; [exact H1|]. split; [exact H2|]. split; [exact H3|].
  split; [exact d_not_a_signal|].
  exact (list1_lit_spkr_unknown_signal "d" 0 full_lexicon example_ref
           ["1"; "1"; "1"]%char (ln (1 / 2)) H1 H2 H3 d_not_a_signal).
Defined.

Lemma list1_lit_spkr_zero_row_witness :
  degenerate_lexicon !! 0%nat = Some ["0"; "0"; "0"]%char
  /\ example_ref !! 0%nat = Some (ln (1 / 2))
  /\ exists vs,
       map_py (fun s => list1_lit_spkr s 0 degenerate_lexicon example_ref)
         signals = inr vs
       /\ Forall (fun v => v = ln (1 / 2) + ln (noise / 3)) vs
       /\ Rsum (map (fun v => exp (v - ln (1 / 2))) vs) = noise.
Proof.
  assert (H1 : degenerate_lexicon !! 0%nat = Some ["0"; "0"; "0"]%char)
    by reflexivity.
  assert (H2 : example_ref !! 0%nat = Some (ln (1 / 2))) by reflexivity.
  split; [exact H1|]. split; [exact H2|].
  exact (list1_lit_spkr_zero_row 0 degenerate_lexicon example_ref (ln (1 / 2))
           H1 H2).
Defined.

Lemma list1_lit_spkr_prefers_usable_witness :
  let row := ["1"; "1"; "0"]%char in
  let language := h_language two_signal_speaker in
  language !! 0%nat = Some row
  /\ length row = 3%nat
  /\ binary_row row
  /\ example_ref !! 0%nat = Some (ln (1 / 2))
  /\ In "a"%char signals /\ In "c"%char signals
  /\ usable row "a" /\ ~ usable row "c"
  /\ exists v v',
       list1_lit_spkr "a" 0 language example_ref = inr v
       /\ list1_lit_spkr "c" 0 language example_ref = inr v'
       /\ v' < v.
Proof.
  intros row language.
  assert (H1 : language !! 0%nat = Some row) by reflexivity.
  assert (H2 : length row = 3%nat) by reflexivity.
  assert (H3 : binary_row row).
  { constructor; [right; reflexivity|].
    constructor; [right; reflexivity|].
    constructor; [left; reflexivity|]. constructor. }
  assert (H4 : example_ref !! 0%nat = Some (ln (1 / 2))) by reflexivity.
  assert (H5 : In "a"%char signals) by (left; reflexivity).
  assert (H6 : In "c"%char signals) by (right; right; left; reflexivity).
  assert (H7 : usable row "a") by (exists 0%nat; split; reflexivity).
  assert (H8 : ~ usable row "c").
  { intros (s & Hs & Hr).
    destruct s as [|[|[|s]]]; simpl in Hs, Hr; discriminate. }
  repeat (split; [assumption|]).
  exact (list1_lit_spkr_prefers_usable "a" "c" 0 language example_ref row
           (ln (1 / 2)) H1 H2 H3 H4 H5 H6 H7 H8).
Defined.

Lemma update_posterior_too_long_witness :
  (length example_hypotheses < length long_prior)%nat
  /\ Forall (valid_hypothesis example_context) example_hypotheses
  /\ length example_context = length meanings
  /\ In "b"%char signals
  /\ update_posterior example_hypotheses long_prior "b" example_context
     = inl IndexError.
Proof.
  assert (H1 : (length example_hypotheses < length long_prior)%nat)
    by (simpl; lia).
  assert (H3 : length example_context = length meanings) by reflexivity.
  assert (H4 : In "b"%char signals) by (right; left; reflexivity).
  split; [exact H1|]. split; [exact example_hypotheses_valid|].
  split; [exact H3|]. split; [exact H4|].
  exact (update_posterior_too_long example_hypotheses long_prior "b"
           example_context H1 example_hypotheses_valid H3 H4).
Defined.

Lemma hypothesis_evidence_unknown_level_witness :
  [unknown_level_speaker] !! 0%nat = Some unknown_level_speaker
  /\ h_pragmatic_lvl unknown_level_speaker <> 0%Z
  /\ h_pragmatic_lvl unknown_level_speaker <> 1%Z
  /\ Forall (fun c => Rabs (h_perspective unknown_level_speaker - c) < 1)
       example_context
  /\ hypothesis_evidence [unknown_level_speaker] 0 "b" example_context
     = inr (ln 3).
Proof.
  assert (H1 : [unknown_level_speaker] !! 0%nat = Some unknown_level_speaker)
    by reflexivity.
  assert (H2 : h_pragmatic_lvl unknown_level_speaker <> 0%Z) by discriminate.
  assert (H3 : h_pragmatic_lvl unknown_level_speaker <> 1%Z) by discriminate.
  split; [exact H1|]. split; [exact H2|]. split; [exact H3|].
  split; [exact example_context_valid_0|].
  exact (hypothesis_evidence_unknown_level [unknown_level_speaker] 0
           unknown_level_speaker "b" example_context H1 H2 H3
           example_context_valid_0).
Defined.

Lemma unknown_signal_pragmatic_witness :
  example_hypotheses !! 1%nat = Some pragmatic_identity_speaker
  /\ h_pragmatic_lvl pragmatic_identity_speaker = 1%Z
  /\ valid_hypothesis example_context pragmatic_identity_speaker
  /\ length example_context = length meanings
  /\ ~ In "d"%char signals
  /\ (forall m, (m < 3)%nat ->
        list2_spkr1 "d" m (h_language pragmatic_identity_speaker)
          (mental_state (h_perspective pragmatic_identity_speaker)
             example_context) = inr [])
  /\ hypothesis_evidence example_hypotheses 1 "d" example_context
     = inl ValueError
  /\ (forall m language ref_distribution,
        LearnPragmatics.list2_spkr1 "d" m language ref_distribution
        = inl ValueError).
Proof.
  assert (H1 : example_hypotheses !! 1%nat = Some pragmatic_identity_speaker)
    by reflexivity.
  assert (H2 : h_pragmatic_lvl pragmatic_identity_speaker = 1%Z)
    by reflexivity.
  assert (H4 : length example_context = length meanings) by reflexivity.
  split; [exact H1|]. split; [exact H2|].
  split; [exact pragmatic_identity_speaker_valid|].
  split; [exact H4|]. split; [exact d_not_a_signal|].
  exact (unknown_signal_pragmatic example_hypotheses 1
           pragmatic_identity_speaker "d" example_context H1 H2
           pragmatic_identity_speaker_valid H4 d_not_a_signal).
Defined.

Lemma domain_error_propagates_witness :
  Exists (fun c => Rabs (h_perspective identity_speaker - c) >= 1) far_context
  /\ produce identity_speaker far_context noisy_draws = inl ValueError
  /\ (example_hypotheses !! 0%nat = Some identity_speaker ->
      example_prior <> [] ->
      update_posterior example_hypotheses example_prior "b" far_context
      = inl ValueError).
Proof.
  assert (H : Exists (fun c => Rabs (h_perspective identity_speaker - c) >= 1)
                far_context).
  { apply Exists_cons_hd. simpl. unfold Rabs.
    destruct (Rcase_abs (0 - 1.5)); lra. }
  split; [exact H|].
  exact (domain_error_propagates example_hypotheses identity_speaker
           example_prior "b" far_context noisy_draws H).
Defined.

Lemma update_posterior_commutes_witness :
  (length example_prior <= length example_hypotheses)%nat
  /\ Forall (valid_hypothesis example_context) example_hypotheses
  /\ Forall (valid_hypothesis second_context) example_hypotheses
  /\ length example_context = length meanings
  /\ length second_context = length meanings
  /\ In "a"%char signals /\ In "b"%char signals
  /\ exists L1 L2 posterior1 posterior2,
       map_py
         (fun i => hypothesis_evidence example_hypotheses i "a" example_context)
         (range (length example_prior)) = inr L1
       /\ map_py
            (fun i => hypothesis_evidence example_hypotheses i "b"
                        second_context)
            (range (length example_prior)) = inr L2
       /\ update_posterior example_hypotheses example_prior "a" example_context
          = inr posterior1
       /\ update_posterior example_hypotheses example_prior "b" second_context
          = inr posterior2
       /\ update_posterior example_hypotheses posterior1 "b" second_context
          = inr (normalize_logprobs
                   (zip_with Rplus (zip_with Rplus example_prior L1) L2))
       /\ update_posterior example_hypotheses posterior2 "a" example_context
          = update_posterior example_hypotheses posterior1 "b" second_context.
Proof.
  assert (H1 : (length example_prior <= length example_hypotheses)%nat)
    by (simpl; lia).
  assert (H4 : length example_context = length meanings) by reflexivity.
  assert (H5 : length second_context = length meanings) by reflexivity.
  assert (H6 : In "a"%char signals) by (left; reflexivity).
  assert (H7 : In "b"%char signals) by (right; left; reflexivity).
  split; [exact H1|]. split; [exact example_hypotheses_valid|].
  split; [exact example_hypotheses_valid_second|].
  split; [exact H4|]. split; [exact H5|]. split; [exact H6|].
  split; [exact H7|].
  exact (update_posterior_commutes example_hypotheses example_prior "a" "b"
           example_context second_context H1 example_hypotheses_valid
           example_hypotheses_valid_second H4 H5 H6 H7).
Defined.

Lemma update_posterior_log_odds_witness :
  (length example_prior <= length example_hypotheses)%nat
  /\ Forall (valid_hypothesis example_context) example_hypotheses
  /\ length example_context = length meanings
  /\ In "b"%char signals
  /\ (0 < length example_prior)%nat /\ (1 < length example_prior)%nat
  /\ exists L posterior',
       map_py
         (fun i => hypothesis_evidence example_hypotheses i "b" example_context)
         (range (length example_prior)) = inr L
       /\ update_posterior example_hypotheses example_prior "b" example_context
          = inr posterior'
       /\ nth 0 posterior' 0 - nth 1 posterior' 0
          = (nth 0 example_prior 0 - nth 1 example_prior 0)
            + (nth 0 L 0 - nth 1 L 0).
Proof.
  assert (H1 : (length example_prior <= length example_hypotheses)%nat)
    by (simpl; lia).
  assert (H3 : length example_context = length meanings) by reflexivity.
  assert (H4 : In "b"%char signals) by (right; left; reflexivity).
  assert (H5 : (0 < length example_prior)%nat) by (simpl; lia).
  assert (H6 : (1 < length example_prior)%nat) by (simpl; lia).
  split; [exact H1|]. split; [exact example_hypotheses_valid|].
  split; [exact H3|]. split; [exact H4|]. split; [exact H5|].
  split; [exact H6|].
  exact (update_posterior_log_odds example_hypotheses example_prior "b"
           example_context 0 1 H1 example_hypotheses_valid H3 H4 H5 H6).
Defined.

Lemma list2_spkr1_first_signal_mixture_witness :
  valid_lexicon identity_lexicon
  /\ length example_ref = 3%nat
  /\ (0 < 3)%nat
  /\ exists p x,
       spkr1_production_probs 0 identity_lexicon example_ref = inr p
       /\ list2_spkr1 "a" 0 identity_lexicon example_ref = inr [x]
       /\ exp (x - nth 0 example_ref 0)
          = (1 - noise) * exp (nth 0 p 0)
            + noise * (exp (nth 1 p 0) + exp (nth 2 p 0)) / 2.
Proof.
  assert (H2 : length example_ref = 3%nat) by reflexivity.
  assert (H3 : (0 < 3)%nat) by lia.
  split; [exact valid_identity_lexicon|]. split; [exact H2|].
  split; [exact H3|].
  exact (list2_spkr1_first_signal_mixture 0 identity_lexicon example_ref
           valid_identity_lexicon H2 H3).
Defined.

Lemma produce_returns_witness :
  (h_pragmatic_lvl identity_speaker = 0%Z
   \/ h_pragmatic_lvl identity_speaker = 1%Z)
  /\ valid_hypothesis example_context identity_speaker
  /\ length example_context = length meanings
  /\ exists signal,
       produce identity_speaker example_context noisy_draws
       = inr (signal, example_context)
       /\ In signal signals.
Proof.
  assert (H1 : h_pragmatic_lvl identity_speaker = 0%Z
               \/ h_pragmatic_lvl identity_speaker = 1%Z)
    by (left; reflexivity).
  assert (H3 : length example_context = length meanings) by reflexivity.
  split; [exact H1|]. split; [exact identity_speaker_valid|].
  split; [exact H3|].
  exact (produce_returns identity_speaker example_context noisy_draws H1
           identity_speaker_valid H3).
Defined.

Lemma produce_level1_witness :
  h_pragmatic_lvl pragmatic_identity_speaker = 1%Z
  /\ valid_hypothesis example_context pragmatic_identity_speaker
  /\ length example_context = length meanings
  /\ exists sampled,
       signals !! (d_pragmatic noisy_draws mod 3)%nat = Some sampled
       /\ (~ d_uniform noisy_draws < noise ->
           produce pragmatic_identity_speaker example_context noisy_draws
           = inr (sampled, example_context))
       /\ (d_uniform noisy_draws < noise ->
           exists pool out,
             length pool = 2%nat
             /\ (forall x, In x pool <-> In x signals /\ x <> sampled)
             /\ np_random_choice pool (d_choice noisy_draws) = inr out
             /\ produce pragmatic_identity_speaker example_context noisy_draws
                = inr (out, example_context)
             /\ out <> sampled).
Proof.
  assert (H1 : h_pragmatic_lvl pragmatic_identity_speaker = 1%Z)
    by reflexivity.
  assert (H3 : length example_context = length meanings) by reflexivity.
  split; [exact H1|]. split; [exact pragmatic_identity_speaker_valid|].
  split; [exact H3|].
  exact (produce_level1 pragmatic_identity_speaker example_context noisy_draws
           H1 pragmatic_identity_speaker_valid H3).
Defined.

Lemma produce_raises_witness :
  example_context <> []
  /\ Forall (fun c => Rabs (h_perspective unknown_level_speaker - c) < 1)
       example_context
  /\ h_pragmatic_lvl unknown_level_speaker <> 0%Z
  /\ h_pragmatic_lvl unknown_level_speaker <> 1%Z
  /\ produce unknown_level_speaker example_context noisy_draws
     = inl UnboundLocalError.
Proof.
  assert (H1 : example_context <> []) by discriminate.
  assert (H3 : h_pragmatic_lvl unknown_level_speaker <> 0%Z) by discriminate.
  assert (H4 : h_pragmatic_lvl unknown_level_speaker <> 1%Z) by discriminate.
  split; [exact H1|]. split; [exact example_context_valid_0|].
  split; [exact H3|]. split; [exact H4|].
  exact (proj2 (produce_raises unknown_level_speaker example_context
                  noisy_draws)
           H1 example_context_valid_0 H3 H4).
Defined.

Lemma build_priors_distributions_witness :
  [identity_lexicon] <> []
  /\ exists lp_pairs priors_unbiased priors_egocentric,
       LearnPragmatics.build_priors [identity_lexicon]
       = inr (lp_pairs, priors_unbiased, priors_egocentric)
       /\ lp_pairs = map (fun l => (l, 0)) [identity_lexicon]
                     ++ map (fun l => (l, 1)) [identity_lexicon]
       /\ length priors_unbiased = length lp_pairs
       /\ length priors_egocentric = length lp_pairs
       /\ sum_exp priors_unbiased = 1
       /\ sum_exp priors_egocentric = 1.
Proof.
  assert (H : [identity_lexicon] <> []) by discriminate.
  split; [exact H|].
  exact (build_priors_distributions [identity_lexicon] H).
Defined.

Lemma example_simulation_context :
  Forall (simulation_context example_hypotheses identity_speaker)
    [example_context].
Proof.
  constructor; [|constructor].
  split; [reflexivity|].
  split; [exact identity_speaker_valid|exact example_hypotheses_valid].
Qed.

Lemma simulation_trajectories_witness :
  (h_pragmatic_lvl identity_speaker = 0%Z
   \/ h_pragmatic_lvl identity_speaker = 1%Z)
  /\ Forall (simulation_context example_hypotheses identity_speaker)
       [example_context]
  /\ (1 <= length [example_context])%nat
  /\ example_prior <> []
  /\ (length example_prior <= length example_hypotheses)%nat
  /\ exists trajectories,
       simulation example_hypotheses identity_speaker 1 example_prior 0
         [example_context] (fun _ => noisy_draws) = inr trajectories
       /\ length trajectories = length example_prior
       /\ Forall (fun tr => length tr = 2%nat) trajectories
       /\ map (fun tr => nth 0 tr 0) trajectories = map exp example_prior
       /\ (forall t, (1 <= t <= 1)%nat ->
             Rsum (map (fun tr => nth t tr 0) trajectories) = 1).
Proof.
  assert (H1 : h_pragmatic_lvl identity_speaker = 0%Z
               \/ h_pragmatic_lvl identity_speaker = 1%Z)
    by (left; reflexivity).
  assert (H3 : (1 <= length [example_context])%nat) by (simpl; lia).
  assert (H4 : example_prior <> []) by discriminate.
  assert (H5 : (length example_prior <= length example_hypotheses)%nat)
    by (simpl; lia).
  split; [exact H1|]. split; [exact example_simulation_context|].
  split; [exact H3|]. split; [exact H4|]. split; [exact H5|].
  exact (simulation_trajectories example_hypotheses identity_speaker 1
           example_prior 0 [example_context] (fun _ => noisy_draws) H1
           example_simulation_context H3 H4 H5).
Defined.

Lemma simulation_short_contexts_witness :
  (h_pragmatic_lvl identity_speaker = 0%Z
   \/ h_pragmatic_lvl identity_speaker = 1%Z)
  /\ Forall (simulation_context example_hypotheses identity_speaker)
       [example_context]
  /\ (length [example_context] < 2)%nat
  /\ example_prior <> []
  /\ (length example_prior <= length example_hypotheses)%nat
  /\ simulation example_hypotheses identity_speaker 2 example_prior 0
       [example_context] (fun _ => noisy_draws) = inl IndexError.
Proof.
  assert (H1 : h_pragmatic_lvl identity_speaker = 0%Z
               \/ h_pragmatic_lvl identity_speaker = 1%Z)
    by (left; reflexivity).
  assert (H3 : (length [example_context] < 2)%nat) by (simpl; lia).
  assert (H4 : example_prior <> []) by discriminate.
  assert (H5 : (length example_prior <= length example_hypotheses)%nat)
    by (simpl; lia).
  split; [exact H1|]. split; [exact example_simulation_context|].
  split; [exact H3|]. split; [exact H4|]. split; [exact H5|].
  exact (simulation_short_contexts example_hypotheses identity_speaker 2
           example_prior 0 [example_context] (fun _ => noisy_draws) H1
           example_simulation_context H3 H4 H5).
Defined.

Lemma valid_binary_identity_lexicon :
  LearnPragmatics.valid_binary_lexicon identity_lexicon.
Proof. apply valid_binary_lexicon_b_sound. reflexivity. Qed.

Lemma evidence_level0_distribution_witness :
  example_hypotheses !! 0%nat = Some identity_speaker
  /\ h_pragmatic_lvl identity_speaker = 0%Z
  /\ LearnPragmatics.valid_binary_lexicon (h_language identity_speaker)
  /\ Forall (fun c => Rabs (h_perspective identity_speaker - c) < 1)
       example_context
  /\ length example_context = length meanings
  /\ exists ea eb ec,
       hypothesis_evidence example_hypotheses 0 "a" example_context = inr ea
       /\ hypothesis_evidence example_hypotheses 0 "b" example_context = inr eb
       /\ hypothesis_evidence example_hypotheses 0 "c" example_context = inr ec
       /\ exp ea + exp eb + exp ec = 1.
Proof.
  assert (H1 : example_hypotheses !! 0%nat = Some identity_speaker)
    by reflexivity.
  assert (H2 : h_pragmatic_lvl identity_speaker = 0%Z) by reflexivity.
  assert (H5 : length example_context = length meanings) by reflexivity.
  split; [exact H1|]. split; [exact H2|].
  split; [exact valid_binary_identity_lexicon|].
  split; [exact example_context_valid_0|]. split; [exact H5|].
  exact (evidence_level0_distribution example_hypotheses 0 identity_speaker
           example_context H1 H2 valid_binary_identity_lexicon
           example_context_valid_0 H5).
Defined.

Lemma spkr1_production_probs_log_odds_witness :
  valid_lexicon identity_lexicon
  /\ length example_ref = 3%nat
  /\ (0 < 3)%nat /\ (0 < 3)%nat /\ (1 < 3)%nat
  /\ exists p mat,
       spkr1_production_probs 0 identity_lexicon example_ref = inr p
       /\ list1_perception_matrix identity_lexicon example_ref = inr mat
       /\ nth 0 p 0 - nth 1 p 0
          = alpha * (nth 0 (nth 0 mat []) 0 - nth 0 (nth 1 mat []) 0).
Proof.
  assert (H2 : length example_ref = 3%nat) by reflexivity.
  assert (H3 : (0 < 3)%nat) by lia.
  assert (H5 : (1 < 3)%nat) by lia.
  split; [exact valid_identity_lexicon|]. split; [exact H2|].
  split; [exact H3|]. split; [exact H3|]. split; [exact H5|].
  exact (spkr1_production_probs_log_odds 0 0 1 identity_lexicon example_ref
           valid_identity_lexicon H2 H3 H3 H5).
Defined.

Lemma example_pairs_valid :
  Forall (fun pair => binary_lexicon (fst pair)
                      /\ Forall (fun c => Rabs (snd pair - c) < 1)
                           example_context)
    example_pairs.
Proof.
  constructor.
  - split; [exact binary_identity_lexicon|exact example_context_valid_0].
  - constructor; [|constructor].
    split; [exact binary_identity_lexicon|exact example_context_valid_1].
Qed.

Lemma learn_pragmatics_update_posterior_witness :
  (length example_prior <= length example_pairs)%nat
  /\ Forall (fun pair => binary_lexicon (fst pair)
                         /\ Forall (fun c => Rabs (snd pair - c) < 1)
                              example_context)
       example_pairs
  /\ length example_context = length meanings
  /\ In "b"%char signals
  /\ LearnPragmatics.update_posterior example_pairs example_prior "b"
       example_context
     = update_posterior (map LearnPragmatics.as_hypothesis example_pairs)
         example_prior "b" example_context.
Proof.
  assert (H1 : (length example_prior <= length example_pairs)%nat)
    by (simpl; lia).
  assert (H3 : length example_context = length meanings) by reflexivity.
  assert (H4 : In "b"%char signals) by (right; left; reflexivity).
  split; [exact H1|]. split; [exact example_pairs_valid|].
  split; [exact H3|]. split; [exact H4|].
  exact (learn_pragmatics_update_posterior example_pairs example_prior "b"
           example_context H1 example_pairs_valid H3 H4).
Defined.
